(** * DecentFilter: the alert decision logic of ampel/contrib/hu/t0/DecentFilter.py

    A shallow embedding of the [DecentFilter] T0 unit and the properties of
    its [apply] method.

    Modelling conventions.
    - A photopoint is a Python dict: a finite map from field names to
      dynamically typed values ([pyval]).  A missing key and a key bound to
      [None] are different things, as they are for [_alert_has_keys].
    - A finite float is the rational it denotes ([Q]); every comparison of
      the source is the corresponding comparison on [Q], and [abs], [max] and
      [min] are exact.  Where the source computes ([max(jd) - min(jd)],
      [sgscore - 0.5], the GAIA columns) the result is the exact one rounded
      to the nearest binary64 number, ties to even ([round64]), as Python and
      numpy round it.  NaN, infinities and signed zeros in the data are
      outside the model, and so is overflow: a result beyond the largest
      float is kept as the number it rounds to, which every comparison with
      a finite float treats as the infinity of the hardware.  The numpy
      division of the GAIA columns by a zero error has its own result type
      ([npfloat]).
    - Python exceptions are results ([Raise]); an early [return] of [apply]
      is the outcome [Return]; the instance ([self]) is threaded as state, so
      that the logger and the catalog client can be observed.
    - astropy, numpy and the catsHTM service are not part of the unit: they
      are the fields of the class [Collaborators].

    The module [T2RunPossis] embeds the [process] method of
    ampel/contrib/hu/t2/T2RunPossis.py in the same style. *)

From stdpp Require Import gmap strings list.
From Stdlib Require Import QArith Qabs Qminmax Lqa.

Local Open Scope Z_scope.
Local Open Scope string_scope.
Local Open Scope list_scope.

(** ** Python values *)

Inductive pyval : Type :=
| PNone
| PBool (b : bool)
| PNum (q : Q)
| PStr (s : string).

(** A photopoint, as [ampel_alert.pps] holds them. *)
Abbreviation photopoint := (gmap string pyval).

(** The part of [AmpelAlert] the filter reads: the photopoints, most recent
    first, and the upper limits, which [get_values(..., upper_limits=False)]
    leaves out. *)
Record AmpelAlert : Type := mkAlert {
  pps : list photopoint;
  uls : list photopoint
}.

Inductive exn : Type :=
| KeyError (k : string)
| TypeError
| ValueError
| IndexError
| CatalogServiceError.

(** ** Strict and non-strict comparison of rationals, as booleans *)

Definition Qltb (x y : Q) : bool := negb (Qle_bool y x).
Definition Qleb (x y : Q) : bool := Qle_bool x y.

(** Python's [max(a, b, ...)] and [min(a, b, ...)]: the first extremal
    argument wins. *)
Definition py_max2 (cur x : Q) : Q := if Qltb cur x then x else cur.
Definition py_min2 (cur x : Q) : Q := if Qltb x cur then x else cur.
Definition py_max (x : Q) (xs : list Q) : Q := fold_left py_max2 xs x.
Definition py_min (x : Q) (xs : list Q) : Q := fold_left py_min2 xs x.

(** ** binary64 arithmetic

    [round64 q] is the binary64 number nearest to [q], the one with the even
    significand when two are equally near: 53 significant bits, gradual
    underflow below [2^-1022].  It is what Python makes of a decimal literal
    ([round64 (1#10)] is the float [0.1]) and what [+], [-], [*] and [/] make
    of the exact result. *)

Definition pow2 (e : Z) : Q :=
  if (0 <=? e)%Z then inject_Z (2 ^ e) else (/ inject_Z (2 ^ (- e)))%Q.

(** The integer part of the binary logarithm of a positive rational. *)
Definition Qlog2 (q : Q) : Z :=
  let e := (Z.log2 (Qnum q) - Z.log2 (Zpos (Qden q)))%Z in
  if Qle_bool (pow2 e) q then e else (e - 1)%Z.

(** The nearest integer, the even one of two that are equally near. *)
Definition round_half_even (q : Q) : Z :=
  let n := Qnum q in
  let d := Zpos (Qden q) in
  match (2 * (n mod d) ?= d)%Z with
  | Lt => (n / d)%Z
  | Gt => (n / d + 1)%Z
  | Eq => if Z.even (n / d) then (n / d)%Z else (n / d + 1)%Z
  end.

(** The distance between the floats around [q]. *)
Definition ulp64 (q : Q) : Q := pow2 (Z.max (Qlog2 (Qabs q)) (-1022) - 52).

Definition round64 (q : Q) : Q :=
  let q := Qred q in
  if Qeq_bool q 0 then 0%Q
  else Qred (inject_Z (round_half_even (q / ulp64 q)) * ulp64 q).

(** [x + y], [x - y], [x * y] and [x / y] (for [y] that is not zero) on
    floats. *)
Definition float_add (x y : Q) : Q := round64 (x + y).
Definition float_sub (x y : Q) : Q := round64 (x - y).
Definition float_mul (x y : Q) : Q := round64 (x * y).
Definition float_div (x y : Q) : Q := round64 (x / y).

(** ** numpy float division

    [PMRA / ErrPMRA] on float64 columns does not raise on a zero divisor: it
    gives an infinity, or NaN for 0/0.  The sign of the infinity follows the
    dividend (signed zero divisors are not modelled; [abs] follows at once). *)

Inductive npfloat : Type :=
| Fin (q : Q)
| PInf
| NInf
| NaN.

Definition np_div (x y : Q) : npfloat :=
  if Qeq_bool y 0 then
    if Qeq_bool x 0 then NaN else if Qltb x 0 then NInf else PInf
  else Fin (float_div x y).

Definition np_abs (x : npfloat) : npfloat :=
  match x with
  | Fin q => Fin (Qabs q)
  | PInf | NInf => PInf
  | NaN => NaN
  end.

(** [x > t] for a finite threshold [t]. *)
Definition np_gt (x : npfloat) (t : Q) : bool :=
  match x with
  | Fin q => Qltb t q
  | PInf => true
  | NInf | NaN => false
  end.

(** ** Log records

    Every record the filter emits carries one [extra] entry. *)

Inductive level : Type := INFO | DEBUG.

Record log_record : Type := mkLog {
  log_level : level;
  log_msg : option string;
  log_key : string;
  log_val : pyval
}.

(** ** The GAIA DR2 columns the filter keeps ([my_keys]) *)

Record gaia_src : Type := mkSrc {
  RA : Q; Dec : Q; Mag_G : Q;
  PMRA : Q; ErrPMRA : Q;
  PMDec : Q; ErrPMDec : Q;
  Plx : Q; ErrPlx : Q;
  ExcessNoiseSig : Q
}.

(** ** Configuration and instance *)

Record InitConfig : Type := mkConfig {
  MIN_NDET : Z;
  MIN_TSPAN : Q;
  MAX_TSPAN : Q;
  MIN_RB : Q;
  MIN_DRB : Q;
  MAX_FWHM : Q;
  MAX_ELONG : Q;
  MAX_MAGDIFF : Q;
  MAX_NBAD : Z;
  MIN_DIST_TO_SSO : Q;
  MIN_GAL_LAT : Q;
  GAIA_RS : Q;
  GAIA_PM_SIGNIF : Q;
  GAIA_PLX_SIGNIF : Q;
  GAIA_VETO_GMAG_MIN : Q;
  GAIA_VETO_GMAG_MAX : Q;
  GAIA_EXCESSNOISE_SIG_MAX : Q;
  PS1_SGVETO_RAD : Q;
  PS1_SGVETO_SGTH : Q;
  PS1_CONFUSION_RAD : Q;
  PS1_CONFUSION_SG_TOL : Q;
  t2Compute : list string
}.

(** The attributes of a [DecentFilter] instance.  [logger] is the list of
    records emitted so far (latest last); [catshtm] counts the cone searches
    already sent through the client. *)
Record DecentFilter : Type := mkFilter {
  on_match_t2_units : list string;
  logger : list log_record;
  min_ndet : Z;
  min_tspan : Q;
  max_tspan : Q;
  max_fwhm : Q;
  max_elong : Q;
  max_magdiff : Q;
  max_nbad : Z;
  min_rb : Q;
  min_drb : Q;
  min_ssdistnr : Q;
  min_gal_lat : Q;
  gaia_rs : Q;
  gaia_pm_signif : Q;
  gaia_plx_signif : Q;
  gaia_veto_gmag_min : Q;
  gaia_veto_gmag_max : Q;
  gaia_excessnoise_sig_max : Q;
  ps1_sgveto_rad : Q;
  ps1_sgveto_th : Q;
  ps1_confusion_rad : Q;
  ps1_confusion_sg_tol : Q;
  catshtm : nat;
  keys_to_check : list string
}.

(** [MIN_DRB : float = 0.]: the one field of [InitConfig] with a default. *)
Definition MIN_DRB_default : Q := 0%Q.

(** [__init__], for a configuration that is there.  The "Using k=val" lines
    are text rendered for the operator; the records the logger holds before
    the first [apply] are arbitrary in all that follows, so they are not
    written out here.  The catsHTM client is fresh. *)
Definition new_filter (lg : list log_record) (c : InitConfig) : DecentFilter :=
  {|
    on_match_t2_units := t2Compute c;
    logger := lg;
    min_ndet := MIN_NDET c;
    min_tspan := MIN_TSPAN c;
    max_tspan := MAX_TSPAN c;
    max_fwhm := MAX_FWHM c;
    max_elong := MAX_ELONG c;
    max_magdiff := MAX_MAGDIFF c;
    max_nbad := MAX_NBAD c;
    min_rb := MIN_RB c;
    min_drb := MIN_DRB c;
    min_ssdistnr := MIN_DIST_TO_SSO c;
    min_gal_lat := MIN_GAL_LAT c;
    gaia_rs := GAIA_RS c;
    gaia_pm_signif := GAIA_PM_SIGNIF c;
    gaia_plx_signif := GAIA_PLX_SIGNIF c;
    gaia_veto_gmag_min := GAIA_VETO_GMAG_MIN c;
    gaia_veto_gmag_max := GAIA_VETO_GMAG_MAX c;
    gaia_excessnoise_sig_max := GAIA_EXCESSNOISE_SIG_MAX c;
    ps1_sgveto_rad := PS1_SGVETO_RAD c;
    ps1_sgveto_th := PS1_SGVETO_SGTH c;
    ps1_confusion_rad := PS1_CONFUSION_RAD c;
    ps1_confusion_sg_tol := PS1_CONFUSION_SG_TOL c;
    catshtm := 0%nat;
    keys_to_check :=
      ["fwhm"; "elong"; "magdiff"; "nbad"; "distpsnr1"; "sgscore1"; "distpsnr2";
       "sgscore2"; "distpsnr3"; "sgscore3"; "isdiffpos"; "ra"; "dec"; "rb"; "ssdistnr"]
  |}.

(** The configuration with another [MAX_NBAD]. *)
Definition set_MAX_NBAD (nb : Z) (c : InitConfig) : InitConfig :=
  {|
    MIN_NDET := MIN_NDET c;
    MIN_TSPAN := MIN_TSPAN c;
    MAX_TSPAN := MAX_TSPAN c;
    MIN_RB := MIN_RB c;
    MIN_DRB := MIN_DRB c;
    MAX_FWHM := MAX_FWHM c;
    MAX_ELONG := MAX_ELONG c;
    MAX_MAGDIFF := MAX_MAGDIFF c;
    MAX_NBAD := nb;
    MIN_DIST_TO_SSO := MIN_DIST_TO_SSO c;
    MIN_GAL_LAT := MIN_GAL_LAT c;
    GAIA_RS := GAIA_RS c;
    GAIA_PM_SIGNIF := GAIA_PM_SIGNIF c;
    GAIA_PLX_SIGNIF := GAIA_PLX_SIGNIF c;
    GAIA_VETO_GMAG_MIN := GAIA_VETO_GMAG_MIN c;
    GAIA_VETO_GMAG_MAX := GAIA_VETO_GMAG_MAX c;
    GAIA_EXCESSNOISE_SIG_MAX := GAIA_EXCESSNOISE_SIG_MAX c;
    PS1_SGVETO_RAD := PS1_SGVETO_RAD c;
    PS1_SGVETO_SGTH := PS1_SGVETO_SGTH c;
    PS1_CONFUSION_RAD := PS1_CONFUSION_RAD c;
    PS1_CONFUSION_SG_TOL := PS1_CONFUSION_SG_TOL c;
    t2Compute := t2Compute c
  |}.

(** [__init__]: a falsy configuration ([None]) raises [ValueError]. *)
Definition init (lg : list log_record) (init_config : option InitConfig)
  : exn + DecentFilter :=
  match init_config with
  | None => inl ValueError
  | Some c => inr (new_filter lg c)
  end.

(** ** The monad of method bodies

    A statement either falls through to the next one ([Next]), returns from
    [apply] ([Return]) or raises ([Raise]); in each case the instance it
    leaves behind is part of the result. *)

Inductive outcome (A : Type) : Type :=
| Next (a : A)
| Return (r : option (list string))
| Raise (e : exn).
Arguments Next {A} a.
Arguments Return {A} r.
Arguments Raise {A} e.

Definition M (A : Type) : Type := DecentFilter -> outcome A * DecentFilter.

Definition ret {A} (a : A) : M A := fun self => (Next a, self).
Definition py_return {A} (r : option (list string)) : M A := fun self => (Return r, self).
Definition raise {A} (e : exn) : M A := fun self => (Raise e, self).
Definition bind {A B} (c : M A) (k : A -> M B) : M B :=
  fun self =>
    match c self with
    | (Next a, self') => k a self'
    | (Return r, self') => (Return r, self')
    | (Raise e, self') => (Raise e, self')
    end.
Definition attr {A} (f : DecentFilter -> A) : M A := fun self => (Next (f self), self).

Declare Scope py_scope.
Delimit Scope py_scope with py.
Notation "x <- c ;; k" := (bind c (fun x => k))
  (at level 100, c at next level, right associativity) : py_scope.
Notation "c ;; k" := (bind c (fun _ => k))
  (at level 100, k at level 200, right associativity) : py_scope.
Local Open Scope py_scope.

Definition set_logger (lg : list log_record) (self : DecentFilter) : DecentFilter :=
  {|
    on_match_t2_units := on_match_t2_units self;
    logger := lg;
    min_ndet := min_ndet self;
    min_tspan := min_tspan self;
    max_tspan := max_tspan self;
    max_fwhm := max_fwhm self;
    max_elong := max_elong self;
    max_magdiff := max_magdiff self;
    max_nbad := max_nbad self;
    min_rb := min_rb self;
    min_drb := min_drb self;
    min_ssdistnr := min_ssdistnr self;
    min_gal_lat := min_gal_lat self;
    gaia_rs := gaia_rs self;
    gaia_pm_signif := gaia_pm_signif self;
    gaia_plx_signif := gaia_plx_signif self;
    gaia_veto_gmag_min := gaia_veto_gmag_min self;
    gaia_veto_gmag_max := gaia_veto_gmag_max self;
    gaia_excessnoise_sig_max := gaia_excessnoise_sig_max self;
    ps1_sgveto_rad := ps1_sgveto_rad self;
    ps1_sgveto_th := ps1_sgveto_th self;
    ps1_confusion_rad := ps1_confusion_rad self;
    ps1_confusion_sg_tol := ps1_confusion_sg_tol self;
    catshtm := catshtm self;
    keys_to_check := keys_to_check self
  |}.

Definition set_catshtm (n : nat) (self : DecentFilter) : DecentFilter :=
  {|
    on_match_t2_units := on_match_t2_units self;
    logger := logger self;
    min_ndet := min_ndet self;
    min_tspan := min_tspan self;
    max_tspan := max_tspan self;
    max_fwhm := max_fwhm self;
    max_elong := max_elong self;
    max_magdiff := max_magdiff self;
    max_nbad := max_nbad self;
    min_rb := min_rb self;
    min_drb := min_drb self;
    min_ssdistnr := min_ssdistnr self;
    min_gal_lat := min_gal_lat self;
    gaia_rs := gaia_rs self;
    gaia_pm_signif := gaia_pm_signif self;
    gaia_plx_signif := gaia_plx_signif self;
    gaia_veto_gmag_min := gaia_veto_gmag_min self;
    gaia_veto_gmag_max := gaia_veto_gmag_max self;
    gaia_excessnoise_sig_max := gaia_excessnoise_sig_max self;
    ps1_sgveto_rad := ps1_sgveto_rad self;
    ps1_sgveto_th := ps1_sgveto_th self;
    ps1_confusion_rad := ps1_confusion_rad self;
    ps1_confusion_sg_tol := ps1_confusion_sg_tol self;
    catshtm := n;
    keys_to_check := keys_to_check self
  |}.

(** An instance configured by [c] at any later time: with the records [lg]
    in its logger and [n] cone searches behind it. *)
Definition state (c : InitConfig) (lg : list log_record) (n : nat) : DecentFilter :=
  set_catshtm n (new_filter lg c).

Definition log_append (r : log_record) (self : DecentFilter) : DecentFilter :=
  set_logger (logger self ++ [r]) self.

(** The instance with another logger content, another number of cone
    searches behind it and another [max_nbad]; every other attribute is
    kept. *)
Definition vary (lg : list log_record) (n : nat) (nb : Z) (self : DecentFilter)
  : DecentFilter :=
  {|
    on_match_t2_units := on_match_t2_units self;
    logger := lg;
    min_ndet := min_ndet self;
    min_tspan := min_tspan self;
    max_tspan := max_tspan self;
    max_fwhm := max_fwhm self;
    max_elong := max_elong self;
    max_magdiff := max_magdiff self;
    max_nbad := nb;
    min_rb := min_rb self;
    min_drb := min_drb self;
    min_ssdistnr := min_ssdistnr self;
    min_gal_lat := min_gal_lat self;
    gaia_rs := gaia_rs self;
    gaia_pm_signif := gaia_pm_signif self;
    gaia_plx_signif := gaia_plx_signif self;
    gaia_veto_gmag_min := gaia_veto_gmag_min self;
    gaia_veto_gmag_max := gaia_veto_gmag_max self;
    gaia_excessnoise_sig_max := gaia_excessnoise_sig_max self;
    ps1_sgveto_rad := ps1_sgveto_rad self;
    ps1_sgveto_th := ps1_sgveto_th self;
    ps1_confusion_rad := ps1_confusion_rad self;
    ps1_confusion_sg_tol := ps1_confusion_sg_tol self;
    catshtm := n;
    keys_to_check := keys_to_check self
  |}.

(** [self.logger.info(None, extra={k: v})] and
    [self.logger.debug(msg, extra={k: v})]. *)
Definition logger_info (k : string) (v : pyval) : M unit :=
  fun self => (Next tt, log_append (mkLog INFO None k v) self).
Definition logger_debug (msg : string) (k : string) (v : pyval) : M unit :=
  fun self => (Next tt, log_append (mkLog DEBUG (Some msg) k v) self).

(** ** Python operations on dynamically typed values *)

(** [d[k]] *)
Definition getitem (d : photopoint) (k : string) : M pyval :=
  match d !! k with
  | Some v => ret v
  | None => raise (KeyError k)
  end.

(** The number a value stands for in arithmetic and ordering against a
    float: [bool] is a subclass of [int]; [None] and [str] raise
    [TypeError]. *)
Definition as_num (v : pyval) : option Q :=
  match v with
  | PNum q => Some q
  | PBool b => Some (if b then 1%Q else 0%Q)
  | PNone | PStr _ => None
  end.

Definition num (v : pyval) : M Q :=
  match as_num v with
  | Some q => ret q
  | None => raise TypeError
  end.

(** [v == s] for a string literal [s]; equality never raises. *)
Definition py_eq_str (v : pyval) (s : string) : bool :=
  match v with
  | PStr s' => bool_decide (s' = s)
  | _ => false
  end.

(** ** The filter *)

Inductive angle_unit : Type := deg | rad.

(** The collaborators of the unit.
    - astropy: [SkyCoord(lon, lat, unit=u)], which gets the two values as
      they are (it reads numbers and the strings it can parse, and refuses a
      latitude out of range), the [.ra.rad] and [.dec.rad] views of a
      coordinate, [.galactic.b.deg] and [a.separation(b).arcsec];
    - numpy: [exp];
    - catsHTM: the answer of the service to the [n]-th cone search sent
      through the client, for catalog, position (radians) and radius
      (arcseconds): the rows found, or a failure. *)
Class Collaborators : Type := {
  coord : Type;
  SkyCoord : angle_unit -> pyval -> pyval -> exn + coord;
  ra_rad : coord -> Q;
  dec_rad : coord -> Q;
  galactic_b_deg : coord -> Q;
  separation_arcsec : coord -> coord -> Q;
  np_exp : Q -> Q;
  cone_search : nat -> string -> Q -> Q -> Q -> exn + list gaia_src
}.

Section Filter.

Context {collab : Collaborators}.

Definition lift {A} (r : exn + A) : M A :=
  match r with
  | inl e => raise e
  | inr a => ret a
  end.

(** [self.catshtm.cone_search(...)] *)
Definition catshtm_cone_search (cat : string) (ra dec rs : Q) : M (list gaia_src) :=
  fun self =>
    let self' := set_catshtm (S (catshtm self)) self in
    match cone_search (catshtm self) cat ra dec rs with
    | inl e => (Raise e, self')
    | inr srcs => (Next srcs, self')
    end.

(** [_alert_has_keys] *)
Fixpoint alert_has_keys_loop (keys : list string) (photop : photopoint) : M bool :=
  match keys with
  | [] => ret true
  | el :: keys' =>
      match photop !! el with
      | None => logger_info "missing" (PStr el) ;; ret false
      | Some PNone => logger_info "isNone" (PStr el) ;; ret false
      | Some _ => alert_has_keys_loop keys' photop
      end
  end.

Definition _alert_has_keys (photop : photopoint) : M bool :=
  keys <- attr keys_to_check ;;
  alert_has_keys_loop keys photop.

(** [SkyCoord(transient['ra'], transient['dec'], unit='deg')] *)
Definition transient_SkyCoord (transient : photopoint) : M coord :=
  ra <- getitem transient "ra" ;;
  dec <- getitem transient "dec" ;;
  lift (SkyCoord deg ra dec).

(** [get_galactic_latitude] *)
Definition get_galactic_latitude (transient : photopoint) : M Q :=
  coordinates <- transient_SkyCoord transient ;;
  ret (galactic_b_deg coordinates).

(** [is_star_in_PS1].  The right operand of [and] is evaluated only when
    the left one holds. *)
Definition is_star_in_PS1 (transient : photopoint) : M bool :=
  distpsnr1 <- getitem transient "distpsnr1" ;;
  distpsnr1 <- num distpsnr1 ;;
  rad <- attr ps1_sgveto_rad ;;
  if Qltb distpsnr1 rad then
    sgscore1 <- getitem transient "sgscore1" ;;
    sgscore1 <- num sgscore1 ;;
    th <- attr ps1_sgveto_th ;;
    ret (Qltb th sgscore1)
  else ret false.

(** [is_confused_in_PS1] *)
Definition is_confused_in_PS1 (transient : photopoint) : M bool :=
  d1 <- getitem transient "distpsnr1" ;;
  d2 <- getitem transient "distpsnr2" ;;
  d3 <- getitem transient "distpsnr3" ;;
  d1 <- num d1 ;; d2 <- num d2 ;; d3 <- num d3 ;;
  rad <- attr ps1_confusion_rad ;;
  let very_close := Qltb (py_max d1 [d2; d3]) rad in
  sg1 <- getitem transient "sgscore1" ;;
  sg1 <- num sg1 ;;
  sg2 <- getitem transient "sgscore2" ;;
  sg2 <- num sg2 ;;
  sg3 <- getitem transient "sgscore3" ;;
  sg3 <- num sg3 ;;
  tol <- attr ps1_confusion_sg_tol ;;
  let sg_confused :=
    Qltb (py_max (Qabs (float_sub sg1 (1#2)))
            [Qabs (float_sub sg2 (1#2)); Qabs (float_sub sg3 (1#2))]) tol in
  ret (sg_confused && very_close).

(** The GAIA table after the derived columns have been added. *)
Record gaia_row : Type := mkRow {
  row_src : gaia_src;
  DISTANCE : Q;
  DISTANCE_NORM : bool;
  FLAG_PROX : bool;
  FLAG_PMRA : bool;
  FLAG_PMDec : bool;
  FLAG_Plx : bool;
  FLAG_Clean : bool
}.

Definition gaia_add_columns (self : DecentFilter) (transient_coords : coord)
    (x : gaia_src * coord) : gaia_row :=
  let (s, gaia_coords) := x in
  let distance := separation_arcsec transient_coords gaia_coords in
  let distance_norm :=
    Qltb distance
      (float_add (round64 (9#5))
         (float_mul (round64 (3#5))
            (np_exp (float_div (float_sub 20 (Mag_G s)) (round64 (41#20)))))) in
  {|
    row_src := s;
    DISTANCE := distance;
    DISTANCE_NORM := distance_norm;
    FLAG_PROX :=
      distance_norm &&
      (Qleb (gaia_veto_gmag_min self) (Mag_G s) && Qleb (Mag_G s) (gaia_veto_gmag_max self));
    FLAG_PMRA := np_gt (np_abs (np_div (PMRA s) (ErrPMRA s))) (gaia_pm_signif self);
    FLAG_PMDec := np_gt (np_abs (np_div (PMDec s) (ErrPMDec s))) (gaia_pm_signif self);
    FLAG_Plx := np_gt (np_abs (np_div (Plx s) (ErrPlx s))) (gaia_plx_signif self);
    FLAG_Clean := Qltb (ExcessNoiseSig s) (gaia_excessnoise_sig_max self)
  |}.

(** The rows left after the two selections, and the final test. *)
Definition gaia_any_flag (self : DecentFilter) (transient_coords : coord)
    (with_coords : list (gaia_src * coord)) : bool :=
  let gaia_tab := map (gaia_add_columns self transient_coords) with_coords in
  let gaia_tab := List.filter FLAG_PROX gaia_tab in
  let gaia_tab := List.filter FLAG_Clean gaia_tab in
  existsb FLAG_PMRA gaia_tab || existsb FLAG_PMDec gaia_tab || existsb FLAG_Plx gaia_tab.

(** A row that survives both selections and carries one of the three
    flags. *)
Definition star_like (self : DecentFilter) (transient_coords : coord)
    (x : gaia_src * coord) : bool :=
  let r := gaia_add_columns self transient_coords x in
  FLAG_PROX r && FLAG_Clean r && (FLAG_PMRA r || FLAG_PMDec r || FLAG_Plx r).

(** [SkyCoord(gaia_tab['RA'], gaia_tab['Dec'], unit='rad')]: one
    coordinate per row, or the failure of the first row astropy refuses. *)
Fixpoint gaia_SkyCoord (srcs : list gaia_src) : exn + list (gaia_src * coord) :=
  match srcs with
  | [] => inr []
  | s :: srcs' =>
      match SkyCoord rad (PNum (RA s)) (PNum (Dec s)) with
      | inl e => inl e
      | inr c =>
          match gaia_SkyCoord srcs' with
          | inl e => inl e
          | inr cs => inr ((s, c) :: cs)
          end
      end
  end.

(** [is_star_in_gaia] *)
Definition is_star_in_gaia (transient : photopoint) : M bool :=
  transient_coords <- transient_SkyCoord transient ;;
  rs <- attr gaia_rs ;;
  srcs <- catshtm_cone_search "GAIADR2" (ra_rad transient_coords)
            (dec_rad transient_coords) rs ;;
  if (0 <? length srcs)%nat then
    with_coords <- lift (gaia_SkyCoord srcs) ;;
    fun self =>
      if gaia_any_flag self transient_coords with_coords
      then ret true self
      else ret false self
  else ret false.

(** [AmpelAlert.get_values(param_name, upper_limits=False)], from the
    interface package: the values of the photopoints that carry the
    parameter, in order. *)
Definition get_values (alert : AmpelAlert) (param_name : string) : list pyval :=
  omap (fun pp : photopoint => pp !! param_name) (pps alert).

Fixpoint all_num (vs : list pyval) : option (list Q) :=
  match vs with
  | [] => Some []
  | v :: vs' =>
      match as_num v, all_num vs' with
      | Some q, Some qs => Some (q :: qs)
      | _, _ => None
      end
  end.

(** [max(vs) - min(vs)], a float subtraction.  An empty sequence makes
    [max] raise [ValueError]; a value that is no number makes [max], [min]
    or the subtraction raise [TypeError]. *)
Definition max_minus_min (vs : list pyval) : M Q :=
  match vs with
  | [] => raise ValueError
  | _ :: _ =>
      match all_num vs with
      | Some (q :: qs) => ret (float_sub (py_max q qs) (py_min q qs))
      | _ => raise TypeError
      end
  end.

(** *** The statements of [apply], in the order of the source *)

Definition cut_ndet (ampel_alert : AmpelAlert) : M unit :=
  let npp := Z.of_nat (length (pps ampel_alert)) in
  min_ndet <- attr min_ndet ;;
  if (npp <? min_ndet)%Z then
    logger_info "nDet" (PNum (inject_Z npp)) ;;
    py_return None
  else ret tt.

Definition cut_tspan (ampel_alert : AmpelAlert) : M unit :=
  let detections_jds := get_values ampel_alert "jd" in
  det_tspan <- max_minus_min detections_jds ;;
  min_tspan <- attr min_tspan ;;
  max_tspan <- attr max_tspan ;;
  if negb (Qltb min_tspan det_tspan && Qltb det_tspan max_tspan) then
    logger_info "tSpan" (PNum det_tspan) ;;
    py_return None
  else ret tt.

(** [latest = ampel_alert.pps[0]] *)
Definition pps_0 (ampel_alert : AmpelAlert) : M photopoint :=
  match pps ampel_alert with
  | latest :: _ => ret latest
  | [] => raise IndexError
  end.

Definition cut_keys (latest : photopoint) : M unit :=
  ok <- _alert_has_keys latest ;;
  if negb ok then py_return None else ret tt.

Definition cut_isdiffpos (latest : photopoint) : M unit :=
  isdiffpos <- getitem latest "isdiffpos" ;;
  if py_eq_str isdiffpos "f" || py_eq_str isdiffpos "0" then
    logger_info "isdiffpos" isdiffpos ;;
    py_return None
  else ret tt.

Definition cut_rb (latest : photopoint) : M unit :=
  rb <- getitem latest "rb" ;;
  x <- num rb ;;
  min_rb <- attr min_rb ;;
  if Qltb x min_rb then
    logger_info "rb" rb ;;
    py_return None
  else ret tt.

Definition cut_drb (latest : photopoint) : M unit :=
  min_drb <- attr min_drb ;;
  if Qltb 0 min_drb then
    drb <- getitem latest "drb" ;;
    x <- num drb ;;
    if Qltb x min_drb then
      logger_info "drb" drb ;;
      py_return None
    else ret tt
  else ret tt.

Definition cut_fwhm (latest : photopoint) : M unit :=
  fwhm <- getitem latest "fwhm" ;;
  x <- num fwhm ;;
  max_fwhm <- attr max_fwhm ;;
  if Qltb max_fwhm x then
    logger_info "fwhm" fwhm ;;
    py_return None
  else ret tt.

Definition cut_elong (latest : photopoint) : M unit :=
  elong <- getitem latest "elong" ;;
  x <- num elong ;;
  max_elong <- attr max_elong ;;
  if Qltb max_elong x then
    logger_info "elong" elong ;;
    py_return None
  else ret tt.

Definition cut_magdiff (latest : photopoint) : M unit :=
  magdiff <- getitem latest "magdiff" ;;
  x <- num magdiff ;;
  max_magdiff <- attr max_magdiff ;;
  if Qltb max_magdiff (Qabs x) then
    logger_info "magdiff" magdiff ;;
    py_return None
  else ret tt.

Definition cut_ssdistnr (latest : photopoint) : M unit :=
  ssdistnr <- getitem latest "ssdistnr" ;;
  x <- num ssdistnr ;;
  if Qleb 0 x then
    min_ssdistnr <- attr min_ssdistnr ;;
    if Qltb x min_ssdistnr then
      logger_info "ssdistnr" ssdistnr ;;
      py_return None
    else ret tt
  else ret tt.

Definition cut_gal_lat (latest : photopoint) : M unit :=
  b <- get_galactic_latitude latest ;;
  min_gal_lat <- attr min_gal_lat ;;
  if Qltb (Qabs b) min_gal_lat then
    logger_info "galPlane" (PNum (Qabs b)) ;;
    py_return None
  else ret tt.

Definition cut_star_in_PS1 (latest : photopoint) : M unit :=
  star <- is_star_in_PS1 latest ;;
  if star then
    distpsnr1 <- getitem latest "distpsnr1" ;;
    logger_info "distpsnr1" distpsnr1 ;;
    py_return None
  else ret tt.

Definition cut_confused_in_PS1 (latest : photopoint) : M unit :=
  confused <- is_confused_in_PS1 latest ;;
  if confused then
    logger_info "ps1Confusion" (PBool true) ;;
    py_return None
  else ret tt.

Definition cut_star_in_gaia (latest : photopoint) : M unit :=
  star <- is_star_in_gaia latest ;;
  if star then
    logger_info "gaiaIsStar" (PBool true) ;;
    py_return None
  else ret tt.

Definition accept (latest : photopoint) : M unit :=
  candid <- getitem latest "candid" ;;
  logger_debug "Alert accepted" "latestPpId" candid ;;
  units <- attr on_match_t2_units ;;
  py_return (Some units).

Definition apply_body (ampel_alert : AmpelAlert) : M unit :=
  cut_ndet ampel_alert ;;
  cut_tspan ampel_alert ;;
  latest <- pps_0 ampel_alert ;;
  cut_keys latest ;;
  cut_isdiffpos latest ;;
  cut_rb latest ;;
  cut_drb latest ;;
  cut_fwhm latest ;;
  cut_elong latest ;;
  cut_magdiff latest ;;
  cut_ssdistnr latest ;;
  cut_gal_lat latest ;;
  cut_star_in_PS1 latest ;;
  cut_confused_in_PS1 latest ;;
  cut_star_in_gaia latest ;;
  accept latest.

(** What a call of [apply] gives its caller: the value returned ([None]
    rejects the alert, a list of T2 unit names accepts it) or the
    exception raised. *)
Inductive result : Type :=
| Returned (r : option (list string))
| Raised (e : exn).

(** [apply]: the call, with the instance it leaves behind. *)
Definition apply (self : DecentFilter) (ampel_alert : AmpelAlert)
  : result * DecentFilter :=
  match apply_body ampel_alert self with
  | (Next _, self') => (Returned None, self')
  | (Return r, self') => (Returned r, self')
  | (Raise e, self') => (Raised e, self')
  end.

(** The fourteen guarded statements of [apply] as a list, for an alert
    whose first photopoint is [latest], and their execution in sequence. *)
Definition gates (ampel_alert : AmpelAlert) (latest : photopoint) : list (M unit) :=
  [ cut_ndet ampel_alert; cut_tspan ampel_alert; cut_keys latest;
    cut_isdiffpos latest; cut_rb latest; cut_drb latest; cut_fwhm latest;
    cut_elong latest; cut_magdiff latest; cut_ssdistnr latest;
    cut_gal_lat latest; cut_star_in_PS1 latest; cut_confused_in_PS1 latest;
    cut_star_in_gaia latest ].

Definition seq_steps (cs : list (M unit)) : M unit :=
  fold_right (fun c k => c ;; k) (ret tt) cs.

(** A statement lets the alert through. *)
Definition passes (c : M unit) (self : DecentFilter) : Prop :=
  fst (c self) = Next tt.

(** The three ways a guarded statement can end: it falls through and
    leaves the instance as it was; it logs one record and returns [None];
    it raises. *)
Inductive verdict : Type :=
| Pass
| Fail (r : log_record)
| Error (e : exn).

Definition settle (v : verdict) : M unit :=
  fun self =>
    match v with
    | Pass => (Next tt, self)
    | Fail r => (Return None, log_append r self)
    | Error e => (Raise e, self)
    end.

(** A statement is a gate when its verdict depends neither on the logger,
    nor on the catalog client, nor on [max_nbad]. *)
Definition is_gate (c : M unit) : Prop :=
  forall self, exists v, forall lg n nb,
    c (vary lg n nb self) = settle v (vary lg n nb self).

(** ** The decision procedure in the words of the specification

    Section 4.1: twelve gates over the alert, the configuration and the
    answer of the catalog, composed by a short-circuiting evaluator; item
    13 accepts.  The reason code of a rejection is the number of the gate.
    The formulas of the gates are evaluated in binary64, each operation
    rounded.  A gate reads a field that is absent or no number as 0; the
    gates are compared with [apply] where [apply] returns. *)

Inductive Decision : Type :=
| Rejected (reason_code : nat)
| Accepted (tags : list string).

Definition CatalogQueryService : Type := string -> Q -> Q -> Q -> list gaia_src.

(** The number a detection holds under [k], when it holds one. *)
Definition number_at (d : photopoint) (k : string) : option Q :=
  match d !! k with
  | Some v => as_num v
  | None => None
  end.

Definition latest_detection (alert : AmpelAlert) : photopoint :=
  match pps alert with
  | d :: _ => d
  | [] => ∅
  end.

Definition field_value (d : photopoint) (k : string) : Q :=
  match d !! k with
  | Some v => match as_num v with Some q => q | None => 0%Q end
  | None => 0%Q
  end.

Definition field_non_null (d : photopoint) (k : string) : bool :=
  match d !! k with
  | None | Some PNone => false
  | Some _ => true
  end.

Definition required_fields : list string :=
  ["fwhm"; "elong"; "magdiff"; "nbad"; "distpsnr1"; "distpsnr2"; "distpsnr3";
   "sgscore1"; "sgscore2"; "sgscore3"; "isdiffpos"; "ra"; "dec"; "rb"; "ssdistnr"].

Definition julian_dates (alert : AmpelAlert) : list Q :=
  omap (fun d : photopoint => number_at d "jd") (pps alert).

Definition history_span (alert : AmpelAlert) : Q :=
  match julian_dates alert with
  | [] => 0%Q
  | j :: js => round64 (fold_right Qmax j js - fold_right Qmin j js)
  end.

Definition gate_detection_count (config : InitConfig) (alert : AmpelAlert)
    (catalog : CatalogQueryService) : bool :=
  (Z.of_nat (length (pps alert)) <? MIN_NDET config)%Z.

Definition gate_history_span (config : InitConfig) (alert : AmpelAlert)
    (catalog : CatalogQueryService) : bool :=
  negb (Qltb (MIN_TSPAN config) (history_span alert)
        && Qltb (history_span alert) (MAX_TSPAN config)).

Definition gate_field_completeness (config : InitConfig) (alert : AmpelAlert)
    (catalog : CatalogQueryService) : bool :=
  negb (forallb (field_non_null (latest_detection alert)) required_fields).

Definition gate_flux_sign (config : InitConfig) (alert : AmpelAlert)
    (catalog : CatalogQueryService) : bool :=
  match latest_detection alert !! "isdiffpos" with
  | Some (PStr s) => bool_decide (s = "f") || bool_decide (s = "0")
  | _ => false
  end.

Definition gate_real_bogus (config : InitConfig) (alert : AmpelAlert)
    (catalog : CatalogQueryService) : bool :=
  Qltb (field_value (latest_detection alert) "rb") (MIN_RB config).

Definition gate_deep_real_bogus (config : InitConfig) (alert : AmpelAlert)
    (catalog : CatalogQueryService) : bool :=
  Qltb 0 (MIN_DRB config)
  && Qltb (field_value (latest_detection alert) "drb") (MIN_DRB config).

Definition gate_image_quality (config : InitConfig) (alert : AmpelAlert)
    (catalog : CatalogQueryService) : bool :=
  let d := latest_detection alert in
  Qltb (MAX_FWHM config) (field_value d "fwhm")
  || Qltb (MAX_ELONG config) (field_value d "elong")
  || Qltb (MAX_MAGDIFF config) (Qabs (field_value d "magdiff")).

Definition gate_sso_proximity (config : InitConfig) (alert : AmpelAlert)
    (catalog : CatalogQueryService) : bool :=
  let dist := field_value (latest_detection alert) "ssdistnr" in
  Qleb 0 dist && Qltb dist (MIN_DIST_TO_SSO config).

Definition detection_coord (d : photopoint) : option coord :=
  match d !! "ra", d !! "dec" with
  | Some ra, Some dec =>
      match SkyCoord deg ra dec with
      | inr c => Some c
      | inl _ => None
      end
  | _, _ => None
  end.

Definition gate_galactic_latitude (config : InitConfig) (alert : AmpelAlert)
    (catalog : CatalogQueryService) : bool :=
  match detection_coord (latest_detection alert) with
  | Some c => Qltb (Qabs (galactic_b_deg c)) (MIN_GAL_LAT config)
  | None => false
  end.

Definition gate_local_star (config : InitConfig) (alert : AmpelAlert)
    (catalog : CatalogQueryService) : bool :=
  let d := latest_detection alert in
  Qltb (field_value d "distpsnr1") (PS1_SGVETO_RAD config)
  && Qltb (PS1_SGVETO_SGTH config) (field_value d "sgscore1").

Definition gate_local_confusion (config : InitConfig) (alert : AmpelAlert)
    (catalog : CatalogQueryService) : bool :=
  let d := latest_detection alert in
  let dev k := Qabs (round64 (field_value d k - (1#2))) in
  (Qltb (field_value d "distpsnr1") (PS1_CONFUSION_RAD config)
   && Qltb (field_value d "distpsnr2") (PS1_CONFUSION_RAD config)
   && Qltb (field_value d "distpsnr3") (PS1_CONFUSION_RAD config))
  && Qltb (Qmax (Qmax (dev "sgscore1") (dev "sgscore2")) (dev "sgscore3"))
       (PS1_CONFUSION_SG_TOL config).

(** [1.8 + 0.6 * exp((20 - G_mag) / 2.05)], every literal and every
    operation rounded. *)
Definition proximity_radius (mag : Q) : Q :=
  round64 (round64 (9#5)
           + round64 (round64 (3#5)
                      * np_exp (round64 (round64 (20 - mag) / round64 (41#20))))).

(** [|x / err| > threshold] on float64 values: the quotient is rounded; a
    zero [err] makes it infinite, above every threshold, unless [x] is zero
    as well (the quotient is then NaN, above none). *)
Definition ratio_exceeds (x err threshold : Q) : bool :=
  if Qeq_bool err 0 then negb (Qeq_bool x 0)
  else Qltb threshold (Qabs (round64 (x / err))).

Definition significant (x err threshold : Q) : Prop :=
  (~ err == 0 /\ threshold < Qabs (round64 (x / err)))%Q
  \/ (err == 0 /\ ~ x == 0)%Q.

Definition source_proximate (config : InitConfig) (c : coord) (s : gaia_src) : bool :=
  match SkyCoord rad (PNum (RA s)) (PNum (Dec s)) with
  | inr sc =>
      Qltb (separation_arcsec c sc) (proximity_radius (Mag_G s))
      && (Qleb (GAIA_VETO_GMAG_MIN config) (Mag_G s)
          && Qleb (Mag_G s) (GAIA_VETO_GMAG_MAX config))
  | inl _ => false
  end.

Definition source_clean (config : InitConfig) (s : gaia_src) : bool :=
  Qltb (ExcessNoiseSig s) (GAIA_EXCESSNOISE_SIG_MAX config).

Definition source_moving (config : InitConfig) (s : gaia_src) : bool :=
  ratio_exceeds (PMRA s) (ErrPMRA s) (GAIA_PM_SIGNIF config)
  || ratio_exceeds (PMDec s) (ErrPMDec s) (GAIA_PM_SIGNIF config)
  || ratio_exceeds (Plx s) (ErrPlx s) (GAIA_PLX_SIGNIF config).

Definition gate_remote_star (config : InitConfig) (alert : AmpelAlert)
    (catalog : CatalogQueryService) : bool :=
  match detection_coord (latest_detection alert) with
  | Some c =>
      existsb
        (fun s => source_proximate config c s && source_clean config s
                  && source_moving config s)
        (catalog "GAIADR2" (ra_rad c) (dec_rad c) (GAIA_RS config))
  | None => false
  end.

Definition spec_gates
  : list (InitConfig -> AmpelAlert -> CatalogQueryService -> bool) :=
  [ gate_detection_count; gate_history_span; gate_field_completeness;
    gate_flux_sign; gate_real_bogus; gate_deep_real_bogus; gate_image_quality;
    gate_sso_proximity; gate_galactic_latitude; gate_local_star;
    gate_local_confusion; gate_remote_star ].

(** The short-circuiting evaluator: the number of the first gate, counted
    from [i], that rejects. *)
Fixpoint first_failing
    (gs : list (InitConfig -> AmpelAlert -> CatalogQueryService -> bool)) (i : nat)
    (config : InitConfig) (alert : AmpelAlert) (catalog : CatalogQueryService)
  : option nat :=
  match gs with
  | [] => None
  | g :: gs' =>
      if g config alert catalog then Some i
      else first_failing gs' (S i) config alert catalog
  end.

Definition evaluate (alert : AmpelAlert) (config : InitConfig)
    (catalog : CatalogQueryService) : Decision :=
  match first_failing spec_gates 1 config alert catalog with
  | Some k => Rejected k
  | None => Accepted (t2Compute config)
  end.

(** The catalog as [evaluate] sees it at the [n]-th cone search. *)
Definition catalog_at (n : nat) : CatalogQueryService :=
  fun cat ra dec rs =>
    match cone_search n cat ra dec rs with
    | inr srcs => srcs
    | inl _ => []
    end.

(** The gate of section 4.1 each of the fourteen statements of [apply]
    belongs to: the three image-quality statements are gate 7. *)
Definition gate_of_statement : list nat :=
  [1; 2; 3; 4; 5; 6; 7; 7; 7; 8; 9; 10; 11; 12]%nat.

(** The [extra] keys under which a gate of section 4.1 reports. *)
Definition reason_keys (gate : nat) : list string :=
  match gate with
  | 1 => ["nDet"]
  | 2 => ["tSpan"]
  | 3 => ["missing"; "isNone"]
  | 4 => ["isdiffpos"]
  | 5 => ["rb"]
  | 6 => ["drb"]
  | 7 => ["fwhm"; "elong"; "magdiff"]
  | 8 => ["ssdistnr"]
  | 9 => ["galPlane"]
  | 10 => ["distpsnr1"]
  | 11 => ["ps1Confusion"]
  | 12 => ["gaiaIsStar"]
  | _ => []
  end%nat.

(** A statement of [apply] run on [self] agrees with a gate of the
    specification whose answer is [g] ([true] rejects): it falls through
    exactly when the gate passes, and when it returns it has logged one
    INFO record under one of [keys].  It raises only on an alert that is
    not [wf]. *)
Definition links (c : M unit) (self : DecentFilter) (g : bool) (keys : list string)
    (wf : Prop) : Prop :=
  match c self with
  | (Next _, self') => self' = self /\ g = false
  | (Return r, self') =>
      r = None /\ g = true /\
      exists rec, self' = log_append rec self /\ log_level rec = INFO
                  /\ In (log_key rec) keys
  | (Raise _, _) => ~ wf
  end.

(** The alerts on which [apply] is meant to run: there is a latest
    detection; every detection has a Julian date; the fields of the
    latest detection that are compared are numbers when they are there and
    not null; it has its identifier; the deep-learning score is there when
    it is asked for; astropy accepts the positions (whatever they are
    written as) and the catalog answers. *)
Definition numeric_fields : list string :=
  ["fwhm"; "elong"; "magdiff"; "distpsnr1"; "distpsnr2"; "distpsnr3";
   "sgscore1"; "sgscore2"; "sgscore3"; "rb"; "ssdistnr"].

Definition is_number (v : pyval) : Prop := as_num v <> None.

Definition well_formed (config : InitConfig) (n : nat) (alert : AmpelAlert) : Prop :=
  pps alert <> []
  /\ (forall d, In d (pps alert) -> exists v, d !! "jd" = Some v /\ is_number v)
  /\ (forall k v, In k numeric_fields -> latest_detection alert !! k = Some v ->
        v = PNone \/ is_number v)
  /\ latest_detection alert !! "candid" <> None
  /\ ((0 < MIN_DRB config)%Q ->
        exists v, latest_detection alert !! "drb" = Some v /\ is_number v)
  /\ (exists tc srcs with_coords,
        detection_coord (latest_detection alert) = Some tc
        /\ cone_search n "GAIADR2" (ra_rad tc) (dec_rad tc) (GAIA_RS config) = inr srcs
        /\ gaia_SkyCoord srcs = inr with_coords).

(** What the body of [apply], run on an instance configured by [config]
    with [n] cone searches behind it, owes the specification: when it
    returns, the decision is the one [evaluate] takes with the catalog as it
    answers the [n]-th search, a rejection has left one INFO record under a
    key of the rejecting gate and has searched the catalog only if that
    gate is the last, and an acceptance has left the DEBUG record after one
    search; the body does not fall off its end; it raises only on an alert
    that is not well formed. *)
Definition implements (config : InitConfig) (lg : list log_record) (n : nat)
    (alert : AmpelAlert) (x : outcome unit * DecentFilter) : Prop :=
  match x with
  | (Return r, self') =>
      match evaluate alert config (catalog_at n) with
      | Rejected k =>
          r = None
          /\ exists rec,
               self' = log_append rec (state config lg (if (k <? 12)%nat then n else S n))
               /\ log_level rec = INFO /\ In (log_key rec) (reason_keys k)
      | Accepted tags =>
          r = Some tags
          /\ exists candid,
               latest_detection alert !! "candid" = Some candid
               /\ self' = log_append
                            (mkLog DEBUG (Some "Alert accepted") "latestPpId" candid)
                            (state config lg (S n))
      end
  | (Next _, _) => False
  | (Raise _, _) => ~ well_formed config n alert
  end.

(** A statement that, when it makes [apply] return, returns [None] and has
    appended one INFO record to the logger. *)
Definition rejects_with_info (c : M unit) : Prop :=
  forall self r self',
    c self = (Return r, self') ->
    r = None /\ exists rec, self' = log_append rec self /\ log_level rec = INFO.

(** A source that the table of [is_star_in_gaia] keeps and flags, in terms
    of its columns: nearer than the radius of its magnitude, inside the
    magnitude window, clean, and with a significant proper motion or
    parallax. *)
Definition gaia_star (self : DecentFilter) (transient_coords : coord)
    (s : gaia_src) (gaia_coords : coord) : Prop :=
  (separation_arcsec transient_coords gaia_coords < proximity_radius (Mag_G s))%Q
  /\ (gaia_veto_gmag_min self <= Mag_G s /\ Mag_G s <= gaia_veto_gmag_max self)%Q
  /\ (ExcessNoiseSig s < gaia_excessnoise_sig_max self)%Q
  /\ (significant (PMRA s) (ErrPMRA s) (gaia_pm_signif self)
      \/ significant (PMDec s) (ErrPMDec s) (gaia_pm_signif self)
      \/ significant (Plx s) (ErrPlx s) (gaia_plx_signif self)).

(** [c'] is at most as strict as [c]: every cut of [c'] is implied by the
    cut of [c], and the cone search has the same radius. *)
Definition looser (c c' : InitConfig) : Prop :=
  (MIN_NDET c' <= MIN_NDET c)%Z
  /\ (MIN_TSPAN c' <= MIN_TSPAN c)%Q /\ (MAX_TSPAN c <= MAX_TSPAN c')%Q
  /\ (MIN_RB c' <= MIN_RB c)%Q /\ (MIN_DRB c' <= MIN_DRB c)%Q
  /\ (MAX_FWHM c <= MAX_FWHM c')%Q /\ (MAX_ELONG c <= MAX_ELONG c')%Q
  /\ (MAX_MAGDIFF c <= MAX_MAGDIFF c')%Q
  /\ (MIN_DIST_TO_SSO c' <= MIN_DIST_TO_SSO c)%Q
  /\ (MIN_GAL_LAT c' <= MIN_GAL_LAT c)%Q
  /\ GAIA_RS c' = GAIA_RS c
  /\ (GAIA_PM_SIGNIF c <= GAIA_PM_SIGNIF c')%Q
  /\ (GAIA_PLX_SIGNIF c <= GAIA_PLX_SIGNIF c')%Q
  /\ (GAIA_VETO_GMAG_MIN c <= GAIA_VETO_GMAG_MIN c')%Q
  /\ (GAIA_VETO_GMAG_MAX c' <= GAIA_VETO_GMAG_MAX c)%Q
  /\ (GAIA_EXCESSNOISE_SIG_MAX c' <= GAIA_EXCESSNOISE_SIG_MAX c)%Q
  /\ (PS1_SGVETO_RAD c' <= PS1_SGVETO_RAD c)%Q
  /\ (PS1_SGVETO_SGTH c <= PS1_SGVETO_SGTH c')%Q
  /\ (PS1_CONFUSION_RAD c' <= PS1_CONFUSION_RAD c)%Q
  /\ (PS1_CONFUSION_SG_TOL c' <= PS1_CONFUSION_SG_TOL c)%Q.

End Filter.

(** * T2RunPossis.process: the explosion time taken from T2PropagateStockInfo

    The [process] method of ampel/contrib/hu/t2/T2RunPossis.py.  A T2
    payload is a BSON value ([UBson]): ints and floats are told apart, as
    [isinstance(-, float)] tells them apart, and floats are idealised as
    rationals.  The instance is threaded as state; the sncosmo model is an
    attribute of it and [Model.set] gives the model it leaves behind.
    sncosmo, astropy's [Time], the result and code types of the framework and
    the [process] of the parent class [T2RunSncosmo] are not part of the
    unit: they are the fields of the class [Environment]. *)

Module T2RunPossis.

Unset Elimination Schemes.
Inductive UBson : Type :=
| BNone
| BBool (b : bool)
| BInt (i : Z)
| BFloat (x : Q)
| BStr (s : string)
| BList (l : list UBson)
| BDict (d : gmap string UBson).
Set Elimination Schemes.

(** A [T2DocView] as [process] sees it: its [unit] and what its
    [get_payload()] answers. *)
Record T2DocView : Type := mkView {
  unit : string;
  get_payload : UBson
}.

(** [explosion_time_jd: None | float | Literal['StockTriggerTime']] *)
Inductive explosion_time : Type :=
| ExplNone
| ExplFloat (jd : Q)
| StockTriggerTime.

Inductive exn : Type :=
| AttributeError
| IndexError
| ValueError
| Foreign (name : string).

(** The [extra] of a log call. *)
Inductive log_extra : Type :=
| NoExtra
| Extra_t2res (t2_res : UBson)
| Extra_explosion_time (t : explosion_time).

Record log_record : Type := mkLog {
  log_level : level;
  log_msg : string;
  log_extra_of : log_extra
}.

(** The attributes of the instance that [process] reads or writes, and the
    others ([inherited]), which it hands to the parent class untouched. *)
Record T2RunPossis (Model Inherited : Type) : Type := mkUnit {
  explosion_time_jd : explosion_time;
  sncosmo_model : Model;
  fit_params : list string;
  logger : list log_record;
  inherited : Inherited
}.
Arguments mkUnit {Model Inherited}.
Arguments explosion_time_jd {Model Inherited}.
Arguments sncosmo_model {Model Inherited}.
Arguments fit_params {Model Inherited}.
Arguments logger {Model Inherited}.
Arguments inherited {Model Inherited}.

(** The collaborators of [process].
    - sncosmo: [model.set(t0=v)], which gives the model with the new [t0] or
      raises;
    - astropy: [Time(s, scale="utc").jd];
    - the framework: [UnitResult(code=c)] and [DocumentCode.T2_MISSING_INFO];
    - the parent class: [T2RunSncosmo.process], which gets the instance and
      leaves it behind. *)
Class Environment : Type := {
  Model : Type;
  Inherited : Type;
  LightCurve : Type;
  T2Result : Type;
  DocumentCode : Type;
  T2_MISSING_INFO : DocumentCode;
  UnitResult : DocumentCode -> T2Result;
  Model_set_t0 : Model -> explosion_time -> exn + Model;
  Time_jd : string -> exn + Q;
  super_process :
    T2RunPossis Model Inherited -> LightCurve -> list T2DocView ->
    (exn + T2Result) * T2RunPossis Model Inherited
}.

Section Unit.

Context {env : Environment}.

Abbreviation Self := (T2RunPossis Model Inherited).

(** ** Statements: fall through, [return], or raise *)

Inductive outcome (A : Type) : Type :=
| Next (a : A)
| Return (r : T2Result)
| Raise (e : exn).
Arguments Next {A} a.
Arguments Return {A} r.
Arguments Raise {A} e.

Definition M (A : Type) : Type := Self -> outcome A * Self.

Definition ret {A} (a : A) : M A := fun self => (Next a, self).
Definition py_return {A} (r : T2Result) : M A := fun self => (Return r, self).
Definition raise {A} (e : exn) : M A := fun self => (Raise e, self).
Definition bind {A B} (c : M A) (k : A -> M B) : M B :=
  fun self =>
    match c self with
    | (Next a, self') => k a self'
    | (Return r, self') => (Return r, self')
    | (Raise e, self') => (Raise e, self')
    end.
Definition attr {A} (f : Self -> A) : M A := fun self => (Next (f self), self).
Definition lift {A} (r : exn + A) : M A :=
  match r with
  | inl e => raise e
  | inr a => ret a
  end.

Declare Scope t2_scope.
Delimit Scope t2_scope with t2.
Notation "x <- c ;; k" := (bind c (fun x => k))
  (at level 100, c at next level, right associativity) : t2_scope.
Notation "c ;; k" := (bind c (fun _ => k))
  (at level 100, k at level 200, right associativity) : t2_scope.
Local Open Scope t2_scope.

(** ** Attribute assignment and logging *)

Definition set_explosion_time_jd (t : explosion_time) (self : Self) : Self :=
  mkUnit t (sncosmo_model self) (fit_params self) (logger self) (inherited self).
Definition set_sncosmo_model (m : Model) (self : Self) : Self :=
  mkUnit (explosion_time_jd self) m (fit_params self) (logger self) (inherited self).
Definition set_fit_params (ps : list string) (self : Self) : Self :=
  mkUnit (explosion_time_jd self) (sncosmo_model self) ps (logger self) (inherited self).
Definition log_append (r : log_record) (self : Self) : Self :=
  mkUnit (explosion_time_jd self) (sncosmo_model self) (fit_params self)
    (logger self ++ [r]) (inherited self).

Definition assign_explosion_time_jd (t : explosion_time) : M Datatypes.unit :=
  fun self => (Next tt, set_explosion_time_jd t self).
Definition logger_debug (msg : string) (extra : log_extra) : M Datatypes.unit :=
  fun self => (Next tt, log_append (mkLog DEBUG msg extra) self).
Definition logger_info (msg : string) (extra : log_extra) : M Datatypes.unit :=
  fun self => (Next tt, log_append (mkLog INFO msg extra) self).

(** ** Python operations *)

(** [res[-1]] *)
Definition getitem_last (res : list UBson) : exn + UBson :=
  match last res with
  | Some v => inr v
  | None => inl IndexError
  end.

(** [t2_res.keys()]: only a dict has the method. *)
Definition keys (t2_res : UBson) : exn + gmap string UBson :=
  match t2_res with
  | BDict d => inr d
  | _ => inl AttributeError
  end.

(** [l.remove(x)]: the first occurrence goes; [ValueError] when there is
    none. *)
Fixpoint list_remove (x : string) (l : list string) : option (list string) :=
  match l with
  | [] => None
  | y :: l' =>
      if bool_decide (y = x) then Some l'
      else match list_remove x l' with
           | Some r => Some (y :: r)
           | None => None
           end
  end.

(** [self.sncosmo_model.set(t0=self.explosion_time_jd)] *)
Definition sncosmo_model_set_t0 : M Datatypes.unit :=
  fun self =>
    match Model_set_t0 (sncosmo_model self) (explosion_time_jd self) with
    | inl e => (Raise e, self)
    | inr m => (Next tt, set_sncosmo_model m self)
    end.

(** [self.fit_params.remove(x)] *)
Definition fit_params_remove (x : string) : M Datatypes.unit :=
  fun self =>
    match list_remove x (fit_params self) with
    | None => (Raise ValueError, self)
    | Some ps => (Next tt, set_fit_params ps self)
    end.

(** ** The body of the loop over [t2_views] *)

Definition visit (t2_view : T2DocView) : M Datatypes.unit :=
  if negb (bool_decide (unit t2_view = "T2PropagateStockInfo")) then
    ret tt
  else
    logger_debug ("Parsing t2 results from " +:+ unit t2_view) NoExtra ;;
    t2_res <- match get_payload t2_view with
              | BList res => lift (getitem_last res)
              | res => ret res
              end ;;
    ks <- lift (keys t2_res) ;;
    match ks !! "explosion_time" with
    | None =>
        logger_info "No explosion time" (Extra_t2res t2_res) ;;
        py_return (UnitResult T2_MISSING_INFO)
    | Some v =>
        match v with
        | BFloat x => assign_explosion_time_jd (ExplFloat x)
        | BStr s =>
            jd <- lift (Time_jd s) ;;
            assign_explosion_time_jd (ExplFloat jd)
        | _ => ret tt
        end ;;
        t <- attr explosion_time_jd ;;
        logger_debug "reset explosion time" (Extra_explosion_time t) ;;
        sncosmo_model_set_t0 ;;
        fit_params_remove "t0"
    end.

Fixpoint for_views (t2_views : list T2DocView) : M Datatypes.unit :=
  match t2_views with
  | [] => ret tt
  | t2_view :: rest => visit t2_view ;; for_views rest
  end.

(** [self.explosion_time_jd == 'StockTriggerTime'] *)
Definition is_StockTriggerTime (t : explosion_time) : bool :=
  match t with
  | StockTriggerTime => true
  | _ => false
  end.

(** [process]: what the call gives its caller, and the instance it leaves
    behind. *)
Definition process (self : Self) (light_curve : LightCurve)
    (t2_views : list T2DocView) : (exn + T2Result) * Self :=
  match (t <- attr explosion_time_jd ;;
         if is_StockTriggerTime t then for_views t2_views else ret tt) self with
  | (Next _, self') => super_process self' light_curve t2_views
  | (Return r, self') => (inr r, self')
  | (Raise e, self') => (inl e, self')
  end.

(** The views [process] skips. *)
Definition other_unit (t2_view : T2DocView) : Prop :=
  unit t2_view <> "T2PropagateStockInfo".

(** A view of T2PropagateStockInfo whose payload, or the last element of
    whose payload list, is the dict [d]. *)
Definition carries (t2_view : T2DocView) (d : gmap string UBson) : Prop :=
  unit t2_view = "T2PropagateStockInfo"
  /\ (get_payload t2_view = BDict d
      \/ exists res, get_payload t2_view = BList (res ++ [BDict d])).

(** The Julian date [process] takes from a value found under
    [explosion_time]: a float as it is, a string through [Time]. *)
Definition reads_as (v : UBson) (jd : Q) : Prop :=
  v = BFloat jd \/ exists s, v = BStr s /\ Time_jd s = inr jd.

(** What the loop may do to the instance: the inherited attributes are
    kept, the logger grows at its end, parameters leave [fit_params], and
    [explosion_time_jd] is kept or becomes a float. *)
Definition loop_footprint (self self' : Self) : Prop :=
  inherited self' = inherited self
  /\ (exists records, logger self' = logger self ++ records)
  /\ sublist (fit_params self') (fit_params self)
  /\ (explosion_time_jd self' = explosion_time_jd self
      \/ exists jd, explosion_time_jd self' = ExplFloat jd).

End Unit.

Arguments Next {env A} a.
Arguments Return {env A} r.
Arguments Raise {env A} e.

End T2RunPossis.


(** * Example data

    A configuration close to the one the unit is run with, a two-detection
    alert that passes every statement, and collaborators that answer with
    constants: astropy accepts every position, puts it 30 degrees off the
    galactic plane and 1 arcsec from any other; [exp] answers 1; the catalog
    returns the same rows whenever it is asked. *)

Definition constant_collaborators (srcs : list gaia_src) : Collaborators :=
  {|
    coord := unit;
    SkyCoord := fun _ _ _ => inr tt;
    ra_rad := fun _ => 0%Q;
    dec_rad := fun _ => 0%Q;
    galactic_b_deg := fun _ => 30%Q;
    separation_arcsec := fun _ _ => 1%Q;
    np_exp := fun _ => 1%Q;
    cone_search := fun _ _ _ _ _ => inr srcs
  |}.

Definition example_config : InitConfig :=
  {|
    MIN_NDET := 2;
    MIN_TSPAN := 0;
    MAX_TSPAN := 5;
    MIN_RB := 3#10;
    MIN_DRB := MIN_DRB_default;
    MAX_FWHM := 11#2;
    MAX_ELONG := 14#10;
    MAX_MAGDIFF := 1;
    MAX_NBAD := 0;
    MIN_DIST_TO_SSO := 20;
    MIN_GAL_LAT := 14;
    GAIA_RS := 20;
    GAIA_PM_SIGNIF := 5;
    GAIA_PLX_SIGNIF := 3;
    GAIA_VETO_GMAG_MIN := 9;
    GAIA_VETO_GMAG_MAX := 20;
    GAIA_EXCESSNOISE_SIG_MAX := 999;
    PS1_SGVETO_RAD := 1;
    PS1_SGVETO_SGTH := 8#10;
    PS1_CONFUSION_RAD := 3;
    PS1_CONFUSION_SG_TOL := 1#10;
    t2Compute := ["SNCOSMO"]
  |}.

(** The same configuration with the deep-learning score asked for. *)
Definition example_config_drb : InitConfig :=
  {|
    MIN_NDET := 2;
    MIN_TSPAN := 0;
    MAX_TSPAN := 5;
    MIN_RB := 3#10;
    MIN_DRB := 1#2;
    MAX_FWHM := 11#2;
    MAX_ELONG := 14#10;
    MAX_MAGDIFF := 1;
    MAX_NBAD := 0;
    MIN_DIST_TO_SSO := 20;
    MIN_GAL_LAT := 14;
    GAIA_RS := 20;
    GAIA_PM_SIGNIF := 5;
    GAIA_PLX_SIGNIF := 3;
    GAIA_VETO_GMAG_MIN := 9;
    GAIA_VETO_GMAG_MAX := 20;
    GAIA_EXCESSNOISE_SIG_MAX := 999;
    PS1_SGVETO_RAD := 1;
    PS1_SGVETO_SGTH := 8#10;
    PS1_CONFUSION_RAD := 3;
    PS1_CONFUSION_SG_TOL := 1#10;
    t2Compute := ["SNCOSMO"]
  |}.

Definition example_latest : photopoint :=
  list_to_map
    [("jd", PNum 2458002); ("candid", PNum 17); ("fwhm", PNum 3); ("elong", PNum 1);
     ("magdiff", PNum 0); ("nbad", PNum 0); ("distpsnr1", PNum 2);
     ("sgscore1", PNum (1#10)); ("distpsnr2", PNum 5); ("sgscore2", PNum (1#2));
     ("distpsnr3", PNum 7); ("sgscore3", PNum (1#2)); ("isdiffpos", PStr "t");
     ("ra", PNum 10); ("dec", PNum 20); ("rb", PNum (1#2)); ("ssdistnr", PNum (-1))].

Definition example_previous : photopoint :=
  list_to_map [("jd", PNum 2458000); ("candid", PNum 16)].

Definition example_alert : AmpelAlert :=
  mkAlert [example_latest; example_previous] [].

(** Both detections taken in the same night: the history has no length. *)
Definition example_alert_short : AmpelAlert :=
  mkAlert [example_latest; <["jd" := PNum 2458002]> example_previous] [].

(** The latest detection without its real-bogus score. *)
Definition example_alert_incomplete : AmpelAlert :=
  mkAlert [delete "rb" example_latest; example_previous] [].

(** A negative subtraction. *)
Definition example_alert_negative : AmpelAlert :=
  mkAlert [<["isdiffpos" := PStr "f"]> example_latest; example_previous] [].

(** An asteroid on top of the detection. *)
Definition example_alert_sso : AmpelAlert :=
  mkAlert [<["ssdistnr" := PNum 0]> example_latest; example_previous] [].


(** A GAIA source with a proper motion of ten sigma, of magnitude 15, and
    the same source at magnitude 25, outside the window of the
    configuration. *)
Definition example_star : gaia_src :=
  {|
    RA := 0; Dec := 0; Mag_G := 15;
    PMRA := 10; ErrPMRA := 1;
    PMDec := 0; ErrPMDec := 1;
    Plx := 0; ErrPlx := 1;
    ExcessNoiseSig := 0
  |}.

Definition example_star_faint : gaia_src :=
  {|
    RA := 0; Dec := 0; Mag_G := 25;
    PMRA := 10; ErrPMRA := 1;
    PMDec := 0; ErrPMDec := 1;
    Plx := 0; ErrPlx := 1;
    ExcessNoiseSig := 0
  |}.

(** A GAIA source moving the other way: a proper motion of [-11] known to
    [2], that is 5.5 sigma. *)
Definition example_star_receding : gaia_src :=
  {|
    RA := 0; Dec := 0; Mag_G := 15;
    PMRA := -11; ErrPMRA := 2;
    PMDec := 0; ErrPMDec := 1;
    Plx := 0; ErrPlx := 1;
    ExcessNoiseSig := 0
  |}.

(** The latest detection without its identifier. *)
Definition example_alert_anonymous : AmpelAlert :=
  mkAlert [delete "candid" example_latest; example_previous] [].



(** Collaborators whose catalog service is down. *)
Definition failing_catalog : Collaborators :=
  {|
    coord := unit;
    SkyCoord := fun _ _ _ => inr tt;
    ra_rad := fun _ => 0%Q;
    dec_rad := fun _ => 0%Q;
    galactic_b_deg := fun _ => 30%Q;
    separation_arcsec := fun _ _ => 1%Q;
    np_exp := fun _ => 1%Q;
    cone_search := fun _ _ _ _ _ => inl CatalogServiceError
  |}.

(** A configuration at most as strict as [example_config] in every cut. *)
Definition example_config_loose : InitConfig :=
  {|
    MIN_NDET := 1;
    MIN_TSPAN := -1;
    MAX_TSPAN := 10;
    MIN_RB := 1#10;
    MIN_DRB := MIN_DRB_default;
    MAX_FWHM := 6;
    MAX_ELONG := 2;
    MAX_MAGDIFF := 2;
    MAX_NBAD := 0;
    MIN_DIST_TO_SSO := 10;
    MIN_GAL_LAT := 10;
    GAIA_RS := 20;
    GAIA_PM_SIGNIF := 6;
    GAIA_PLX_SIGNIF := 4;
    GAIA_VETO_GMAG_MIN := 10;
    GAIA_VETO_GMAG_MAX := 19;
    GAIA_EXCESSNOISE_SIG_MAX := 500;
    PS1_SGVETO_RAD := 1#2;
    PS1_SGVETO_SGTH := 9#10;
    PS1_CONFUSION_RAD := 2;
    PS1_CONFUSION_SG_TOL := 1#20;
    t2Compute := ["SNCOSMO"; "POSSIS"]
  |}.

(** A latest detection half an arcsecond from a PS1 source of star-galaxy
    score 0.9. *)
Definition example_ps1_star : photopoint :=
  <["distpsnr1" := PNum (1#2)]> (<["sgscore1" := PNum (9#10)]> example_latest).

(** An alert with one detection, and an alert whose photopoints carry no
    Julian date. *)
Definition example_alert_single : AmpelAlert :=
  mkAlert [example_latest] [].

Definition example_alert_undated : AmpelAlert :=
  mkAlert [delete "jd" example_latest; delete "jd" example_previous] [].

(** A third, older detection. *)
Definition example_older : photopoint :=
  list_to_map [("jd", PNum 2457999); ("candid", PNum 15)].

(** An environment for [T2RunPossis.process]: the model is the [t0] it was
    last set to and takes nothing but a float; [Time] reads one date; the
    parent class answers with an empty payload and leaves the instance as it
    finds it. *)
Definition example_environment : T2RunPossis.Environment :=
  {|
    T2RunPossis.Model := option Q;
    T2RunPossis.Inherited := unit;
    T2RunPossis.LightCurve := unit;
    T2RunPossis.T2Result := (nat + T2RunPossis.UBson)%type;
    T2RunPossis.DocumentCode := nat;
    T2RunPossis.T2_MISSING_INFO := 7%nat;
    T2RunPossis.UnitResult := inl;
    T2RunPossis.Model_set_t0 := fun _ t =>
      match t with
      | T2RunPossis.ExplFloat x => inr (Some x)
      | _ => inl (T2RunPossis.Foreign "TypeError")
      end;
    T2RunPossis.Time_jd := fun s =>
      if bool_decide (s = "2022-01-04T12:00:00") then inr 2459584%Q
      else inl T2RunPossis.ValueError;
    T2RunPossis.super_process := fun self _ _ => (inr (inr T2RunPossis.BNone), self)
  |}.

(** An instance that waits for the explosion time, and one configured with
    it. *)
Definition example_unit : T2RunPossis.T2RunPossis (option Q) unit :=
  T2RunPossis.mkUnit T2RunPossis.StockTriggerTime None ["z"; "t0"; "amplitude"] [] tt.

Definition example_unit_fixed : T2RunPossis.T2RunPossis (option Q) unit :=
  T2RunPossis.mkUnit (T2RunPossis.ExplFloat 2459584) (Some 2459584%Q)
    ["z"; "amplitude"] [] tt.

(** Views: a redshift, an explosion time as a float, as a date string in
    the last element of a list, as an integer, and a payload without one. *)
Definition example_view_redshift : T2RunPossis.T2DocView :=
  T2RunPossis.mkView "T2DigestRedshifts"
    (T2RunPossis.BDict (<["ampel_z" := T2RunPossis.BFloat (1#10)]> ∅)).

Definition example_trigger : gmap string T2RunPossis.UBson :=
  <["explosion_time" := T2RunPossis.BFloat 2459584]> ∅.

Definition example_view_trigger : T2RunPossis.T2DocView :=
  T2RunPossis.mkView "T2PropagateStockInfo" (T2RunPossis.BDict example_trigger).

Definition example_trigger_date : gmap string T2RunPossis.UBson :=
  <["explosion_time" := T2RunPossis.BStr "2022-01-04T12:00:00"]> ∅.

Definition example_view_trigger_date : T2RunPossis.T2DocView :=
  T2RunPossis.mkView "T2PropagateStockInfo"
    (T2RunPossis.BList [T2RunPossis.BNone; T2RunPossis.BDict example_trigger_date]).

Definition example_trigger_int : gmap string T2RunPossis.UBson :=
  <["explosion_time" := T2RunPossis.BInt 2459584]> ∅.

Definition example_view_trigger_int : T2RunPossis.T2DocView :=
  T2RunPossis.mkView "T2PropagateStockInfo" (T2RunPossis.BDict example_trigger_int).

Definition example_no_trigger : gmap string T2RunPossis.UBson :=
  <["trigger_id" := T2RunPossis.BStr "S200115j"]> ∅.

Definition example_view_no_trigger : T2RunPossis.T2DocView :=
  T2RunPossis.mkView "T2PropagateStockInfo" (T2RunPossis.BDict example_no_trigger).

Definition example_view_empty : T2RunPossis.T2DocView :=
  T2RunPossis.mkView "T2PropagateStockInfo" (T2RunPossis.BList []).

Definition example_view_none : T2RunPossis.T2DocView :=
  T2RunPossis.mkView "T2PropagateStockInfo" T2RunPossis.BNone.


(** * Properties *)

Section Properties.

Context {collab : Collaborators}.

(** ** Comparisons *)

Lemma Qltb_lt (x y : Q) : Qltb x y = true <-> (x < y)%Q.
Proof.
  unfold Qltb. rewrite negb_true_iff. split.
  - intros H. destruct (Qlt_le_dec x y) as [Hlt|Hle]; [exact Hlt|].
    apply Qle_bool_iff in Hle. congruence.
  - intros H. destruct (Qle_bool y x) eqn:E; [|reflexivity].
    apply Qle_bool_iff in E. exfalso. apply (Qlt_not_le _ _ H E).
Qed.

Lemma Qltb_ge (x y : Q) : Qltb x y = false <-> (y <= x)%Q.
Proof.
  unfold Qltb. rewrite negb_false_iff. apply Qle_bool_iff.
Qed.

Lemma Qleb_le (x y : Q) : Qleb x y = true <-> (x <= y)%Q.
Proof. apply Qle_bool_iff. Qed.

Lemma Qleb_gt (x y : Q) : Qleb x y = false <-> (y < x)%Q.
Proof.
  unfold Qleb. split.
  - intros H. destruct (Qlt_le_dec y x) as [Hlt|Hle]; [exact Hlt|].
    apply Qle_bool_iff in Hle. congruence.
  - intros H. destruct (Qle_bool x y) eqn:E; [|reflexivity].
    apply Qle_bool_iff in E. exfalso. apply (Qlt_not_le _ _ H E).
Qed.

Lemma Qltb_proper (x x' y y' : Q) : (x == x')%Q -> (y == y')%Q -> Qltb x y = Qltb x' y'.
Proof.
  intros Hx Hy. destruct (Qltb x' y') eqn:E.
  - apply Qltb_lt. apply Qltb_lt in E. rewrite Hx, Hy. exact E.
  - apply Qltb_ge. apply Qltb_ge in E. rewrite Hx, Hy. exact E.
Qed.

(** Python's [max] and [min] against the mathematical ones. *)

Lemma py_max2_Qmax (a b : Q) : (py_max2 a b == Qmax a b)%Q.
Proof.
  unfold py_max2. destruct (Qltb a b) eqn:E.
  - apply Qltb_lt in E. symmetry. apply Q.max_r. apply Qlt_le_weak, E.
  - apply Qltb_ge in E. symmetry. apply Q.max_l, E.
Qed.

Lemma py_min2_Qmin (a b : Q) : (py_min2 a b == Qmin a b)%Q.
Proof.
  unfold py_min2. destruct (Qltb b a) eqn:E.
  - apply Qltb_lt in E. symmetry. apply Q.min_r. apply Qlt_le_weak, E.
  - apply Qltb_ge in E. symmetry. apply Q.min_l, E.
Qed.

Lemma fold_Qmax_init (q q' : Q) (qs : list Q) :
  (q == q')%Q -> (fold_right Qmax q qs == fold_right Qmax q' qs)%Q.
Proof.
  intros H. induction qs as [|a qs IH]; simpl; [exact H|].
  rewrite IH. reflexivity.
Qed.

Lemma fold_Qmin_init (q q' : Q) (qs : list Q) :
  (q == q')%Q -> (fold_right Qmin q qs == fold_right Qmin q' qs)%Q.
Proof.
  intros H. induction qs as [|a qs IH]; simpl; [exact H|].
  rewrite IH. reflexivity.
Qed.

Lemma fold_Qmax_push (q a : Q) (qs : list Q) :
  (fold_right Qmax (Qmax q a) qs == Qmax a (fold_right Qmax q qs))%Q.
Proof.
  induction qs as [|b qs IH]; simpl.
  - apply Q.max_comm.
  - rewrite IH. rewrite !Q.max_assoc. rewrite (Q.max_comm b a). reflexivity.
Qed.

Lemma fold_Qmin_push (q a : Q) (qs : list Q) :
  (fold_right Qmin (Qmin q a) qs == Qmin a (fold_right Qmin q qs))%Q.
Proof.
  induction qs as [|b qs IH]; simpl.
  - apply Q.min_comm.
  - rewrite IH. rewrite !Q.min_assoc. rewrite (Q.min_comm b a). reflexivity.
Qed.

Lemma py_max_fold (q : Q) (qs : list Q) : (py_max q qs == fold_right Qmax q qs)%Q.
Proof.
  unfold py_max. revert q. induction qs as [|a qs IH]; intros q; simpl.
  - reflexivity.
  - rewrite IH. rewrite (fold_Qmax_init _ _ qs (py_max2_Qmax q a)).
    apply fold_Qmax_push.
Qed.

Lemma py_min_fold (q : Q) (qs : list Q) : (py_min q qs == fold_right Qmin q qs)%Q.
Proof.
  unfold py_min. revert q. induction qs as [|a qs IH]; intros q; simpl.
  - reflexivity.
  - rewrite IH. rewrite (fold_Qmin_init _ _ qs (py_min2_Qmin q a)).
    apply fold_Qmin_push.
Qed.

(** ** binary64 *)

(** [round64] depends on the value of its argument only. *)
Lemma round64_Qeq (x y : Q) : (x == y)%Q -> round64 x = round64 y.
Proof. intros H. unfold round64. rewrite (Qred_complete x y H). reflexivity. Qed.

Lemma round64_0 : round64 0 = 0%Q.
Proof. reflexivity. Qed.

(** Rounding is to a nearest number: an integer at most one half away, a
    float at most half the distance between the floats around. *)
Lemma round_half_even_near (q : Q) :
  (Qabs (inject_Z (round_half_even q) - q) <= 1#2)%Q.
Proof.
  destruct q as [n d]. apply Qabs_Qle_condition.
  unfold round_half_even. cbn [Qnum Qden].
  pose proof (Z.div_mod n (Zpos d) ltac:(discriminate)) as Hdm.
  pose proof (Z.mod_pos_bound n (Zpos d) ltac:(reflexivity)) as Hb.
  set (a := (n / Zpos d)%Z) in *. set (b := (n mod Zpos d)%Z) in *.
  assert (Hc : forall z : Z,
             (2 * (z * Zpos d - n) <= Zpos d)%Z -> (- Zpos d <= 2 * (z * Zpos d - n))%Z ->
             (- (1#2) <= inject_Z z - (n # d) <= 1#2)%Q).
  { intros z H1 H2. unfold Qle, Qminus, Qplus, Qopp, inject_Z. cbn [Qnum Qden].
    split; lia. }
  destruct (2 * b ?= Zpos d)%Z eqn:E.
  - apply Z.compare_eq in E. destruct (Z.even a); apply Hc; nia.
  - rewrite Z.compare_lt_iff in E. apply Hc; nia.
  - rewrite Z.compare_gt_iff in E. apply Hc; nia.
Qed.

Lemma pow2_pos (e : Z) : (0 < pow2 e)%Q.
Proof.
  unfold pow2. destruct (0 <=? e)%Z eqn:E.
  - apply Z.leb_le in E. unfold Qlt, inject_Z. cbn [Qnum Qden].
    pose proof (Z.pow_pos_nonneg 2 e ltac:(lia) E). lia.
  - apply Z.leb_gt in E. apply Qinv_lt_0_compat.
    unfold Qlt, inject_Z. cbn [Qnum Qden].
    pose proof (Z.pow_pos_nonneg 2 (- e) ltac:(lia) ltac:(lia)). lia.
Qed.

Lemma round64_near (q : Q) :
  (Qabs (round64 q - q) <= ulp64 (Qred q) * (1#2))%Q.
Proof.
  unfold round64. cbv zeta.
  pose proof (pow2_pos (Z.max (Qlog2 (Qabs (Qred q))) (-1022) - 52)) as Hu.
  fold (ulp64 (Qred q)) in Hu.
  destruct (Qeq_bool (Qred q) 0) eqn:E.
  - apply Qeq_bool_iff in E. rewrite (Qred_correct q) in E.
    assert (Hz : (0 - q == 0)%Q) by (rewrite E; reflexivity).
    rewrite Hz. change (Qabs 0) with 0%Q.
    apply Qmult_le_0_compat; [apply Qlt_le_weak, Hu|discriminate].
  - set (u := ulp64 (Qred q)) in *.
    rewrite Qred_correct.
    assert (Hr : forall z : Q, (z * u - q == (z - Qred q / u) * u)%Q).
    { intros z. transitivity (z * u - Qred q)%Q.
      - rewrite (Qred_correct q). reflexivity.
      - field. intros H. rewrite H in Hu. discriminate Hu. }
    rewrite Hr, Qabs_Qmult, (Qabs_pos u) by (apply Qlt_le_weak, Hu).
    rewrite (Qmult_comm u). apply Qmult_le_compat_r; [|apply Qlt_le_weak, Hu].
    apply round_half_even_near.
Qed.

(** The literals of the source, and a few results that are not the exact
    ones: [0.1 - 0.5] is [-0.4]; [5.500000000000001 / 1.1] is [5.0];
    [2.5] and [3.5] rounded to integers are 2 and 4. *)
Lemma round64_values :
  round64 (1#10) = (3602879701896397 # 36028797018963968)%Q
  /\ round64 (4#10) = (3602879701896397 # 9007199254740992)%Q
  /\ round64 (9#5) = (8106479329266893 # 4503599627370496)%Q
  /\ round64 (3#5) = (5404319552844595 # 9007199254740992)%Q
  /\ round64 (41#20) = (2308094809027379 # 1125899906842624)%Q
  /\ round64 (1#2) = (1#2)%Q
  /\ round64 (-(3#4)) = (-(3#4))%Q
  /\ float_sub (round64 (1#10)) (1#2) = (- round64 (4#10))%Q
  /\ float_div (round64 (5500000000000001 # 1000000000000000)) (round64 (11#10)) = 5%Q
  /\ float_add 9007199254740992 1 = 9007199254740992%Q
  /\ float_mul (round64 (1#10)) 3 = (1351079888211149 # 4503599627370496)%Q
  /\ round_half_even (5#2) = 2%Z /\ round_half_even (7#2) = 4%Z
  /\ round_half_even (-(5#2)) = (-2)%Z.
Proof. vm_compute. repeat split. Qed.

(** [abs(x / err) > t] on float64 columns. *)
Lemma np_gt_abs_div (x err t : Q) :
  np_gt (np_abs (np_div x err)) t = ratio_exceeds x err t.
Proof.
  unfold np_div, ratio_exceeds, float_div.
  destruct (Qeq_bool err 0); [|reflexivity].
  destruct (Qeq_bool x 0); [reflexivity|].
  destruct (Qltb x 0); reflexivity.
Qed.

Lemma ratio_exceeds_significant (x err t : Q) :
  ratio_exceeds x err t = true <-> significant x err t.
Proof.
  unfold ratio_exceeds, significant.
  destruct (Qeq_bool err 0) eqn:Ee.
  - apply Qeq_bool_iff in Ee. destruct (Qeq_bool x 0) eqn:Ex; cbn [negb].
    + apply Qeq_bool_iff in Ex. split; [discriminate|].
      intros [[Hn _]|[_ Hn]]; [destruct (Hn Ee)|destruct (Hn Ex)].
    + apply Qeq_bool_neq in Ex. split; [|reflexivity].
      intros _. right. split; assumption.
  - apply Qeq_bool_neq in Ee. rewrite Qltb_lt. split.
    + intros H. left. split; assumption.
    + intros [[_ H]|[H _]]; [exact H|destruct (Ee H)].
Qed.

(** ** Running the statements symbolically *)

Ltac norm :=
  cbv [bind ret raise py_return attr getitem num lift logger_info logger_debug];
  cbn [vary on_match_t2_units logger min_ndet min_tspan max_tspan max_fwhm
       max_elong max_magdiff max_nbad min_rb min_drb min_ssdistnr min_gal_lat
       gaia_rs gaia_pm_signif gaia_plx_signif gaia_veto_gmag_min
       gaia_veto_gmag_max gaia_excessnoise_sig_max ps1_sgveto_rad
       ps1_sgveto_th ps1_confusion_rad ps1_confusion_sg_tol catshtm
       keys_to_check].

Ltac exec_step :=
  match goal with
  | |- context [match ?d !! ?k with _ => _ end] => destruct (d !! k) eqn:?
  | |- context [match as_num ?v with _ => _ end] => destruct (as_num v) eqn:?
  | |- context [match SkyCoord ?u ?x ?y with _ => _ end] =>
      destruct (SkyCoord u x y) eqn:?
  | |- context [if ?b then _ else _] => destruct b eqn:?
  end.

Ltac exec := norm; repeat (exec_step; norm).

Ltac settle_gate :=
  first [ by exists Pass | by eexists (Fail _) | by eexists (Error _) ].

(** A freshly built instance is [state c lg 0]. *)
Lemma init_state (c : InitConfig) (lg : list log_record) :
  init lg (Some c) = inr (state c lg 0).
Proof. reflexivity. Qed.

Lemma vary_same (self : DecentFilter) :
  vary (logger self) (catshtm self) (max_nbad self) self = self.
Proof. destruct self; reflexivity. Qed.

(** A gate, run on any instance. *)
Lemma is_gate_run (c : M unit) (self : DecentFilter) :
  is_gate c -> exists v, c self = settle v self.
Proof.
  intros Hc. destruct (Hc self) as [v Hv]. exists v.
  specialize (Hv (logger self) (catshtm self) (max_nbad self)).
  rewrite vary_same in Hv. exact Hv.
Qed.

Lemma is_gate_passes (c : M unit) (self : DecentFilter) :
  is_gate c -> passes c self -> c self = (Next tt, self).
Proof.
  intros Hc Hp. destruct (is_gate_run c self Hc) as [v Hv].
  unfold passes in Hp. rewrite Hv in *. destruct v; simpl in *; congruence.
Qed.

Lemma is_gate_seq (c k : M unit) : is_gate c -> is_gate k -> is_gate (c ;; k).
Proof.
  intros Hc Hk self. destruct (Hc self) as [v Hv]. destruct (Hk self) as [w Hw].
  destruct v as [|r|e].
  - exists w. intros lg n nb. unfold bind. rewrite Hv. simpl. apply Hw.
  - exists (Fail r). intros lg n nb. unfold bind. rewrite Hv. reflexivity.
  - exists (Error e). intros lg n nb. unfold bind. rewrite Hv. reflexivity.
Qed.

Lemma is_gate_ret : is_gate (ret tt).
Proof. intros self. by exists Pass. Qed.

Lemma is_gate_seq_steps (cs : list (M unit)) :
  Forall is_gate cs -> is_gate (seq_steps cs).
Proof.
  induction 1 as [|c cs Hc _ IH]; simpl.
  - apply is_gate_ret.
  - apply is_gate_seq; assumption.
Qed.

(** *** The statements before the catalog search are gates *)

Lemma alert_has_keys_loop_run (keys : list string) (photop : photopoint) :
  (forall self, alert_has_keys_loop keys photop self = (Next true, self))
  \/ (exists r, log_level r = INFO /\ In (log_key r) ["missing"; "isNone"]
                /\ forall self, alert_has_keys_loop keys photop self
                                = (Next false, log_append r self)).
Proof.
  induction keys as [|el keys IH]; simpl.
  - left. reflexivity.
  - destruct (photop !! el) as [[| | |]|] eqn:E; try exact IH.
    + right. exists (mkLog INFO None "isNone" (PStr el)). simpl. auto.
    + right. exists (mkLog INFO None "missing" (PStr el)). simpl. auto.
Qed.

Lemma cut_keys_gate latest : is_gate (cut_keys latest).
Proof.
  intros self. unfold cut_keys, _alert_has_keys. norm.
  destruct (alert_has_keys_loop_run (keys_to_check self) latest) as [H|(r & _ & _ & H)].
  - exists Pass. intros. rewrite H. reflexivity.
  - exists (Fail r). intros. rewrite H. reflexivity.
Qed.

Lemma cut_ndet_gate alert : is_gate (cut_ndet alert).
Proof. intros self. unfold cut_ndet. exec; settle_gate. Qed.

Lemma cut_tspan_gate alert : is_gate (cut_tspan alert).
Proof.
  intros self. unfold cut_tspan, max_minus_min.
  destruct (get_values alert "jd") as [|v vs]; [exec; settle_gate|].
  destruct (all_num (v :: vs)) as [[|q qs]|]; exec; settle_gate.
Qed.

Lemma cut_isdiffpos_gate latest : is_gate (cut_isdiffpos latest).
Proof. intros self. unfold cut_isdiffpos. exec; settle_gate. Qed.

Lemma cut_rb_gate latest : is_gate (cut_rb latest).
Proof. intros self. unfold cut_rb. exec; settle_gate. Qed.

Lemma cut_drb_gate latest : is_gate (cut_drb latest).
Proof. intros self. unfold cut_drb. exec; settle_gate. Qed.

Lemma cut_fwhm_gate latest : is_gate (cut_fwhm latest).
Proof. intros self. unfold cut_fwhm. exec; settle_gate. Qed.

Lemma cut_elong_gate latest : is_gate (cut_elong latest).
Proof. intros self. unfold cut_elong. exec; settle_gate. Qed.

Lemma cut_magdiff_gate latest : is_gate (cut_magdiff latest).
Proof. intros self. unfold cut_magdiff. exec; settle_gate. Qed.

Lemma cut_ssdistnr_gate latest : is_gate (cut_ssdistnr latest).
Proof. intros self. unfold cut_ssdistnr. exec; settle_gate. Qed.

Lemma cut_gal_lat_gate latest : is_gate (cut_gal_lat latest).
Proof.
  intros self. unfold cut_gal_lat, get_galactic_latitude, transient_SkyCoord.
  exec; settle_gate.
Qed.

Lemma cut_star_in_PS1_gate latest : is_gate (cut_star_in_PS1 latest).
Proof. intros self. unfold cut_star_in_PS1, is_star_in_PS1. exec; settle_gate. Qed.

Lemma cut_confused_in_PS1_gate latest : is_gate (cut_confused_in_PS1 latest).
Proof.
  intros self. unfold cut_confused_in_PS1, is_confused_in_PS1. exec; settle_gate.
Qed.

(** The thirteen statements that come before the catalog search. *)
Lemma local_gates alert latest : Forall is_gate (take 13 (gates alert latest)).
Proof.
  cbn [take gates].
  repeat constructor;
    auto using cut_ndet_gate, cut_tspan_gate, cut_keys_gate, cut_isdiffpos_gate,
      cut_rb_gate, cut_drb_gate, cut_fwhm_gate, cut_elong_gate, cut_magdiff_gate,
      cut_ssdistnr_gate, cut_gal_lat_gate, cut_star_in_PS1_gate,
      cut_confused_in_PS1_gate.
Qed.

(** *** The catalog search and the acceptance *)

(** Two instances that differ in logger, client and [max_nbad] finish
    [apply] alike from the catalog search on, when the service gives both
    the same answer. *)
Lemma tail_vary latest self lg n nb lg' n' nb' :
  (forall ra dec rs,
      cone_search n "GAIADR2" ra dec rs = cone_search n' "GAIADR2" ra dec rs) ->
  exists out recs d,
    (cut_star_in_gaia latest ;; accept latest) (vary lg n nb self)
    = (out, vary (lg ++ recs) (d + n) nb self)
    /\ (cut_star_in_gaia latest ;; accept latest) (vary lg' n' nb' self)
       = (out, vary (lg' ++ recs) (d + n') nb' self).
Proof.
  intros Hcat.
  unfold cut_star_in_gaia, accept, is_star_in_gaia, transient_SkyCoord,
    catshtm_cone_search.
  norm.
  destruct (latest !! "ra") as [ra|]; norm;
    [|eexists _, [], 0%nat; rewrite !app_nil_r; split; reflexivity].
  destruct (latest !! "dec") as [dec|]; norm;
    [|eexists _, [], 0%nat; rewrite !app_nil_r; split; reflexivity].
  destruct (SkyCoord deg ra dec) as [e|tc]; norm;
    [eexists _, [], 0%nat; rewrite !app_nil_r; split; reflexivity|].
  rewrite <- Hcat.
  destruct (cone_search n "GAIADR2" (ra_rad tc) (dec_rad tc) (gaia_rs self))
    as [e|srcs]; norm;
    [eexists _, [], 1%nat; rewrite !app_nil_r; split; reflexivity|].
  destruct (0 <? length srcs)%nat; norm.
  - destruct (gaia_SkyCoord srcs) as [e|wc]; norm;
      [eexists _, [], 1%nat; rewrite !app_nil_r; split; reflexivity|].
    change (gaia_any_flag (set_catshtm (S n) (vary lg n nb self)) tc wc)
      with (gaia_any_flag self tc wc).
    change (gaia_any_flag (set_catshtm (S n') (vary lg' n' nb' self)) tc wc)
      with (gaia_any_flag self tc wc).
    destruct (gaia_any_flag self tc wc); norm.
    + eexists _, [_], 1%nat. split; reflexivity.
    + destruct (latest !! "candid"); norm.
      * eexists _, [_], 1%nat. split; reflexivity.
      * eexists _, [], 1%nat. rewrite !app_nil_r. split; reflexivity.
  - destruct (latest !! "candid"); norm.
    + eexists _, [_], 1%nat. split; reflexivity.
    + eexists _, [], 1%nat. rewrite !app_nil_r. split; reflexivity.
Qed.

(** *** The body of [apply] as thirteen gates, the search, the acceptance *)

Ltac run_head :=
  match goal with
  | |- context [let (_, _) := ?c ?s in _] =>
      match type of s with
      | DecentFilter => destruct (c s) as [[[]|?|?] ?]; try reflexivity
      end
  end.

Lemma apply_body_gates alert latest rest self :
  pps alert = latest :: rest ->
  apply_body alert self
  = (seq_steps (take 13 (gates alert latest)) ;;
     (cut_star_in_gaia latest ;; accept latest)) self.
Proof.
  intros Hpps. unfold apply_body, pps_0. rewrite Hpps.
  cbn [take gates seq_steps fold_right].
  cbv [bind ret].
  do 13 run_head.
Qed.

Lemma apply_body_nil alert self :
  pps alert = [] ->
  apply_body alert self = (cut_ndet alert ;; raise ValueError) self.
Proof.
  intros Hpps. unfold apply_body, cut_tspan, get_values. rewrite Hpps.
  cbv [bind]. destruct (cut_ndet alert self) as [[[]|?|?] ?]; reflexivity.
Qed.

(** The whole body on two instances that differ in logger, client and
    [max_nbad]. *)
Lemma apply_body_vary alert self lg n nb lg' n' nb' :
  (forall ra dec rs,
      cone_search n "GAIADR2" ra dec rs = cone_search n' "GAIADR2" ra dec rs) ->
  exists out recs d,
    apply_body alert (vary lg n nb self) = (out, vary (lg ++ recs) (d + n) nb self)
    /\ apply_body alert (vary lg' n' nb' self)
       = (out, vary (lg' ++ recs) (d + n') nb' self).
Proof.
  intros Hcat. destruct (pps alert) as [|latest rest] eqn:Hpps.
  - rewrite !(apply_body_nil _ _ Hpps). unfold bind.
    destruct (cut_ndet_gate alert self) as [v Hv]. rewrite !Hv.
    destruct v as [|r|e]; simpl.
    + eexists _, [], 0%nat. rewrite !app_nil_r. split; reflexivity.
    + eexists _, [r], 0%nat. split; reflexivity.
    + eexists _, [], 0%nat. rewrite !app_nil_r. split; reflexivity.
  - rewrite !(apply_body_gates _ _ _ _ Hpps).
    destruct (is_gate_seq_steps _ (local_gates alert latest) self) as [v Hv].
    unfold bind at 1 3. rewrite !Hv.
    destruct v as [|r|e]; simpl.
    + apply tail_vary, Hcat.
    + eexists _, [r], 0%nat. split; reflexivity.
    + eexists _, [], 0%nat. rewrite !app_nil_r. split; reflexivity.
Qed.

Lemma apply_vary alert self lg n nb lg' n' nb' :
  (forall ra dec rs,
      cone_search n "GAIADR2" ra dec rs = cone_search n' "GAIADR2" ra dec rs) ->
  exists res recs d,
    apply (vary lg n nb self) alert = (res, vary (lg ++ recs) (d + n) nb self)
    /\ apply (vary lg' n' nb' self) alert = (res, vary (lg' ++ recs) (d + n') nb' self).
Proof.
  intros Hcat.
  destruct (apply_body_vary alert self lg n nb lg' n' nb' Hcat)
    as (out & recs & d & H1 & H2).
  unfold apply. rewrite H1, H2.
  destruct out; eexists _, recs, d; split; reflexivity.
Qed.

(** C8. [apply] is deterministic.  Call it, then call it again on the
    instance the first call left behind, with the same alert: if the
    catalog service answers the cone search of the second call as it
    answered that of the first, the second call gives the same result as
    the first (the same value returned, or the same exception), and emits
    the same log records.  Nothing the first call changes in the instance
    can change the outcome. *)
Theorem apply_deterministic (self : DecentFilter) (alert : AmpelAlert) :
  (forall ra dec rs,
      cone_search (catshtm (snd (apply self alert))) "GAIADR2" ra dec rs
      = cone_search (catshtm self) "GAIADR2" ra dec rs) ->
  fst (apply (snd (apply self alert)) alert) = fst (apply self alert)
  /\ exists recs,
       logger (snd (apply self alert)) = logger self ++ recs
       /\ logger (snd (apply (snd (apply self alert)) alert))
          = logger (snd (apply self alert)) ++ recs.
Proof.
  intros Hcat.
  destruct (apply_vary alert self (logger self) (catshtm self) (max_nbad self)
              (logger self) (catshtm self) (max_nbad self) (fun _ _ _ => eq_refl))
    as (res & recs & d & H1 & _).
  rewrite vary_same in H1. rewrite H1 in *. cbn [fst snd] in *.
  cbn [vary catshtm] in Hcat.
  destruct (apply_vary alert self (logger self) (catshtm self) (max_nbad self)
              (logger self ++ recs) (d + catshtm self)%nat (max_nbad self))
    as (res' & recs' & d' & H1' & H2').
  { intros. symmetry. apply Hcat. }
  rewrite vary_same in H1'. rewrite H1 in H1'.
  pose proof (f_equal fst H1') as Hr.
  pose proof (f_equal (fun x => logger (snd x)) H1') as Hl.
  cbn [fst snd vary logger] in Hr, Hl.
  apply app_inv_head in Hl. subst res' recs'.
  rewrite H2'. cbn [fst snd vary logger]. split; [reflexivity|].
  exists recs. split; reflexivity.
Qed.

(** ** Alerts that differ in one field of the latest detection *)

Lemma seq_steps_agree (cs1 cs2 : list (M unit)) (k1 k2 : M unit) self :
  Forall is_gate cs1 ->
  Forall2 (fun c1 c2 => c1 self = c2 self) cs1 cs2 ->
  k1 self = k2 self ->
  (seq_steps cs1 ;; k1) self = (seq_steps cs2 ;; k2) self.
Proof.
  intros Hg H2 Hk. induction H2 as [|c1 c2 cs1 cs2 Hc _ IH]; simpl.
  - exact Hk.
  - inversion Hg as [|? ? Hc1 Hcs1]; subst.
    specialize (IH Hcs1). unfold bind in *. rewrite <- Hc.
    destruct (is_gate_run c1 self Hc1) as [v Hv]. rewrite Hv.
    destruct v; simpl; [exact IH|reflexivity..].
Qed.

Lemma apply_agree self l1 l2 rest u :
  Forall2 (fun c1 c2 => c1 self = c2 self)
    (take 13 (gates (mkAlert (l1 :: rest) u) l1))
    (take 13 (gates (mkAlert (l2 :: rest) u) l2)) ->
  (cut_star_in_gaia l1 ;; accept l1) self = (cut_star_in_gaia l2 ;; accept l2) self ->
  apply self (mkAlert (l1 :: rest) u) = apply self (mkAlert (l2 :: rest) u).
Proof.
  intros H2 Hk. unfold apply.
  rewrite (apply_body_gates (mkAlert (l1 :: rest) u) l1 rest self eq_refl).
  rewrite (apply_body_gates (mkAlert (l2 :: rest) u) l2 rest self eq_refl).
  rewrite (seq_steps_agree _ _ _ _ self (local_gates _ _) H2 Hk).
  reflexivity.
Qed.

(** [_alert_has_keys] looks at a field only to see whether it is there and
    not [None]. *)
Lemma alert_has_keys_loop_agree (keys : list string) (l1 l2 : photopoint) self :
  (forall k, In k keys ->
     l1 !! k = l2 !! k \/ (field_non_null l1 k = true /\ field_non_null l2 k = true)) ->
  alert_has_keys_loop keys l1 self = alert_has_keys_loop keys l2 self.
Proof.
  induction keys as [|el keys IH]; intros H; simpl; [reflexivity|].
  destruct (H el (or_introl eq_refl)) as [E|[E1 E2]].
  - rewrite E. destruct (l2 !! el) as [[| | |]|]; try reflexivity;
      apply IH; intros k Hk; apply H; right; exact Hk.
  - unfold field_non_null in E1, E2.
    destruct (l1 !! el) as [[| | |]|]; try discriminate;
      destruct (l2 !! el) as [[| | |]|]; try discriminate;
      apply IH; intros k Hk; apply H; right; exact Hk.
Qed.

(** Two latest detections that agree on every field but [k0], where [k0]
    is none of the fields a statement after [_alert_has_keys] reads
    ([drb] apart), go through those statements alike. *)
Lemma gates_agree_off_key (k0 : string) self l1 l2 rest u :
  (forall k, k <> k0 -> l1 !! k = l2 !! k) ->
  ~ In k0 ["jd"; "isdiffpos"; "rb"; "fwhm"; "elong"; "magdiff"; "ssdistnr"; "ra";
           "dec"; "distpsnr1"; "distpsnr2"; "distpsnr3"; "sgscore1"; "sgscore2";
           "sgscore3"; "candid"] ->
  cut_keys l1 self = cut_keys l2 self ->
  cut_drb l1 self = cut_drb l2 self ->
  apply self (mkAlert (l1 :: rest) u) = apply self (mkAlert (l2 :: rest) u).
Proof.
  intros H Hk0 Hkeys Hdrb.
  assert (Hne : forall k, In k ["jd"; "isdiffpos"; "rb"; "fwhm"; "elong"; "magdiff";
           "ssdistnr"; "ra"; "dec"; "distpsnr1"; "distpsnr2"; "distpsnr3";
           "sgscore1"; "sgscore2"; "sgscore3"; "candid"] -> l1 !! k = l2 !! k).
  { intros k Hk. apply H. intros ->. exact (Hk0 Hk). }
  apply apply_agree.
  - cbn [take gates].
    repeat apply List.Forall2_cons; try apply List.Forall2_nil;
      try exact Hkeys; try exact Hdrb.
    + reflexivity.
    + unfold cut_tspan, get_values. cbn [pps omap list_omap].
      rewrite (Hne "jd") by (simpl; tauto). reflexivity.
    + unfold cut_isdiffpos, getitem. rewrite (Hne "isdiffpos") by (simpl; tauto).
      reflexivity.
    + unfold cut_rb, getitem. rewrite (Hne "rb") by (simpl; tauto). reflexivity.
    + unfold cut_fwhm, getitem. rewrite (Hne "fwhm") by (simpl; tauto). reflexivity.
    + unfold cut_elong, getitem. rewrite (Hne "elong") by (simpl; tauto). reflexivity.
    + unfold cut_magdiff, getitem. rewrite (Hne "magdiff") by (simpl; tauto).
      reflexivity.
    + unfold cut_ssdistnr, getitem. rewrite (Hne "ssdistnr") by (simpl; tauto).
      reflexivity.
    + unfold cut_gal_lat, get_galactic_latitude, transient_SkyCoord, getitem.
      rewrite (Hne "ra"), (Hne "dec") by (simpl; tauto). reflexivity.
    + unfold cut_star_in_PS1, is_star_in_PS1, getitem.
      rewrite (Hne "distpsnr1"), (Hne "sgscore1") by (simpl; tauto). reflexivity.
    + unfold cut_confused_in_PS1, is_confused_in_PS1, getitem.
      rewrite (Hne "distpsnr1"), (Hne "distpsnr2"), (Hne "distpsnr3"),
        (Hne "sgscore1"), (Hne "sgscore2"), (Hne "sgscore3") by (simpl; tauto).
      reflexivity.
  - unfold cut_star_in_gaia, is_star_in_gaia, accept, transient_SkyCoord, getitem.
    rewrite (Hne "ra"), (Hne "dec"), (Hne "candid") by (simpl; tauto). reflexivity.
Qed.

(** C9. The bad-pixel count does not interfere.  Take any configuration
    and two alerts that differ only in the [nbad] value of the latest
    detection, there and not null in both; let the second run moreover
    under another [MAX_NBAD].  Both calls of [apply] give the same result
    and log the same records: no statement compares [nbad] with
    [max_nbad]. *)
Theorem nbad_noninterference (c : InitConfig) (lg : list log_record) (n : nat)
    (nb' : Z) (latest : photopoint) (rest u : list photopoint) (v v' : pyval) :
  latest !! "nbad" = Some v -> v <> PNone -> v' <> PNone ->
  fst (apply (state (set_MAX_NBAD nb' c) lg n)
         (mkAlert (<["nbad" := v']> latest :: rest) u))
  = fst (apply (state c lg n) (mkAlert (latest :: rest) u))
  /\ logger (snd (apply (state (set_MAX_NBAD nb' c) lg n)
                   (mkAlert (<["nbad" := v']> latest :: rest) u)))
     = logger (snd (apply (state c lg n) (mkAlert (latest :: rest) u))).
Proof.
  intros Hv Hnn Hnn'.
  assert (Hoff : forall k, k <> "nbad" -> <["nbad" := v']> latest !! k = latest !! k).
  { intros k Hk. apply lookup_insert_ne. intros E. apply Hk. symmetry. exact E. }
  assert (Hal : forall self,
             apply self (mkAlert (<["nbad" := v']> latest :: rest) u)
             = apply self (mkAlert (latest :: rest) u)).
  { intros self. apply (gates_agree_off_key "nbad"); [exact Hoff| | |].
    - simpl. intuition discriminate.
    - unfold cut_keys, _alert_has_keys, bind, attr.
      rewrite (alert_has_keys_loop_agree _ (<["nbad" := v']> latest) latest); [reflexivity|].
      intros k _. destruct (decide (k = "nbad")) as [->|Hk].
      + right. unfold field_non_null. rewrite lookup_insert_eq, Hv.
        destruct v, v'; try (exfalso; congruence); split; reflexivity.
      + left. apply Hoff, Hk.
    - unfold cut_drb, getitem. rewrite Hoff by discriminate. reflexivity. }
  rewrite Hal.
  destruct (apply_vary (mkAlert (latest :: rest) u) (state c lg n) lg n nb'
              lg n (MAX_NBAD c) (fun _ _ _ => eq_refl))
    as (res & recs & d & H1 & H2).
  change (vary lg n nb' (state c lg n)) with (state (set_MAX_NBAD nb' c) lg n) in H1.
  change (vary lg n (MAX_NBAD c) (state c lg n)) with (state c lg n) in H2.
  rewrite H1, H2. split; reflexivity.
Qed.

(** C7. With [MIN_DRB = 0] (the default) the deep-real-bogus statement
    lets every alert through, and [apply] does not read [drb]: on two
    alerts whose latest detections agree on every field but [drb] (absent
    in one, null, zero or anything else in the other) it gives the same
    result and leaves the same instance behind. *)
Theorem drb_gate_disabled (c : InitConfig) (lg : list log_record) (n : nat)
    (l1 l2 : photopoint) (rest u : list photopoint) :
  (MIN_DRB c == MIN_DRB_default)%Q ->
  (forall k, k <> "drb" -> l1 !! k = l2 !! k) ->
  cut_drb l1 (state c lg n) = (Next tt, state c lg n)
  /\ apply (state c lg n) (mkAlert (l1 :: rest) u)
     = apply (state c lg n) (mkAlert (l2 :: rest) u).
Proof.
  intros Hdrb Hoff.
  assert (Hoffb : Qltb 0 (MIN_DRB c) = false).
  { apply Qltb_ge. rewrite Hdrb. unfold MIN_DRB_default. apply Qle_refl. }
  assert (Hpass : forall l, cut_drb l (state c lg n) = (Next tt, state c lg n)).
  { intros l. unfold cut_drb. norm. cbn [state set_catshtm new_filter min_drb].
    rewrite Hoffb. reflexivity. }
  split; [apply Hpass|].
  apply (gates_agree_off_key "drb"); [exact Hoff| | |].
  - simpl. intuition discriminate.
  - unfold cut_keys, _alert_has_keys, bind, attr.
    rewrite (alert_has_keys_loop_agree _ l1 l2); [reflexivity|].
    intros k Hk. left. apply Hoff. intros ->.
    cbn in Hk. intuition discriminate.
  - rewrite !Hpass. reflexivity.
Qed.

(** ** Where a run of [apply] stops *)

Lemma seq_steps_pass (cs : list (M unit)) (k : M unit) self :
  Forall is_gate cs -> Forall (fun g => passes g self) cs ->
  (seq_steps cs ;; k) self = k self.
Proof.
  intros Hg Hp. induction cs as [|c cs IH]; simpl.
  - reflexivity.
  - inversion Hg; subst. inversion Hp; subst.
    unfold bind in *. rewrite (is_gate_passes c self) by assumption.
    apply IH; assumption.
Qed.

(** The gates before the [i]-th pass, the [i]-th does not: its outcome is
    that of the sequence. *)
Lemma seq_steps_stop (cs : list (M unit)) (i : nat) (c k : M unit) self :
  Forall is_gate cs -> cs !! i = Some c ->
  Forall (fun g => passes g self) (take i cs) ->
  (forall r s', c self = (Return r, s') -> (seq_steps cs ;; k) self = (Return r, s'))
  /\ (forall e s', c self = (Raise e, s') -> (seq_steps cs ;; k) self = (Raise e, s')).
Proof.
  intros Hg. revert i. induction cs as [|c0 cs IH]; intros i Hi Hp.
  - discriminate.
  - inversion Hg as [|? ? Hc0 Hcs]; subst. destruct i as [|i].
    + injection Hi as ->. simpl. unfold bind.
      split; intros ? ? ->; reflexivity.
    + cbn [take] in Hp. inversion Hp as [|? ? Hp0 Hps]; subst.
      simpl in Hi. destruct (IH Hcs i Hi Hps) as [IH1 IH2].
      simpl. unfold bind in *. rewrite (is_gate_passes c0 self Hc0 Hp0).
      split; assumption.
Qed.

Lemma apply_stops_at alert latest rest self (i : nat) (c : M unit) :
  pps alert = latest :: rest ->
  take 13 (gates alert latest) !! i = Some c ->
  Forall (fun g => passes g self) (take i (gates alert latest)) ->
  (forall r s', c self = (Return r, s') -> apply self alert = (Returned r, s'))
  /\ (forall e s', c self = (Raise e, s') -> apply self alert = (Raised e, s')).
Proof.
  intros Hpps Hi Hp.
  assert (Hlt : (i < 13)%nat).
  { apply lookup_lt_Some in Hi. rewrite length_take in Hi. lia. }
  assert (Hp' : Forall (fun g => passes g self) (take i (take 13 (gates alert latest)))).
  { rewrite take_take. replace (i `min` 13)%nat with i by lia. exact Hp. }
  destruct (seq_steps_stop _ i c (cut_star_in_gaia latest ;; accept latest) self
              (local_gates alert latest) Hi Hp') as [H1 H2].
  unfold apply. rewrite (apply_body_gates _ _ _ _ Hpps).
  split; intros ? ? Hc.
  - rewrite (H1 _ _ Hc). reflexivity.
  - rewrite (H2 _ _ Hc). reflexivity.
Qed.

(** All thirteen local gates pass: [apply] is the catalog search and the
    acceptance. *)
Lemma apply_reaches_gaia alert latest rest self :
  pps alert = latest :: rest ->
  Forall (fun g => passes g self) (take 13 (gates alert latest)) ->
  apply_body alert self = (cut_star_in_gaia latest ;; accept latest) self.
Proof.
  intros Hpps Hp. rewrite (apply_body_gates _ _ _ _ Hpps).
  apply seq_steps_pass; [apply local_gates|exact Hp].
Qed.

(** ** The local catalog: confusion *)

Lemma number_at_getitem (d : photopoint) (k : string) (q : Q) :
  number_at d k = Some q ->
  exists v, d !! k = Some v /\ as_num v = Some q.
Proof.
  unfold number_at. destruct (d !! k) as [v|]; [|discriminate]. eauto.
Qed.

Lemma py_max3_lt (a b c t : Q) :
  Qltb (py_max a [b; c]) t = true <-> (a < t /\ b < t /\ c < t)%Q.
Proof.
  rewrite Qltb_lt. rewrite py_max_fold. cbn [fold_right].
  rewrite !Q.max_lub_lt_iff. tauto.
Qed.

Lemma py_max3_Qmax (a b c : Q) : (py_max a [b; c] == Qmax (Qmax a b) c)%Q.
Proof.
  rewrite py_max_fold. cbn [fold_right].
  rewrite (Q.max_comm c a). rewrite Q.max_assoc. rewrite (Q.max_comm b a).
  reflexivity.
Qed.



(** ** Solar-system objects *)

Lemma cut_ssdistnr_run self latest v d :
  latest !! "ssdistnr" = Some v -> as_num v = Some d ->
  cut_ssdistnr latest self
  = if Qleb 0 d && Qltb d (min_ssdistnr self)
    then (Return None, log_append (mkLog INFO None "ssdistnr" v) self)
    else (Next tt, self).
Proof.
  intros Hv Hd. unfold cut_ssdistnr. norm. rewrite Hv, Hd.
  destruct (Qleb 0 d); [|reflexivity]. norm.
  destruct (Qltb d (min_ssdistnr self)); reflexivity.
Qed.

(** C5. The solar-system-object statement.  With [ssdistnr] a number [d]
    on the latest detection, the statement rejects (returns [None], logging
    [ssdistnr]) exactly when [0 <= d < min_ssdistnr], and lets the alert
    through otherwise: a distance of 0 under a positive threshold rejects, a
    negative distance never does, whatever the threshold.  On an alert whose
    nine earlier statements pass, the rejection is the result of [apply]. *)
Theorem sso_gate self latest (v : pyval) (d : Q) :
  latest !! "ssdistnr" = Some v -> as_num v = Some d ->
  let rejected :=
    cut_ssdistnr latest self
    = (Return None, log_append (mkLog INFO None "ssdistnr" v) self) in
  ((0 <= d /\ d < min_ssdistnr self)%Q -> rejected)
  /\ (~ (0 <= d /\ d < min_ssdistnr self)%Q ->
      cut_ssdistnr latest self = (Next tt, self))
  /\ ((d == 0)%Q -> (0 < min_ssdistnr self)%Q -> rejected)
  /\ ((d < 0)%Q -> cut_ssdistnr latest self = (Next tt, self))
  /\ (forall alert rest,
        pps alert = latest :: rest ->
        Forall (fun g => passes g self) (take 9 (gates alert latest)) ->
        (0 <= d /\ d < min_ssdistnr self)%Q ->
        apply self alert
        = (Returned None, log_append (mkLog INFO None "ssdistnr" v) self)).
Proof.
  intros Hv Hd rejected. unfold rejected.
  pose proof (cut_ssdistnr_run self latest v d Hv Hd) as Hrun.
  assert (Hb : Qleb 0 d && Qltb d (min_ssdistnr self) = true
               <-> (0 <= d /\ d < min_ssdistnr self)%Q).
  { rewrite andb_true_iff, Qleb_le, Qltb_lt. tauto. }
  assert (Hyes : (0 <= d /\ d < min_ssdistnr self)%Q ->
                 cut_ssdistnr latest self
                 = (Return None, log_append (mkLog INFO None "ssdistnr" v) self)).
  { intros H. apply Hb in H. rewrite Hrun, H. reflexivity. }
  assert (Hno : ~ (0 <= d /\ d < min_ssdistnr self)%Q ->
                cut_ssdistnr latest self = (Next tt, self)).
  { intros H. rewrite Hrun.
    destruct (Qleb 0 d && Qltb d (min_ssdistnr self));
      [exfalso; apply H, Hb; reflexivity|reflexivity]. }
  repeat split; try assumption.
  - intros E Hpos. apply Hyes. rewrite E. split; [apply Qle_refl|exact Hpos].
  - intros Hneg. apply Hno. intros [H0 _]. exact (Qlt_not_le _ _ Hneg H0).
  - intros alert rest Hpps Hp Hin.
    destruct (apply_stops_at alert latest rest self 9 (cut_ssdistnr latest) Hpps
                eq_refl Hp) as [H1 _].
    apply H1, Hyes, Hin.
Qed.

(** ** Acceptance *)

Lemma cut_star_in_gaia_passes self latest :
  passes (cut_star_in_gaia latest) self ->
  cut_star_in_gaia latest self = (Next tt, set_catshtm (S (catshtm self)) self).
Proof.
  unfold passes, cut_star_in_gaia, is_star_in_gaia, transient_SkyCoord,
    catshtm_cone_search.
  norm.
  destruct (latest !! "ra") as [ra|]; norm; [|discriminate].
  destruct (latest !! "dec") as [dec|]; norm; [|discriminate].
  destruct (SkyCoord deg ra dec) as [e|tc]; norm; [discriminate|].
  destruct (cone_search (catshtm self) "GAIADR2" (ra_rad tc) (dec_rad tc) (gaia_rs self))
    as [e|srcs]; norm; [discriminate|].
  destruct (0 <? length srcs)%nat; norm; [|reflexivity].
  destruct (gaia_SkyCoord srcs) as [e|wc]; norm; [discriminate|].
  destruct (gaia_any_flag _ tc wc); norm; [discriminate|reflexivity].
Qed.

(** Every statement passes and the latest detection has its [candid]:
    the alert is accepted, after one cone search, with one DEBUG record. *)
Lemma apply_accepts self alert latest rest candid :
  pps alert = latest :: rest ->
  Forall (fun g => passes g self) (gates alert latest) ->
  latest !! "candid" = Some candid ->
  apply self alert
  = (Returned (Some (on_match_t2_units self)),
     log_append (mkLog DEBUG (Some "Alert accepted") "latestPpId" candid)
       (set_catshtm (S (catshtm self)) self)).
Proof.
  intros Hpps Hp Hc.
  assert (Hloc : Forall (fun g => passes g self) (take 13 (gates alert latest))).
  { apply Forall_take, Hp. }
  assert (Hg : passes (cut_star_in_gaia latest) self).
  { rewrite Forall_forall in Hp. apply Hp. cbn [gates].
    repeat (first [apply list_elem_of_here | apply list_elem_of_further]). }
  unfold apply. rewrite (apply_reaches_gaia _ _ _ _ Hpps Hloc).
  unfold bind. rewrite (cut_star_in_gaia_passes _ _ Hg).
  unfold accept. norm. rewrite Hc. reflexivity.
Qed.

(** Every statement passes and the latest detection has no [candid]: the
    acceptance raises. *)
Lemma apply_without_candid self alert latest rest :
  pps alert = latest :: rest ->
  Forall (fun g => passes g self) (gates alert latest) ->
  latest !! "candid" = None ->
  apply self alert = (Raised (KeyError "candid"), set_catshtm (S (catshtm self)) self).
Proof.
  intros Hpps Hp Hc.
  assert (Hloc : Forall (fun g => passes g self) (take 13 (gates alert latest))).
  { apply Forall_take, Hp. }
  assert (Hg : passes (cut_star_in_gaia latest) self).
  { rewrite Forall_forall in Hp. apply Hp. cbn [gates].
    repeat (first [apply list_elem_of_here | apply list_elem_of_further]). }
  unfold apply. rewrite (apply_reaches_gaia _ _ _ _ Hpps Hloc).
  unfold bind. rewrite (cut_star_in_gaia_passes _ _ Hg).
  unfold accept. norm. rewrite Hc. reflexivity.
Qed.

(** ** The history of the alert *)

Lemma all_num_nonempty (vs : list pyval) (q : Q) (qs : list Q) :
  all_num vs = Some (q :: qs) -> exists v vs', vs = v :: vs'.
Proof. destruct vs as [|v vs']; [discriminate|eauto]. Qed.

Lemma cut_tspan_run self alert (j : Q) (js : list Q) :
  all_num (get_values alert "jd") = Some (j :: js) ->
  cut_tspan alert self
  = if negb (Qltb (min_tspan self) (float_sub (py_max j js) (py_min j js))
             && Qltb (float_sub (py_max j js) (py_min j js)) (max_tspan self))
    then (Return None,
          log_append
            (mkLog INFO None "tSpan" (PNum (float_sub (py_max j js) (py_min j js)))) self)
    else (Next tt, self).
Proof.
  intros Hn. unfold cut_tspan, max_minus_min.
  destruct (all_num_nonempty _ _ _ Hn) as (v & vs' & E). rewrite E in *.
  rewrite Hn. norm.
  destruct (negb _); reflexivity.
Qed.

(** The span the source computes is the rounded difference of the largest
    and the smallest date. *)
Lemma float_sub_max_min (j : Q) (js : list Q) :
  float_sub (py_max j js) (py_min j js)
  = round64 (fold_right Qmax j js - fold_right Qmin j js).
Proof.
  unfold float_sub. apply round64_Qeq. rewrite py_max_fold, py_min_fold. reflexivity.
Qed.

(** C4. The span of the detection history.  Take an alert that passes the
    detection-count statement and whose Julian dates are numbers, and let
    [s] be [max(jd) - min(jd)] as the float subtraction gives it.  If
    [s <= min_tspan] or [s >= max_tspan], [apply] returns [None] and logs
    [s] under [tSpan].  If [min_tspan < s < max_tspan] and every other
    statement passes, [apply] returns [on_match_t2_units] when the latest
    detection carries its [candid], and raises [KeyError] when it does
    not. *)
Theorem history_span_gate self alert latest rest (j : Q) (js : list Q) :
  pps alert = latest :: rest ->
  passes (cut_ndet alert) self ->
  all_num (get_values alert "jd") = Some (j :: js) ->
  let s := round64 (fold_right Qmax j js - fold_right Qmin j js) in
  ((s <= min_tspan self \/ max_tspan self <= s)%Q ->
     apply self alert
     = (Returned None, log_append (mkLog INFO None "tSpan" (PNum s)) self))
  /\ ((min_tspan self < s /\ s < max_tspan self)%Q ->
      Forall (fun g => passes g self) (drop 2 (gates alert latest)) ->
      (forall candid, latest !! "candid" = Some candid ->
         apply self alert
         = (Returned (Some (on_match_t2_units self)),
            log_append (mkLog DEBUG (Some "Alert accepted") "latestPpId" candid)
              (set_catshtm (S (catshtm self)) self)))
      /\ (latest !! "candid" = None ->
          apply self alert
          = (Raised (KeyError "candid"), set_catshtm (S (catshtm self)) self))).
Proof.
  intros Hpps Hnd Hn s.
  pose proof (cut_tspan_run self alert j js Hn) as Hrun.
  rewrite (float_sub_max_min j js) in Hrun. fold s in Hrun.
  split.
  - intros Hout.
    assert (Hb : Qltb (min_tspan self) s && Qltb s (max_tspan self) = false).
    { apply andb_false_iff. destruct Hout as [H|H]; [left|right]; apply Qltb_ge, H. }
    rewrite Hb in Hrun. cbn [negb] in Hrun.
    destruct (apply_stops_at alert latest rest self 1 (cut_tspan alert) Hpps eq_refl)
      as [H1 _].
    { cbn [take gates]. repeat constructor. exact Hnd. }
    apply H1, Hrun.
  - intros [Hlo Hhi] Hrest.
    assert (Hb : Qltb (min_tspan self) s && Qltb s (max_tspan self) = true).
    { apply andb_true_iff. split; apply Qltb_lt; assumption. }
    rewrite Hb in Hrun. cbn [negb] in Hrun.
    assert (Hall : Forall (fun g => passes g self) (gates alert latest)).
    { rewrite <- (take_drop 2 (gates alert latest)). apply Forall_app. split; [|exact Hrest].
      cbn [take gates]. repeat constructor; [exact Hnd|].
      unfold passes. rewrite Hrun. reflexivity. }
    split.
    + intros candid Hc. apply (apply_accepts self alert latest rest candid Hpps Hall Hc).
    + intros Hc. apply (apply_without_candid self alert latest rest Hpps Hall Hc).
Qed.

(** ** Incomplete alerts *)

Lemma alert_has_keys_loop_incomplete (keys : list string) (photop : photopoint) (k : string) :
  In k keys -> (photop !! k = None \/ photop !! k = Some PNone) ->
  exists r k',
    (forall self, alert_has_keys_loop keys photop self = (Next false, log_append r self))
    /\ log_level r = INFO /\ log_val r = PStr k' /\ In k' keys
    /\ ((log_key r = "missing" /\ photop !! k' = None)
        \/ (log_key r = "isNone" /\ photop !! k' = Some PNone)).
Proof.
  induction keys as [|el keys IH]; intros Hin Hk; [destruct Hin|].
  assert (Hlater :
    (photop !! el <> None /\ photop !! el <> Some PNone) ->
    exists r k',
      (forall self, alert_has_keys_loop keys photop self = (Next false, log_append r self))
      /\ log_level r = INFO /\ log_val r = PStr k' /\ In k' keys
      /\ ((log_key r = "missing" /\ photop !! k' = None)
          \/ (log_key r = "isNone" /\ photop !! k' = Some PNone))).
  { intros [Hn1 Hn2]. apply IH; [|exact Hk].
    destruct Hin as [->|Hin]; [|exact Hin]. destruct Hk; contradiction. }
  simpl. destruct (photop !! el) as [[| | |]|] eqn:E.
  - exists (mkLog INFO None "isNone" (PStr el)), el. simpl. auto 10.
  - destruct Hlater as (r & k' & H & ?); [split; discriminate|].
    exists r, k'. simpl. intuition.
  - destruct Hlater as (r & k' & H & ?); [split; discriminate|].
    exists r, k'. simpl. intuition.
  - destruct Hlater as (r & k' & H & ?); [split; discriminate|].
    exists r, k'. simpl. intuition.
  - exists (mkLog INFO None "missing" (PStr el)), el. simpl. auto 10.
Qed.

Lemma required_fields_checked (c : InitConfig) lg n (k : string) :
  In k required_fields <-> In k (keys_to_check (state c lg n)).
Proof. cbn. intuition. Qed.

(** C6. An incomplete alert is rejected, not refused.  On an alert that
    has passed the detection-count and history-span statements, if one of
    the fifteen required fields is absent from the latest detection or
    [None] on it, [apply] returns [None]; its one trace is an INFO record
    naming a required field that is missing ([missing]) or null
    ([isNone]). *)
Theorem incomplete_alert_rejected (c : InitConfig) lg n alert latest rest (k : string) :
  pps alert = latest :: rest ->
  passes (cut_ndet alert) (state c lg n) ->
  passes (cut_tspan alert) (state c lg n) ->
  In k required_fields ->
  (latest !! k = None \/ latest !! k = Some PNone) ->
  exists r k',
    apply (state c lg n) alert = (Returned None, log_append r (state c lg n))
    /\ log_level r = INFO /\ log_val r = PStr k' /\ In k' required_fields
    /\ ((log_key r = "missing" /\ latest !! k' = None)
        \/ (log_key r = "isNone" /\ latest !! k' = Some PNone)).
Proof.
  intros Hpps Hnd Hts Hk Hmiss.
  apply (required_fields_checked c lg n) in Hk.
  destruct (alert_has_keys_loop_incomplete _ latest k Hk Hmiss)
    as (r & k' & Hrun & Hlvl & Hval & Hk' & Hwhy).
  exists r, k'. repeat split; try assumption.
  - destruct (apply_stops_at alert latest rest (state c lg n) 2 (cut_keys latest)
                Hpps eq_refl) as [H1 _].
    { cbn [take gates]. repeat constructor; assumption. }
    apply H1. unfold cut_keys, _alert_has_keys. norm. rewrite Hrun. reflexivity.
  - apply (required_fields_checked c lg n), Hk'.
Qed.

(** ** The deep-learning score *)

(** C10, as the code has it.  With [min_drb > 0], an alert whose latest
    detection has no [drb] field and which passes the five statements
    before the deep-real-bogus one (detection count, history span, field
    completeness, [isdiffpos], [rb]) makes [apply] raise [KeyError] for
    [drb]: the field is not among the keys checked, and it is read as soon
    as the statement is reached.  Nothing is logged. *)
Theorem drb_missing_raises (c : InitConfig) lg n alert latest rest :
  pps alert = latest :: rest ->
  (0 < MIN_DRB c)%Q ->
  Forall (fun g => passes g (state c lg n)) (take 5 (gates alert latest)) ->
  latest !! "drb" = None ->
  ~ In "drb" (keys_to_check (state c lg n))
  /\ apply (state c lg n) alert = (Raised (KeyError "drb"), state c lg n).
Proof.
  intros Hpps Hpos Hp Hdrb. split.
  - cbn. intuition discriminate.
  - destruct (apply_stops_at alert latest rest (state c lg n) 5 (cut_drb latest)
                Hpps eq_refl Hp) as [_ H2].
    apply H2. unfold cut_drb. norm. cbn [state set_catshtm new_filter min_drb].
    apply Qltb_lt in Hpos. rewrite Hpos, Hdrb. reflexivity.
Qed.

(** ** The GAIA veto *)

Lemma existsb_filter {A} (f p : A -> bool) (l : list A) :
  existsb f (List.filter p l) = existsb (fun x => p x && f x) l.
Proof.
  induction l as [|a l IH]; simpl; [reflexivity|].
  destruct (p a); simpl; rewrite IH; reflexivity.
Qed.

Lemma existsb_orb {A} (f g : A -> bool) (l : list A) :
  existsb f l || existsb g l = existsb (fun x => f x || g x) l.
Proof.
  induction l as [|a l IH]; simpl; [reflexivity|].
  rewrite <- IH. destruct (f a), (g a), (existsb f l), (existsb g l); reflexivity.
Qed.

Lemma gaia_any_flag_existsb self tc wc :
  gaia_any_flag self tc wc = existsb (star_like self tc) wc.
Proof.
  unfold gaia_any_flag. rewrite !existsb_filter, !existsb_orb.
  induction wc as [|x wc IH]; simpl; [reflexivity|].
  rewrite IH. f_equal. unfold star_like.
  destruct (FLAG_PROX _), (FLAG_Clean _); reflexivity.
Qed.

Lemma gaia_SkyCoord_fst srcs wc :
  gaia_SkyCoord srcs = inr wc -> map fst wc = srcs.
Proof.
  revert wc. induction srcs as [|s srcs IH]; intros wc; simpl.
  - intros [= <-]. reflexivity.
  - destruct (SkyCoord rad (PNum (RA s)) (PNum (Dec s))) as [e|sc]; [discriminate|].
    destruct (gaia_SkyCoord srcs) as [e|wc']; [discriminate|].
    intros [= <-]. simpl. rewrite (IH wc' eq_refl). reflexivity.
Qed.

Lemma gaia_SkyCoord_In srcs wc s sc :
  gaia_SkyCoord srcs = inr wc -> In s srcs -> SkyCoord rad (PNum (RA s)) (PNum (Dec s)) = inr sc ->
  In (s, sc) wc.
Proof.
  revert wc. induction srcs as [|s0 srcs IH]; intros wc; simpl; [tauto|].
  destruct (SkyCoord rad (PNum (RA s0)) (PNum (Dec s0))) as [e|sc0] eqn:E0; [discriminate|].
  destruct (gaia_SkyCoord srcs) as [e|wc']; [discriminate|].
  intros [= <-] [->|Hin] Hsc.
  - left. congruence.
  - right. apply (IH wc' eq_refl Hin Hsc).
Qed.

(** The search went through: the statement is decided by the table. *)
Lemma cut_star_in_gaia_run self latest (vx vy : pyval) tc srcs wc :
  latest !! "ra" = Some vx -> latest !! "dec" = Some vy ->
  SkyCoord deg vx vy = inr tc ->
  cone_search (catshtm self) "GAIADR2" (ra_rad tc) (dec_rad tc) (gaia_rs self) = inr srcs ->
  gaia_SkyCoord srcs = inr wc ->
  cut_star_in_gaia latest self
  = if existsb (star_like self tc) wc
    then (Return None,
          log_append (mkLog INFO None "gaiaIsStar" (PBool true))
            (set_catshtm (S (catshtm self)) self))
    else (Next tt, set_catshtm (S (catshtm self)) self).
Proof.
  intros Hx Hy Htc Hcs Hwc.
  unfold cut_star_in_gaia, is_star_in_gaia, transient_SkyCoord, catshtm_cone_search.
  norm. rewrite Hx, Hy, Htc. norm. rewrite Hcs. norm.
  destruct srcs as [|s srcs].
  - cbn in Hwc. injection Hwc as <-. reflexivity.
  - cbn [length Nat.ltb Nat.leb]. rewrite Hwc. norm.
    change (gaia_any_flag (set_catshtm (S (catshtm self)) self) tc wc)
      with (gaia_any_flag self tc wc).
    rewrite gaia_any_flag_existsb.
    destruct (existsb (star_like self tc) wc); reflexivity.
Qed.

Lemma star_like_outside_window self tc s sc :
  (Mag_G s < gaia_veto_gmag_min self \/ gaia_veto_gmag_max self < Mag_G s)%Q ->
  star_like self tc (s, sc) = false.
Proof.
  intros Hout. unfold star_like. cbn [gaia_add_columns FLAG_PROX].
  assert (Hw : Qleb (gaia_veto_gmag_min self) (Mag_G s)
               && Qleb (Mag_G s) (gaia_veto_gmag_max self) = false).
  { apply andb_false_iff. destruct Hout as [H|H]; [left|right]; apply Qleb_gt, H. }
  rewrite Hw, andb_false_r. reflexivity.
Qed.

Lemma apply_never_accepts self alert latest rest :
  pps alert = latest :: rest ->
  fst (cut_star_in_gaia latest self) = Return None ->
  forall tags, fst (apply self alert) <> Returned (Some tags).
Proof.
  intros Hpps Hg tags. unfold apply. rewrite (apply_body_gates _ _ _ _ Hpps).
  destruct (is_gate_run _ self (is_gate_seq_steps _ (local_gates alert latest)))
    as [v Hv].
  unfold bind at 1. rewrite Hv. destruct v as [|r|e]; cbn [settle]; try discriminate.
  unfold bind. destruct (cut_star_in_gaia latest self) as [[[]|r|e] s'];
    cbn [fst] in Hg; try discriminate.
  injection Hg as ->. discriminate.
Qed.

(** The columns of a row, in terms of the source: the row is kept and
    flagged exactly when the source is a [gaia_star]. *)
Lemma star_like_gaia_star self tc s sc :
  star_like self tc (s, sc) = true <-> gaia_star self tc s sc.
Proof.
  unfold star_like, gaia_star.
  cbn [gaia_add_columns FLAG_PROX FLAG_Clean FLAG_PMRA FLAG_PMDec FLAG_Plx].
  change (float_add (round64 (9#5))
            (float_mul (round64 (3#5))
               (np_exp (float_div (float_sub 20 (Mag_G s)) (round64 (41#20))))))
    with (proximity_radius (Mag_G s)).
  rewrite !np_gt_abs_div.
  rewrite !andb_true_iff, !orb_true_iff, !Qltb_lt, !Qleb_le, !ratio_exceeds_significant.
  tauto.
Qed.

(** C2. The GAIA veto.  Let the cone search around the latest detection
    return the sources [srcs].
    - If one of them is proximate (its separation from the alert is
      strictly below [1.8 + 0.6 * exp((20 - Mag_G) / 2.05)] arcsec, the
      radius computed in floats, and its G magnitude lies in
      [[gaia_veto_gmag_min, gaia_veto_gmag_max]]), clean (its excess-noise
      significance is below [gaia_excessnoise_sig_max]) and has
      [|PMRA / ErrPMRA| > gaia_pm_signif], the quotient being the float
      quotient (or infinite, for a zero error and a proper motion that is
      not zero), then [apply] does not accept the alert, and returns [None],
      logging [gaiaIsStar], when the thirteen statements before the search
      pass.
    - A quotient that is exactly 10, or -10, is significant against a
      threshold of 5; the proper motion 5.500000000000001 with the error
      1.1, whose float quotient is 5.0, is not.
    - If every source returned has its G magnitude outside the window, the
      search does not reject: with the thirteen statements before it
      passing, [apply] returns [on_match_t2_units] when the latest detection
      carries its [candid], and raises [KeyError] when it does not. *)
Theorem gaia_veto self latest (vx vy : pyval) tc srcs wc :
  latest !! "ra" = Some vx -> latest !! "dec" = Some vy ->
  SkyCoord deg vx vy = inr tc ->
  cone_search (catshtm self) "GAIADR2" (ra_rad tc) (dec_rad tc) (gaia_rs self) = inr srcs ->
  gaia_SkyCoord srcs = inr wc ->
  (forall s sc,
      In s srcs -> SkyCoord rad (PNum (RA s)) (PNum (Dec s)) = inr sc ->
      (separation_arcsec tc sc < proximity_radius (Mag_G s))%Q ->
      (gaia_veto_gmag_min self <= Mag_G s /\ Mag_G s <= gaia_veto_gmag_max self)%Q ->
      (ExcessNoiseSig s < gaia_excessnoise_sig_max self)%Q ->
      significant (PMRA s) (ErrPMRA s) (gaia_pm_signif self) ->
      forall alert rest,
        pps alert = latest :: rest ->
        (forall tags, fst (apply self alert) <> Returned (Some tags))
        /\ (Forall (fun g => passes g self) (take 13 (gates alert latest)) ->
            apply self alert
            = (Returned None,
               log_append (mkLog INFO None "gaiaIsStar" (PBool true))
                 (set_catshtm (S (catshtm self)) self))))
  /\ (forall x err : Q,
        (~ err == 0)%Q -> (x / err == 10 \/ x / err == -10)%Q ->
        (gaia_pm_signif self == 5)%Q ->
        significant x err (gaia_pm_signif self))
  /\ ((gaia_pm_signif self == 5)%Q ->
      ~ significant (round64 (5500000000000001 # 1000000000000000)) (round64 (11#10))
          (gaia_pm_signif self))
  /\ (Forall (fun s => (Mag_G s < gaia_veto_gmag_min self
                        \/ gaia_veto_gmag_max self < Mag_G s)%Q) srcs ->
      forall alert rest,
        pps alert = latest :: rest ->
        Forall (fun g => passes g self) (take 13 (gates alert latest)) ->
        (forall candid,
            latest !! "candid" = Some candid ->
            apply self alert
            = (Returned (Some (on_match_t2_units self)),
               log_append (mkLog DEBUG (Some "Alert accepted") "latestPpId" candid)
                 (set_catshtm (S (catshtm self)) self)))
        /\ (latest !! "candid" = None ->
            apply self alert
            = (Raised (KeyError "candid"), set_catshtm (S (catshtm self)) self))).
Proof.
  intros Hx Hy Htc Hcs Hwc.
  pose proof (cut_star_in_gaia_run self latest vx vy tc srcs wc Hx Hy Htc Hcs Hwc) as Hrun.
  split; [|split; [|split]].
  - intros s sc Hin Hsc Hsep Hwin Hclean Hpm alert rest Hpps.
    assert (Hex : existsb (star_like self tc) wc = true).
    { apply existsb_exists. exists (s, sc). split.
      - apply (gaia_SkyCoord_In srcs wc s sc Hwc Hin Hsc).
      - apply star_like_gaia_star. unfold gaia_star. auto. }
    rewrite Hex in Hrun. split.
    + apply (apply_never_accepts self alert latest rest Hpps).
      rewrite Hrun. reflexivity.
    + intros Hp. unfold apply. rewrite (apply_reaches_gaia _ _ _ _ Hpps Hp).
      unfold bind. rewrite Hrun. reflexivity.
  - intros x err Herr Hq Hthr. left. split; [exact Herr|].
    destruct Hq as [Hq|Hq].
    + rewrite (round64_Qeq (x / err) 10 Hq), Hthr. vm_compute. reflexivity.
    + rewrite (round64_Qeq (x / err) (-10) Hq), Hthr. vm_compute. reflexivity.
  - intros Hthr [[_ H]|[H _]].
    + rewrite Hthr in H. vm_compute in H. discriminate H.
    + vm_compute in H. discriminate H.
  - intros Hout alert rest Hpps Hp.
    assert (Hex : existsb (star_like self tc) wc = false).
    { apply not_true_is_false. intros Hex. apply existsb_exists in Hex as ([s sc] & Hin & Hs).
      rewrite star_like_outside_window in Hs; [discriminate|].
      rewrite Forall_forall in Hout. apply Hout.
      rewrite <- (gaia_SkyCoord_fst srcs wc Hwc).
      apply list_elem_of_In. apply (in_map fst wc (s, sc) Hin). }
    rewrite Hex in Hrun.
    assert (Hall : Forall (fun g => passes g self) (gates alert latest)).
    { rewrite <- (take_drop 13 (gates alert latest)). apply Forall_app. split; [exact Hp|].
      cbn [drop gates]. repeat constructor. unfold passes. rewrite Hrun. reflexivity. }
    split.
    + intros candid Hc. apply (apply_accepts self alert latest rest candid Hpps Hall Hc).
    + intros Hc. apply (apply_without_candid self alert latest rest Hpps Hall Hc).
Qed.

(** ** [apply] against the decision procedure of the specification *)

Ltac norm_state :=
  norm;
  cbn [state set_catshtm new_filter on_match_t2_units logger min_ndet min_tspan
       max_tspan max_fwhm max_elong max_magdiff max_nbad min_rb min_drb
       min_ssdistnr min_gal_lat gaia_rs gaia_pm_signif gaia_plx_signif
       gaia_veto_gmag_min gaia_veto_gmag_max gaia_excessnoise_sig_max
       ps1_sgveto_rad ps1_sgveto_th ps1_confusion_rad ps1_confusion_sg_tol
       catshtm keys_to_check].

Lemma latest_detection_cons alert latest rest :
  pps alert = latest :: rest -> latest_detection alert = latest.
Proof. unfold latest_detection. intros ->. reflexivity. Qed.

Lemma link_ndet c lg n alert cat :
  links (cut_ndet alert) (state c lg n) (gate_detection_count c alert cat)
    (reason_keys 1) (well_formed c n alert).
Proof.
  unfold links, cut_ndet, gate_detection_count. norm_state.
  destruct (Z.of_nat (length (pps alert)) <? MIN_NDET c)%Z; norm_state.
  - repeat split. eexists. repeat split. simpl. auto.
  - split; reflexivity.
Qed.

Lemma all_num_julian_dates alert (qs : list Q) :
  all_num (get_values alert "jd") = Some qs -> julian_dates alert = qs.
Proof.
  unfold get_values, julian_dates. revert qs.
  induction (pps alert) as [|d ds IH]; intros qs; cbn [omap list_omap all_num].
  - intros [= <-]. reflexivity.
  - unfold number_at at 1. destruct (d !! "jd") as [v|]; [|apply IH].
    cbn [all_num]. destruct (as_num v) as [q|]; [|discriminate].
    destruct (all_num (omap (fun pp : photopoint => pp !! "jd") ds)) as [qs'|];
      [|discriminate].
    intros [= <-]. rewrite (IH qs' eq_refl). reflexivity.
Qed.

Lemma well_formed_jds c n alert :
  well_formed c n alert ->
  exists j js, all_num (get_values alert "jd") = Some (j :: js).
Proof.
  intros (Hne & Hjd & _). unfold get_values.
  assert (H : forall ds : list photopoint,
             (forall d, In d ds -> exists v, d !! "jd" = Some v /\ is_number v) ->
             exists qs, all_num (omap (fun pp : photopoint => pp !! "jd") ds) = Some qs
                        /\ length qs = length ds).
  { induction ds as [|d ds IH]; intros Hds.
    - exists []. split; reflexivity.
    - destruct (Hds d (or_introl eq_refl)) as (v & Ev & Hv).
      destruct IH as (qs & Hqs & Hlen); [intros d' Hd'; apply Hds; right; exact Hd'|].
      cbn [omap list_omap]. rewrite Ev. cbn [all_num].
      unfold is_number in Hv. destruct (as_num v) as [q|]; [|contradiction].
      rewrite Hqs. exists (q :: qs). split; [reflexivity|]. simpl. congruence. }
  destruct (H (pps alert) Hjd) as (qs & Hqs & Hlen).
  destruct qs as [|j js].
  - destruct (pps alert); [contradiction|discriminate].
  - eauto.
Qed.

Lemma link_tspan c lg n alert cat :
  links (cut_tspan alert) (state c lg n) (gate_history_span c alert cat)
    (reason_keys 2) (well_formed c n alert).
Proof.
  unfold links. destruct (all_num (get_values alert "jd")) as [[|j js]|] eqn:Hn.
  - assert (Hnwf : ~ well_formed c n alert).
    { intros Hwf. apply well_formed_jds in Hwf as (? & ? & ?). congruence. }
    unfold cut_tspan, max_minus_min.
    destruct (get_values alert "jd"); [|rewrite Hn]; norm_state; exact Hnwf.
  - rewrite (cut_tspan_run _ _ _ _ Hn). norm_state.
    unfold gate_history_span, history_span. rewrite (all_num_julian_dates _ _ Hn).
    rewrite (float_sub_max_min j js).
    destruct (negb _).
    + repeat split. eexists. repeat split. simpl. auto.
    + split; reflexivity.
  - assert (Hnwf : ~ well_formed c n alert).
    { intros Hwf. apply well_formed_jds in Hwf as (? & ? & ?). congruence. }
    unfold cut_tspan, max_minus_min.
    destruct (get_values alert "jd"); [|rewrite Hn]; norm_state; exact Hnwf.
Qed.

Lemma alert_has_keys_loop_forallb (keys : list string) (photop : photopoint) :
  if forallb (field_non_null photop) keys
  then forall self, alert_has_keys_loop keys photop self = (Next true, self)
  else exists r, log_level r = INFO /\ In (log_key r) ["missing"; "isNone"]
                 /\ forall self, alert_has_keys_loop keys photop self
                                 = (Next false, log_append r self).
Proof.
  induction keys as [|el keys IH]; cbn [forallb alert_has_keys_loop].
  - reflexivity.
  - unfold field_non_null at 1.
    destruct (photop !! el) as [[| | |]|]; cbn [andb]; try exact IH.
    + exists (mkLog INFO None "isNone" (PStr el)). simpl. auto.
    + exists (mkLog INFO None "missing" (PStr el)). simpl. auto.
Qed.

Lemma forallb_required (f : string -> bool) c lg n :
  forallb f (keys_to_check (state c lg n)) = forallb f required_fields.
Proof.
  apply eq_true_iff_eq. rewrite !List.forallb_forall.
  split; intros H k Hk; apply H; apply (required_fields_checked c lg n); exact Hk.
Qed.

Lemma link_keys c lg n alert latest rest cat :
  pps alert = latest :: rest ->
  links (cut_keys latest) (state c lg n) (gate_field_completeness c alert cat)
    (reason_keys 3) (well_formed c n alert).
Proof.
  intros Hpps. unfold links, cut_keys, _alert_has_keys, gate_field_completeness.
  rewrite (latest_detection_cons _ _ _ Hpps).
  rewrite <- (forallb_required _ c lg n). norm.
  pose proof (alert_has_keys_loop_forallb (keys_to_check (state c lg n)) latest) as H.
  destruct (forallb _ _).
  - rewrite H. split; reflexivity.
  - destruct H as (r & Hl & Hk & H). rewrite H. cbn [negb].
    repeat split. exists r. repeat split; assumption.
Qed.

Lemma complete_lookup c alert latest rest cat (k : string) :
  pps alert = latest :: rest ->
  gate_field_completeness c alert cat = false ->
  In k required_fields ->
  exists v, latest !! k = Some v /\ v <> PNone.
Proof.
  intros Hpps Hc Hk. unfold gate_field_completeness in Hc.
  rewrite (latest_detection_cons _ _ _ Hpps) in Hc.
  apply negb_false_iff in Hc. rewrite List.forallb_forall in Hc.
  specialize (Hc k Hk). unfold field_non_null in Hc.
  destruct (latest !! k) as [[| | |]|]; try discriminate; eexists; split;
    try reflexivity; discriminate.
Qed.

Lemma numeric_fields_required (k : string) : In k numeric_fields -> In k required_fields.
Proof. cbn. intuition. Qed.

(** A compared field of a complete detection: a number, or the alert is
    not well formed. *)
Lemma checked_number c n alert latest rest cat (k : string) :
  pps alert = latest :: rest ->
  gate_field_completeness c alert cat = false ->
  In k numeric_fields ->
  exists v, latest !! k = Some v
    /\ ((exists q, as_num v = Some q /\ field_value latest k = q)
        \/ (as_num v = None /\ ~ well_formed c n alert)).
Proof.
  intros Hpps Hc Hk.
  destruct (complete_lookup c alert latest rest cat k Hpps Hc
              (numeric_fields_required k Hk)) as (v & Ev & Hnn).
  exists v. split; [exact Ev|].
  destruct (as_num v) as [q|] eqn:Eq.
  - left. exists q. split; [reflexivity|]. unfold field_value. rewrite Ev, Eq. reflexivity.
  - right. split; [reflexivity|]. intros (_ & _ & Hnum & _).
    rewrite (latest_detection_cons _ _ _ Hpps) in Hnum.
    destruct (Hnum k v Hk Ev) as [?|Hn]; [contradiction|].
    exact (Hn Eq).
Qed.

Ltac read_field n Hpps Hc k :=
  let v := fresh "v" in let q := fresh "q" in
  let Ev := fresh "Ev" in let Eq := fresh "Eq" in let Fq := fresh "Fq" in
  let Hnwf := fresh "Hnwf" in
  destruct (checked_number _ n _ _ _ _ k Hpps Hc ltac:(cbn; tauto))
    as (v & Ev & [(q & Eq & Fq)|(Eq & Hnwf)]);
  rewrite Ev; norm_state; rewrite Eq; norm_state; [|exact Hnwf].

Ltac link_rejected :=
  repeat split; eexists; repeat split; simpl; auto.

Lemma link_isdiffpos c lg n alert latest rest cat :
  pps alert = latest :: rest ->
  gate_field_completeness c alert cat = false ->
  links (cut_isdiffpos latest) (state c lg n) (gate_flux_sign c alert cat)
    (reason_keys 4) (well_formed c n alert).
Proof.
  intros Hpps Hc.
  destruct (complete_lookup c alert latest rest cat "isdiffpos" Hpps Hc
              ltac:(cbn; tauto)) as (v & Ev & _).
  unfold links, cut_isdiffpos, gate_flux_sign.
  rewrite (latest_detection_cons _ _ _ Hpps). norm_state. rewrite Ev.
  destruct v as [| | |s]; cbn [py_eq_str orb]; norm_state; try (split; reflexivity).
  destruct (bool_decide (s = "f") || bool_decide (s = "0")); norm_state.
  - link_rejected.
  - split; reflexivity.
Qed.

Lemma link_rb c lg n alert latest rest cat :
  pps alert = latest :: rest ->
  gate_field_completeness c alert cat = false ->
  links (cut_rb latest) (state c lg n) (gate_real_bogus c alert cat)
    (reason_keys 5) (well_formed c n alert).
Proof.
  intros Hpps Hc. unfold links, cut_rb, gate_real_bogus.
  rewrite (latest_detection_cons _ _ _ Hpps). norm_state.
  read_field n Hpps Hc "rb". rewrite Fq.
  destruct (Qltb q (MIN_RB c)); norm_state; [link_rejected|split; reflexivity].
Qed.

Lemma link_drb c lg n alert latest rest cat :
  pps alert = latest :: rest ->
  links (cut_drb latest) (state c lg n) (gate_deep_real_bogus c alert cat)
    (reason_keys 6) (well_formed c n alert).
Proof.
  intros Hpps. unfold links, cut_drb, gate_deep_real_bogus.
  rewrite (latest_detection_cons _ _ _ Hpps). norm_state.
  destruct (Qltb 0 (MIN_DRB c)) eqn:Hon; norm_state; [|split; reflexivity].
  assert (Hwf : well_formed c n alert ->
                exists v, latest !! "drb" = Some v /\ is_number v).
  { intros (_ & _ & _ & _ & Hd & _). rewrite (latest_detection_cons _ _ _ Hpps) in Hd.
    apply Hd, Qltb_lt, Hon. }
  unfold field_value.
  destruct (latest !! "drb") as [v|] eqn:Ev; norm_state.
  - destruct (as_num v) as [q|] eqn:Eq; norm_state.
    + destruct (Qltb q (MIN_DRB c)); norm_state; [link_rejected|split; reflexivity].
    + intros H. apply Hwf in H as (v' & [= <-] & Hn). exact (Hn Eq).
  - intros H. apply Hwf in H as (v' & [=] & _).
Qed.

Lemma link_fwhm c lg n alert latest rest cat :
  pps alert = latest :: rest ->
  gate_field_completeness c alert cat = false ->
  links (cut_fwhm latest) (state c lg n)
    (Qltb (MAX_FWHM c) (field_value (latest_detection alert) "fwhm"))
    (reason_keys 7) (well_formed c n alert).
Proof.
  intros Hpps Hc. unfold links, cut_fwhm.
  rewrite (latest_detection_cons _ _ _ Hpps). norm_state.
  read_field n Hpps Hc "fwhm". rewrite Fq.
  destruct (Qltb (MAX_FWHM c) q); norm_state; [link_rejected|split; reflexivity].
Qed.

Lemma link_elong c lg n alert latest rest cat :
  pps alert = latest :: rest ->
  gate_field_completeness c alert cat = false ->
  links (cut_elong latest) (state c lg n)
    (Qltb (MAX_ELONG c) (field_value (latest_detection alert) "elong"))
    (reason_keys 7) (well_formed c n alert).
Proof.
  intros Hpps Hc. unfold links, cut_elong.
  rewrite (latest_detection_cons _ _ _ Hpps). norm_state.
  read_field n Hpps Hc "elong". rewrite Fq.
  destruct (Qltb (MAX_ELONG c) q); norm_state; [link_rejected|split; reflexivity].
Qed.

Lemma link_magdiff c lg n alert latest rest cat :
  pps alert = latest :: rest ->
  gate_field_completeness c alert cat = false ->
  links (cut_magdiff latest) (state c lg n)
    (Qltb (MAX_MAGDIFF c) (Qabs (field_value (latest_detection alert) "magdiff")))
    (reason_keys 7) (well_formed c n alert).
Proof.
  intros Hpps Hc. unfold links, cut_magdiff.
  rewrite (latest_detection_cons _ _ _ Hpps). norm_state.
  read_field n Hpps Hc "magdiff". rewrite Fq.
  destruct (Qltb (MAX_MAGDIFF c) (Qabs q)); norm_state;
    [link_rejected|split; reflexivity].
Qed.

Lemma link_ssdistnr c lg n alert latest rest cat :
  pps alert = latest :: rest ->
  gate_field_completeness c alert cat = false ->
  links (cut_ssdistnr latest) (state c lg n) (gate_sso_proximity c alert cat)
    (reason_keys 8) (well_formed c n alert).
Proof.
  intros Hpps Hc. unfold links, cut_ssdistnr, gate_sso_proximity.
  rewrite (latest_detection_cons _ _ _ Hpps). norm_state.
  read_field n Hpps Hc "ssdistnr". rewrite Fq.
  destruct (Qleb 0 q); norm_state; [|split; reflexivity].
  destruct (Qltb q (MIN_DIST_TO_SSO c)); norm_state; [link_rejected|split; reflexivity].
Qed.

Ltac lookup_field n Hpps Hc k v Ev D :=
  destruct (checked_number _ n _ _ _ _ k Hpps Hc ltac:(cbn; tauto)) as (v & Ev & D).

Ltac number_of D q Eq Fq :=
  let Hnwf := fresh "Hnwf" in
  destruct D as [(q & Eq & Fq)|(Eq & Hnwf)]; rewrite Eq; norm_state; [|exact Hnwf].

Lemma well_formed_coord c n alert latest rest :
  pps alert = latest :: rest -> well_formed c n alert ->
  exists vra vdec tc srcs wc,
    latest !! "ra" = Some vra /\ latest !! "dec" = Some vdec
    /\ SkyCoord deg vra vdec = inr tc
    /\ cone_search n "GAIADR2" (ra_rad tc) (dec_rad tc) (GAIA_RS c) = inr srcs
    /\ gaia_SkyCoord srcs = inr wc.
Proof.
  intros Hpps (_ & _ & _ & _ & _ & tc & srcs & wc & Htc & Hcs & Hwc).
  rewrite (latest_detection_cons _ _ _ Hpps) in Htc. unfold detection_coord in Htc.
  destruct (latest !! "ra") as [vra|]; [|discriminate].
  destruct (latest !! "dec") as [vdec|]; [|discriminate].
  destruct (SkyCoord deg vra vdec) as [e|tc'] eqn:E; [discriminate|].
  injection Htc as ->. exists vra, vdec, tc, srcs, wc. repeat split; assumption.
Qed.

Lemma link_gal_lat c lg n alert latest rest cat :
  pps alert = latest :: rest ->
  gate_field_completeness c alert cat = false ->
  links (cut_gal_lat latest) (state c lg n) (gate_galactic_latitude c alert cat)
    (reason_keys 9) (well_formed c n alert).
Proof.
  intros Hpps Hc.
  unfold links, cut_gal_lat, get_galactic_latitude, transient_SkyCoord,
    gate_galactic_latitude, detection_coord.
  rewrite (latest_detection_cons _ _ _ Hpps). norm_state.
  destruct (complete_lookup c alert latest rest cat "ra" Hpps Hc ltac:(cbn; tauto))
    as (vra & Era & _).
  destruct (complete_lookup c alert latest rest cat "dec" Hpps Hc ltac:(cbn; tauto))
    as (vdec & Edec & _).
  rewrite Era, Edec. norm_state.
  destruct (SkyCoord deg vra vdec) as [e|tc] eqn:Etc; norm_state.
  - intros Hwf. destruct (well_formed_coord c n alert latest rest Hpps Hwf)
      as (? & ? & tc & ? & ? & Hra & Hdec & Htc & _). congruence.
  - destruct (Qltb (Qabs (galactic_b_deg tc)) (MIN_GAL_LAT c)); norm_state;
      [link_rejected|split; reflexivity].
Qed.

Lemma link_star_in_PS1 c lg n alert latest rest cat :
  pps alert = latest :: rest ->
  gate_field_completeness c alert cat = false ->
  links (cut_star_in_PS1 latest) (state c lg n) (gate_local_star c alert cat)
    (reason_keys 10) (well_formed c n alert).
Proof.
  intros Hpps Hc.
  unfold links, cut_star_in_PS1, is_star_in_PS1, gate_local_star.
  rewrite (latest_detection_cons _ _ _ Hpps). norm_state.
  lookup_field n Hpps Hc "distpsnr1" vd Ed Dd.
  lookup_field n Hpps Hc "sgscore1" vs Es Ds.
  rewrite Ed. norm_state. number_of Dd d Eqd Fd. rewrite Fd.
  destruct (Qltb d (PS1_SGVETO_RAD c)); norm_state; [|split; reflexivity].
  rewrite Es. norm_state. number_of Ds sg Eqs Fs. rewrite Fs.
  destruct (Qltb (PS1_SGVETO_SGTH c) sg); norm_state; [|split; reflexivity].
  link_rejected.
Qed.

Lemma link_confused_in_PS1 c lg n alert latest rest cat :
  pps alert = latest :: rest ->
  gate_field_completeness c alert cat = false ->
  links (cut_confused_in_PS1 latest) (state c lg n) (gate_local_confusion c alert cat)
    (reason_keys 11) (well_formed c n alert).
Proof.
  intros Hpps Hc.
  unfold links, cut_confused_in_PS1, is_confused_in_PS1, gate_local_confusion.
  rewrite (latest_detection_cons _ _ _ Hpps). norm_state.
  lookup_field n Hpps Hc "distpsnr1" v1 E1 D1.
  lookup_field n Hpps Hc "distpsnr2" v2 E2 D2.
  lookup_field n Hpps Hc "distpsnr3" v3 E3 D3.
  lookup_field n Hpps Hc "sgscore1" w1 G1 S1.
  lookup_field n Hpps Hc "sgscore2" w2 G2 S2.
  lookup_field n Hpps Hc "sgscore3" w3 G3 S3.
  rewrite E1, E2, E3. norm_state.
  number_of D1 d1 N1 F1. number_of D2 d2 N2 F2. number_of D3 d3 N3 F3.
  rewrite G1. norm_state. number_of S1 sg1 M1 H1.
  rewrite G2. norm_state. number_of S2 sg2 M2 H2.
  rewrite G3. norm_state. number_of S3 sg3 M3 H3.
  rewrite F1, F2, F3, H1, H2, H3. unfold float_sub.
  match goal with
  | |- context [if ?b then _ else _] =>
      assert (Hb : b = (Qltb d1 (PS1_CONFUSION_RAD c) && Qltb d2 (PS1_CONFUSION_RAD c)
                        && Qltb d3 (PS1_CONFUSION_RAD c)
                        && Qltb (Qmax (Qmax (Qabs (round64 (sg1 - (1#2))))
                                         (Qabs (round64 (sg2 - (1#2)))))
                                   (Qabs (round64 (sg3 - (1#2))))) (PS1_CONFUSION_SG_TOL c)));
      [|rewrite Hb]
  end.
  { apply eq_true_iff_eq.
    rewrite !andb_true_iff, (py_max3_lt d1 d2 d3), !Qltb_lt, py_max3_Qmax. tauto. }
  match goal with
  | |- context [if ?b then _ else _] => destruct b
  end; norm_state; [link_rejected|split; reflexivity].
Qed.

Lemma star_like_spec c lg m tc srcs wc :
  gaia_SkyCoord srcs = inr wc ->
  existsb (star_like (state c lg m) tc) wc
  = existsb (fun s => source_proximate c tc s && source_clean c s && source_moving c s)
      srcs.
Proof.
  revert wc. induction srcs as [|s srcs IH]; intros wc; cbn [gaia_SkyCoord].
  - intros [= <-]. reflexivity.
  - destruct (SkyCoord rad (PNum (RA s)) (PNum (Dec s))) as [e|sc] eqn:Esc; [discriminate|].
    destruct (gaia_SkyCoord srcs) as [e|wc']; [discriminate|].
    intros [= <-]. cbn [existsb]. rewrite (IH wc' eq_refl). f_equal.
    unfold star_like, source_proximate, source_clean, source_moving.
    cbn [gaia_add_columns FLAG_PROX FLAG_Clean FLAG_PMRA FLAG_PMDec FLAG_Plx].
    rewrite Esc, !np_gt_abs_div. reflexivity.
Qed.

Lemma link_gaia c lg n alert latest rest :
  pps alert = latest :: rest ->
  gate_field_completeness c alert (catalog_at n) = false ->
  match cut_star_in_gaia latest (state c lg n) with
  | (Next _, self') =>
      self' = state c lg (S n) /\ gate_remote_star c alert (catalog_at n) = false
  | (Return r, self') =>
      r = None /\ gate_remote_star c alert (catalog_at n) = true
      /\ self' = log_append (mkLog INFO None "gaiaIsStar" (PBool true)) (state c lg (S n))
  | (Raise _, _) => ~ well_formed c n alert
  end.
Proof.
  intros Hpps Hc.
  unfold cut_star_in_gaia, is_star_in_gaia, transient_SkyCoord, catshtm_cone_search,
    gate_remote_star, detection_coord.
  rewrite (latest_detection_cons _ _ _ Hpps). norm_state.
  destruct (complete_lookup c alert latest rest (catalog_at n) "ra" Hpps Hc
              ltac:(cbn; tauto)) as (vra & Era & _).
  destruct (complete_lookup c alert latest rest (catalog_at n) "dec" Hpps Hc
              ltac:(cbn; tauto)) as (vdec & Edec & _).
  rewrite Era, Edec. norm_state.
  assert (Hwf : well_formed c n alert ->
                exists tc srcs wc,
                  SkyCoord deg vra vdec = inr tc
                  /\ cone_search n "GAIADR2" (ra_rad tc) (dec_rad tc) (GAIA_RS c) = inr srcs
                  /\ gaia_SkyCoord srcs = inr wc).
  { intros H. destruct (well_formed_coord c n alert latest rest Hpps H)
      as (vra' & vdec' & tc & srcs & wc & Hra & Hdec & H1 & H2 & H3).
    rewrite Era in Hra. rewrite Edec in Hdec.
    injection Hra as <-. injection Hdec as <-. eauto 10. }
  destruct (SkyCoord deg vra vdec) as [e|tc] eqn:Etc; norm_state.
  { intros H. apply Hwf in H as (? & ? & ? & ? & _). discriminate. }
  unfold catalog_at.
  destruct (cone_search n "GAIADR2" (ra_rad tc) (dec_rad tc) (GAIA_RS c))
    as [e|srcs] eqn:Ecs; norm_state.
  { intros H. apply Hwf in H as (? & ? & ? & [= <-] & ? & _). congruence. }
  destruct srcs as [|s srcs].
  { cbn [length Nat.ltb Nat.leb existsb]. norm_state. split; reflexivity. }
  cbn [length Nat.ltb Nat.leb].
  destruct (gaia_SkyCoord (s :: srcs)) as [e|wc] eqn:Ewc; norm_state.
  { intros H. apply Hwf in H as (? & ? & ? & [= <-] & ? & ?). congruence. }
  change (gaia_any_flag (set_catshtm (S n) (state c lg n)) tc wc)
    with (gaia_any_flag (state c lg (S n)) tc wc).
  rewrite gaia_any_flag_existsb, (star_like_spec _ _ _ _ _ _ Ewc).
  destruct (existsb _ (s :: srcs)); norm_state; repeat split; reflexivity.
Qed.

Lemma accept_run self latest :
  accept latest self
  = match latest !! "candid" with
    | Some candid =>
        (Return (Some (on_match_t2_units self)),
         log_append (mkLog DEBUG (Some "Alert accepted") "latestPpId" candid) self)
    | None => (Raise (KeyError "candid"), self)
    end.
Proof. unfold accept. norm. destruct (latest !! "candid"); reflexivity. Qed.

Ltac gate_step L Hev Hg :=
  unfold bind at 1;
  let HL := fresh "HL" in
  pose proof L as HL; unfold links in HL;
  match type of HL with
  | match ?x with _ => _ end =>
      destruct x as [[[]|?|?] ?]; cbv beta iota;
      [ destruct HL as [-> Hg]; rewrite Hg in Hev; cbn [orb] in Hev; cbv iota in Hev
      | let lr := fresh "lr" in
        destruct HL as (-> & Hg & lr & -> & ? & ?);
        rewrite Hg in Hev; cbn [orb] in Hev; cbv iota in Hev;
        unfold implements; rewrite Hev; (split; [reflexivity|]);
        exists lr; repeat split; first [reflexivity | assumption]
      | unfold implements; exact HL ]
  end.

Lemma apply_body_implements c lg n alert :
  implements c lg n alert (apply_body alert (state c lg n)).
Proof.
  pose proof (eq_refl (evaluate alert c (catalog_at n))) as Hev.
  unfold evaluate at 2 in Hev. cbn [first_failing spec_gates] in Hev.
  unfold gate_image_quality in Hev. cbv zeta in Hev.
  destruct (pps alert) as [|latest rest] eqn:Hpps.
  - rewrite (apply_body_nil _ _ Hpps).
    gate_step (link_ndet c lg n alert (catalog_at n)) Hev Hg1.
    unfold implements, raise. intros (Hne & _). exact (Hne Hpps).
  - unfold apply_body, pps_0. rewrite Hpps.
    gate_step (link_ndet c lg n alert (catalog_at n)) Hev Hg1.
    gate_step (link_tspan c lg n alert (catalog_at n)) Hev Hg2.
    unfold bind at 1. cbv [ret]. cbv beta iota.
    gate_step (link_keys c lg n alert latest rest (catalog_at n) Hpps) Hev Hg3.
    gate_step (link_isdiffpos c lg n alert latest rest (catalog_at n) Hpps Hg3) Hev Hg4.
    gate_step (link_rb c lg n alert latest rest (catalog_at n) Hpps Hg3) Hev Hg5.
    gate_step (link_drb c lg n alert latest rest (catalog_at n) Hpps) Hev Hg6.
    gate_step (link_fwhm c lg n alert latest rest (catalog_at n) Hpps Hg3) Hev Hg7a.
    gate_step (link_elong c lg n alert latest rest (catalog_at n) Hpps Hg3) Hev Hg7b.
    gate_step (link_magdiff c lg n alert latest rest (catalog_at n) Hpps Hg3) Hev Hg7c.
    gate_step (link_ssdistnr c lg n alert latest rest (catalog_at n) Hpps Hg3) Hev Hg8.
    gate_step (link_gal_lat c lg n alert latest rest (catalog_at n) Hpps Hg3) Hev Hg9.
    gate_step (link_star_in_PS1 c lg n alert latest rest (catalog_at n) Hpps Hg3) Hev Hg10.
    gate_step (link_confused_in_PS1 c lg n alert latest rest (catalog_at n) Hpps Hg3)
      Hev Hg11.
    unfold bind at 1.
    pose proof (link_gaia c lg n alert latest rest Hpps Hg3) as HL.
    destruct (cut_star_in_gaia latest (state c lg n)) as [[[]|r|e] s']; cbv beta iota.
    + destruct HL as [-> Hg12]. rewrite Hg12 in Hev. cbv iota in Hev.
      rewrite accept_run. unfold implements.
      destruct (latest !! "candid") as [candid|] eqn:Hcand.
      * rewrite Hev. split; [reflexivity|]. exists candid.
        rewrite (latest_detection_cons _ _ _ Hpps). split; [exact Hcand|reflexivity].
      * intros (_ & _ & _ & Hcd & _).
        rewrite (latest_detection_cons _ _ _ Hpps) in Hcd. exact (Hcd Hcand).
    + destruct HL as (-> & Hg12 & ->). rewrite Hg12 in Hev. cbv iota in Hev.
      unfold implements. rewrite Hev. split; [reflexivity|].
      eexists. repeat split. simpl. auto.
    + unfold implements. exact HL.
Qed.

(** ** More on the statements of [apply] *)

Lemma alert_has_keys_loop_complete (keys : list string) (photop : photopoint) self :
  (forall k, In k keys -> field_non_null photop k = true) ->
  alert_has_keys_loop keys photop self = (Next true, self).
Proof.
  induction keys as [|el keys IH]; intros H; simpl; [reflexivity|].
  pose proof (H el (or_introl eq_refl)) as Hel. unfold field_non_null in Hel.
  destruct (photop !! el) as [[| | |]|]; try discriminate;
    apply IH; intros k Hk; apply H; right; exact Hk.
Qed.

Lemma alert_has_keys_loop_app (pre post : list string) (photop : photopoint) self :
  (forall k, In k pre -> field_non_null photop k = true) ->
  alert_has_keys_loop (pre ++ post) photop self = alert_has_keys_loop post photop self.
Proof.
  induction pre as [|el pre IH]; intros H; simpl; [reflexivity|].
  pose proof (H el (or_introl eq_refl)) as Hel. unfold field_non_null in Hel.
  destruct (photop !! el) as [[| | |]|]; try discriminate;
    apply IH; intros k Hk; apply H; right; exact Hk.
Qed.

(** X1. [_alert_has_keys] answers [True], logging nothing, when every key
    of [keys_to_check] is on the photopoint and not [None]; otherwise it
    answers [False] and logs one record, which names the first key of
    [keys_to_check], in the order of the tuple, that is absent ([missing]) or
    [None] ([isNone]): keys after it are not looked at. *)
Theorem alert_has_keys_first_offender self (photop : photopoint) :
  ((forall k, In k (keys_to_check self) -> field_non_null photop k = true) ->
     _alert_has_keys photop self = (Next true, self))
  /\ (forall pre k post,
        keys_to_check self = pre ++ k :: post ->
        (forall k', In k' pre -> field_non_null photop k' = true) ->
        (photop !! k = None ->
           _alert_has_keys photop self
           = (Next false, log_append (mkLog INFO None "missing" (PStr k)) self))
        /\ (photop !! k = Some PNone ->
              _alert_has_keys photop self
              = (Next false, log_append (mkLog INFO None "isNone" (PStr k)) self))).
Proof.
  split.
  - intros H. unfold _alert_has_keys. norm. apply alert_has_keys_loop_complete, H.
  - intros pre k post Hkeys Hpre. unfold _alert_has_keys. norm. rewrite Hkeys.
    rewrite (alert_has_keys_loop_app pre (k :: post) photop self Hpre).
    cbn [alert_has_keys_loop]. split; intros ->; reflexivity.
Qed.

Lemma is_star_in_PS1_far self latest (vd : pyval) (d : Q) :
  latest !! "distpsnr1" = Some vd -> as_num vd = Some d ->
  (ps1_sgveto_rad self <= d)%Q ->
  is_star_in_PS1 latest self = (Next false, self).
Proof.
  intros Hv Hd Hfar. unfold is_star_in_PS1. norm. rewrite Hv, Hd.
  apply Qltb_ge in Hfar. rewrite Hfar. reflexivity.
Qed.

(** X2. The PS1 star veto.  With [distpsnr1] a number [d]: if [d] is not
    strictly below [ps1_sgveto_rad], [is_star_in_PS1] answers [False] without
    reading [sgscore1] (which may be absent) and the statement of [apply] lets
    the alert through; if [d] is below the radius and [sgscore1] is a number
    [sg], the statement rejects, logging the [distpsnr1] value, exactly when
    [sg > ps1_sgveto_th] (a score equal to the threshold passes); if [d] is
    below the radius and [sgscore1] is absent, it raises [KeyError]. *)
Theorem ps1_star_veto self latest (vd : pyval) (d : Q) :
  latest !! "distpsnr1" = Some vd -> as_num vd = Some d ->
  ((ps1_sgveto_rad self <= d)%Q ->
     is_star_in_PS1 latest self = (Next false, self)
     /\ cut_star_in_PS1 latest self = (Next tt, self))
  /\ (forall sg, number_at latest "sgscore1" = Some sg ->
        (d < ps1_sgveto_rad self)%Q ->
        ((ps1_sgveto_th self < sg)%Q ->
           cut_star_in_PS1 latest self
           = (Return None, log_append (mkLog INFO None "distpsnr1" vd) self))
        /\ ((sg <= ps1_sgveto_th self)%Q ->
              cut_star_in_PS1 latest self = (Next tt, self)))
  /\ ((d < ps1_sgveto_rad self)%Q -> latest !! "sgscore1" = None ->
      cut_star_in_PS1 latest self = (Raise (KeyError "sgscore1"), self)).
Proof.
  intros Hv Hd. split; [|split].
  - intros Hfar. pose proof (is_star_in_PS1_far self latest vd d Hv Hd Hfar) as H.
    split; [exact H|]. unfold cut_star_in_PS1, bind. rewrite H. reflexivity.
  - intros sg Hsg Hnear. apply number_at_getitem in Hsg as (vs & Es & Ns).
    apply Qltb_lt in Hnear.
    split; intros Hth; unfold cut_star_in_PS1, is_star_in_PS1; norm;
      rewrite Hv, Hd, Hnear, Es, Ns.
    + apply Qltb_lt in Hth. rewrite Hth. reflexivity.
    + apply Qltb_ge in Hth. rewrite Hth. reflexivity.
  - intros Hnear Hs. apply Qltb_lt in Hnear.
    unfold cut_star_in_PS1, is_star_in_PS1. norm. rewrite Hv, Hd, Hnear, Hs.
    reflexivity.
Qed.

Lemma cut_gal_lat_run self latest (vx vy : pyval) tc :
  latest !! "ra" = Some vx -> latest !! "dec" = Some vy ->
  SkyCoord deg vx vy = inr tc ->
  cut_gal_lat latest self
  = if Qltb (Qabs (galactic_b_deg tc)) (min_gal_lat self)
    then (Return None,
          log_append (mkLog INFO None "galPlane" (PNum (Qabs (galactic_b_deg tc)))) self)
    else (Next tt, self).
Proof.
  intros Hx Hy Htc.
  unfold cut_gal_lat, get_galactic_latitude, transient_SkyCoord. norm.
  rewrite Hx, Hy, Htc. norm.
  destruct (Qltb _ _); reflexivity.
Qed.

(** X3. The galactic-latitude cut.  For a detection whose position astropy
    accepts (numbers, or whatever else it reads), with galactic latitude
    [b]: the statement rejects, logging
    [|b|] under [galPlane], exactly when [|b| < min_gal_lat]; a latitude
    [|b| = min_gal_lat] passes; and with [min_gal_lat <= 0] (the
    configuration's way to disable the cut) no latitude is ever rejected. *)
Theorem galactic_latitude_cut self latest (vx vy : pyval) tc :
  latest !! "ra" = Some vx -> latest !! "dec" = Some vy ->
  SkyCoord deg vx vy = inr tc ->
  ((Qabs (galactic_b_deg tc) < min_gal_lat self)%Q ->
     cut_gal_lat latest self
     = (Return None,
        log_append (mkLog INFO None "galPlane" (PNum (Qabs (galactic_b_deg tc)))) self))
  /\ ((min_gal_lat self <= Qabs (galactic_b_deg tc))%Q ->
        cut_gal_lat latest self = (Next tt, self))
  /\ ((min_gal_lat self <= 0)%Q -> cut_gal_lat latest self = (Next tt, self)).
Proof.
  intros Hx Hy Htc. rewrite (cut_gal_lat_run self latest vx vy tc Hx Hy Htc).
  split; [|split].
  - intros H. apply Qltb_lt in H. rewrite H. reflexivity.
  - intros H. apply Qltb_ge in H. rewrite H. reflexivity.
  - intros H.
    assert (Hge : (min_gal_lat self <= Qabs (galactic_b_deg tc))%Q).
    { eapply Qle_trans; [exact H|]. apply Qabs_nonneg. }
    apply Qltb_ge in Hge. rewrite Hge. reflexivity.
Qed.

(** X4. Too few detections.  An alert with fewer photopoints than
    [min_ndet] is rejected by the first statement, whatever it holds: [apply]
    returns [None], logs the number of photopoints under [nDet], reads no
    field of any photopoint, searches no catalog and cannot raise; this
    includes the alert without photopoints when [min_ndet >= 1]. *)
Theorem too_few_detections self (alert : AmpelAlert) :
  (Z.of_nat (length (pps alert)) < min_ndet self)%Z ->
  apply self alert
  = (Returned None,
     log_append (mkLog INFO None "nDet" (PNum (inject_Z (Z.of_nat (length (pps alert))))))
       self).
Proof.
  intros Hlt. apply Z.ltb_lt in Hlt.
  unfold apply, apply_body, bind, cut_ndet. norm. rewrite Hlt. reflexivity.
Qed.

Lemma get_values_absent (alert : AmpelAlert) (k : string) :
  (forall d, In d (pps alert) -> d !! k = None) -> get_values alert k = [].
Proof.
  unfold get_values. induction (pps alert) as [|d ds IH]; intros H; [reflexivity|].
  cbn [omap list_omap]. rewrite (H d (or_introl eq_refl)).
  apply IH. intros d' Hd'. apply H. right. exact Hd'.
Qed.

(** X5. No Julian date.  An alert that passes the detection count but
    none of whose photopoints has a [jd] makes [apply] raise [ValueError]
    ([max] of an empty sequence) and log nothing.  This is what happens to an
    alert without photopoints when [min_ndet <= 0]. *)
Theorem no_julian_date_raises self (alert : AmpelAlert) :
  (min_ndet self <= Z.of_nat (length (pps alert)))%Z ->
  (forall d, In d (pps alert) -> d !! "jd" = None) ->
  apply self alert = (Raised ValueError, self).
Proof.
  intros Hge Hjd. apply Z.ltb_ge in Hge.
  unfold apply, apply_body. unfold bind at 1. unfold cut_ndet. norm.
  rewrite Hge. unfold cut_tspan, max_minus_min.
  rewrite (get_values_absent alert "jd" Hjd). reflexivity.
Qed.

Lemma fold_Qmax_flat (j : Q) (js : list Q) :
  Forall (fun q => (q == j)%Q) js -> (fold_right Qmax j js == j)%Q.
Proof.
  induction 1 as [|q js Hq _ IH]; simpl; [reflexivity|].
  rewrite IH, Hq. apply Q.max_id.
Qed.

Lemma fold_Qmin_flat (j : Q) (js : list Q) :
  Forall (fun q => (q == j)%Q) js -> (fold_right Qmin j js == j)%Q.
Proof.
  induction 1 as [|q js Hq _ IH]; simpl; [reflexivity|].
  rewrite IH, Hq. apply Q.min_id.
Qed.

(** X6. A history without length.  When all the Julian dates of an alert
    are the same number (in particular when the alert has one detection), the
    span [max(jd) - min(jd)] is 0: if the alert passes the detection count and
    [min_tspan >= 0], [apply] returns [None] and logs a span equal to 0 under
    [tSpan], whatever [max_tspan] is. *)
Theorem flat_history_rejected self alert latest rest (j : Q) (js : list Q) :
  pps alert = latest :: rest ->
  passes (cut_ndet alert) self ->
  all_num (get_values alert "jd") = Some (j :: js) ->
  Forall (fun q => (q == j)%Q) js ->
  (0 <= min_tspan self)%Q ->
  exists t, (t == 0)%Q
    /\ apply self alert
       = (Returned None, log_append (mkLog INFO None "tSpan" (PNum t)) self).
Proof.
  intros Hpps Hnd Hn Hflat Hmin.
  exists (float_sub (py_max j js) (py_min j js)).
  assert (Hs : float_sub (py_max j js) (py_min j js) = 0%Q).
  { rewrite float_sub_max_min, <- round64_0. apply round64_Qeq.
    rewrite (fold_Qmax_flat j js Hflat), (fold_Qmin_flat j js Hflat).
    unfold Qminus. apply Qplus_opp_r. }
  split; [rewrite Hs; reflexivity|].
  pose proof (cut_tspan_run self alert j js Hn) as Hrun.
  assert (Hb : Qltb (min_tspan self) (float_sub (py_max j js) (py_min j js)) = false).
  { apply Qltb_ge. rewrite Hs. exact Hmin. }
  rewrite Hb in Hrun. cbn [andb negb] in Hrun.
  destruct (apply_stops_at alert latest rest self 1 (cut_tspan alert) Hpps eq_refl)
    as [H1 _].
  { cbn [take gates]. repeat constructor. exact Hnd. }
  apply H1, Hrun.
Qed.

(** X7. The sign of the subtraction.  The statement rejects exactly the
    two strings ['f'] and ['0'], logging the value under [isdiffpos]; every
    other value passes, among them the number 0 and the boolean [False],
    which are not equal to the string ['0']. *)
Theorem isdiffpos_cut self latest (v : pyval) :
  latest !! "isdiffpos" = Some v ->
  ((v = PStr "f" \/ v = PStr "0") ->
     cut_isdiffpos latest self
     = (Return None, log_append (mkLog INFO None "isdiffpos" v) self))
  /\ ((v <> PStr "f" /\ v <> PStr "0") -> cut_isdiffpos latest self = (Next tt, self))
  /\ ((v = PNum 0 \/ v = PBool false) -> cut_isdiffpos latest self = (Next tt, self)).
Proof.
  intros Hv.
  assert (Hno : (v <> PStr "f" /\ v <> PStr "0") -> cut_isdiffpos latest self = (Next tt, self)).
  { intros [Hf H0]. unfold cut_isdiffpos. norm. rewrite Hv.
    destruct v as [| | |s]; try reflexivity. cbn [py_eq_str].
    rewrite !bool_decide_eq_false_2 by congruence. reflexivity. }
  split; [|split; [exact Hno|]].
  - intros [->| ->]; unfold cut_isdiffpos; norm; rewrite Hv; reflexivity.
  - intros [->| ->]; apply Hno; split; discriminate.
Qed.

(** X8. The real-bogus cut.  With [rb] a number [x] the statement rejects,
    logging the value, exactly when [x < min_rb]: a score equal to [min_rb]
    passes.  An [rb] that is a string raises [TypeError]. *)
Theorem rb_cut self latest (v : pyval) :
  latest !! "rb" = Some v ->
  (forall x, as_num v = Some x ->
     ((x < min_rb self)%Q ->
        cut_rb latest self = (Return None, log_append (mkLog INFO None "rb" v) self))
     /\ ((min_rb self <= x)%Q -> cut_rb latest self = (Next tt, self)))
  /\ (forall s, v = PStr s -> cut_rb latest self = (Raise TypeError, self)).
Proof.
  intros Hv. split.
  - intros x Hx. split; intros H; unfold cut_rb; norm; rewrite Hv, Hx.
    + apply Qltb_lt in H. rewrite H. reflexivity.
    + apply Qltb_ge in H. rewrite H. reflexivity.
  - intros s ->. unfold cut_rb. norm. rewrite Hv. reflexivity.
Qed.

Lemma cut_magdiff_run self latest (v : pyval) (x : Q) :
  latest !! "magdiff" = Some v -> as_num v = Some x ->
  cut_magdiff latest self
  = if Qltb (max_magdiff self) (Qabs x)
    then (Return None, log_append (mkLog INFO None "magdiff" v) self)
    else (Next tt, self).
Proof.
  intros Hv Hx. unfold cut_magdiff. norm. rewrite Hv, Hx.
  destruct (Qltb _ _); reflexivity.
Qed.

(** X9. The image-quality cuts.  With [fwhm], [elong] and [magdiff]
    numbers: the [fwhm] statement rejects exactly when [fwhm > max_fwhm], the
    [elong] statement exactly when [elong > max_elong], the [magdiff]
    statement exactly when [|magdiff| > max_magdiff]; a value equal to its
    threshold passes; and the [magdiff] statement passes [m] exactly when it
    passes [-m]. *)
Theorem image_quality_cuts self latest (vf ve vm : pyval) (f e m : Q) :
  latest !! "fwhm" = Some vf -> as_num vf = Some f ->
  latest !! "elong" = Some ve -> as_num ve = Some e ->
  latest !! "magdiff" = Some vm -> as_num vm = Some m ->
  (((max_fwhm self < f)%Q ->
      cut_fwhm latest self = (Return None, log_append (mkLog INFO None "fwhm" vf) self))
   /\ ((f <= max_fwhm self)%Q -> cut_fwhm latest self = (Next tt, self)))
  /\ (((max_elong self < e)%Q ->
         cut_elong latest self = (Return None, log_append (mkLog INFO None "elong" ve) self))
      /\ ((e <= max_elong self)%Q -> cut_elong latest self = (Next tt, self)))
  /\ (((max_magdiff self < Qabs m)%Q ->
         cut_magdiff latest self
         = (Return None, log_append (mkLog INFO None "magdiff" vm) self))
      /\ ((Qabs m <= max_magdiff self)%Q -> cut_magdiff latest self = (Next tt, self)))
  /\ (forall latest' vm',
        latest' !! "magdiff" = Some vm' -> as_num vm' = Some (- m)%Q ->
        (passes (cut_magdiff latest') self <-> passes (cut_magdiff latest) self)).
Proof.
  intros Hf Nf He Ne Hm Nm.
  split; [split|split; [split|split; [split|]]].
  - intros H. unfold cut_fwhm. norm. rewrite Hf, Nf.
    apply Qltb_lt in H. rewrite H. reflexivity.
  - intros H. unfold cut_fwhm. norm. rewrite Hf, Nf.
    apply Qltb_ge in H. rewrite H. reflexivity.
  - intros H. unfold cut_elong. norm. rewrite He, Ne.
    apply Qltb_lt in H. rewrite H. reflexivity.
  - intros H. unfold cut_elong. norm. rewrite He, Ne.
    apply Qltb_ge in H. rewrite H. reflexivity.
  - intros H. rewrite (cut_magdiff_run self latest vm m Hm Nm).
    apply Qltb_lt in H. rewrite H. reflexivity.
  - intros H. rewrite (cut_magdiff_run self latest vm m Hm Nm).
    apply Qltb_ge in H. rewrite H. reflexivity.
  - intros latest' vm' Hm' Nm'. unfold passes.
    rewrite (cut_magdiff_run self latest' vm' (- m) Hm' Nm').
    rewrite (cut_magdiff_run self latest vm m Hm Nm).
    rewrite (Qltb_proper _ _ _ _ (Qeq_refl (max_magdiff self)) (Qabs_opp m)).
    destruct (Qltb (max_magdiff self) (Qabs m)); cbn [fst]; split; intros E;
      first [reflexivity|discriminate].
Qed.

(** X10. The deep-learning score, when it is asked for.  With
    [min_drb > 0]: a [drb] that is a number [x] is rejected, logging the
    value, exactly when [x < min_drb]; a [drb] that is there but [None] makes
    the statement raise [TypeError]; and on an alert whose five earlier
    statements pass, that [TypeError] is what [apply] raises, with nothing
    logged. *)
Theorem drb_cut_enabled self latest (v : pyval) :
  (0 < min_drb self)%Q ->
  latest !! "drb" = Some v ->
  (forall x, as_num v = Some x ->
     ((x < min_drb self)%Q ->
        cut_drb latest self = (Return None, log_append (mkLog INFO None "drb" v) self))
     /\ ((min_drb self <= x)%Q -> cut_drb latest self = (Next tt, self)))
  /\ (v = PNone ->
      cut_drb latest self = (Raise TypeError, self)
      /\ forall alert rest,
           pps alert = latest :: rest ->
           Forall (fun g => passes g self) (take 5 (gates alert latest)) ->
           apply self alert = (Raised TypeError, self)).
Proof.
  intros Hon Hv. apply Qltb_lt in Hon. split.
  - intros x Hx. split; intros H; unfold cut_drb; norm; rewrite Hon, Hv, Hx.
    + apply Qltb_lt in H. rewrite H. reflexivity.
    + apply Qltb_ge in H. rewrite H. reflexivity.
  - intros ->.
    assert (Hr : cut_drb latest self = (Raise TypeError, self)).
    { unfold cut_drb. norm. rewrite Hon, Hv. reflexivity. }
    split; [exact Hr|]. intros alert rest Hpps Hp.
    destruct (apply_stops_at alert latest rest self 5 (cut_drb latest) Hpps eq_refl Hp)
      as [_ H2].
    apply H2, Hr.
Qed.

(** ** More on the GAIA search *)

Lemma is_star_in_gaia_run self latest (vx vy : pyval) tc srcs wc :
  latest !! "ra" = Some vx -> latest !! "dec" = Some vy ->
  SkyCoord deg vx vy = inr tc ->
  cone_search (catshtm self) "GAIADR2" (ra_rad tc) (dec_rad tc) (gaia_rs self) = inr srcs ->
  gaia_SkyCoord srcs = inr wc ->
  is_star_in_gaia latest self
  = (Next (existsb (star_like self tc) wc), set_catshtm (S (catshtm self)) self).
Proof.
  intros Hx Hy Htc Hcs Hwc.
  unfold is_star_in_gaia, transient_SkyCoord, catshtm_cone_search.
  norm. rewrite Hx, Hy, Htc. norm. rewrite Hcs. norm.
  destruct srcs as [|s srcs].
  - cbn in Hwc. injection Hwc as <-. reflexivity.
  - cbn [length Nat.ltb Nat.leb]. rewrite Hwc. norm.
    change (gaia_any_flag (set_catshtm (S (catshtm self)) self) tc wc)
      with (gaia_any_flag self tc wc).
    rewrite gaia_any_flag_existsb.
    destruct (existsb (star_like self tc) wc); reflexivity.
Qed.

(** X11. What [is_star_in_gaia] answers.  When the cone search goes
    through, [is_star_in_gaia] answers [True] exactly when one of the sources
    returned is at once proximate (its separation is strictly below the float
    value of [1.8 + 0.6 * exp((20 - Mag_G) / 2.05)] and its magnitude is in
    the window), clean (excess-noise significance below the maximum) and
    significant in one of the three measurements: proper motion in right
    ascension, proper motion in declination (both against [gaia_pm_signif])
    or parallax (against [gaia_plx_signif]).  A measurement [x] with error
    [err] is significant against [t] when [err] is not zero and the absolute
    value of the float quotient [x / err] is above [t], or when [err] is zero
    and [x] is not.  An empty answer gives [False]; so does an answer all of
    whose sources are too noisy, whatever their proper motions.  In every
    case one cone search has been counted and nothing is logged. *)
Theorem is_star_in_gaia_iff self latest (vx vy : pyval) tc srcs wc :
  latest !! "ra" = Some vx -> latest !! "dec" = Some vy ->
  SkyCoord deg vx vy = inr tc ->
  cone_search (catshtm self) "GAIADR2" (ra_rad tc) (dec_rad tc) (gaia_rs self) = inr srcs ->
  gaia_SkyCoord srcs = inr wc ->
  exists b,
    is_star_in_gaia latest self = (Next b, set_catshtm (S (catshtm self)) self)
    /\ (b = true <-> exists s sc, In (s, sc) wc /\ gaia_star self tc s sc)
    /\ (srcs = [] -> b = false)
    /\ (Forall (fun s => (gaia_excessnoise_sig_max self <= ExcessNoiseSig s)%Q) srcs ->
        b = false).
Proof.
  intros Hx Hy Htc Hcs Hwc.
  exists (existsb (star_like self tc) wc).
  split; [apply (is_star_in_gaia_run self latest vx vy tc srcs wc); assumption|].
  assert (Hiff : existsb (star_like self tc) wc = true
                 <-> exists s sc, In (s, sc) wc /\ gaia_star self tc s sc).
  { rewrite existsb_exists. split.
    - intros ([s sc] & Hin & Hs). exists s, sc. split; [exact Hin|].
      apply star_like_gaia_star, Hs.
    - intros (s & sc & Hin & Hs). exists (s, sc). split; [exact Hin|].
      apply star_like_gaia_star, Hs. }
  split; [exact Hiff|]. split.
  - intros ->. cbn in Hwc. injection Hwc as <-. reflexivity.
  - intros Hnoisy. apply not_true_is_false. intros Hb.
    apply Hiff in Hb as (s & sc & Hin & _ & _ & Hclean & _).
    rewrite Forall_forall in Hnoisy.
    assert (Hs : s ∈ srcs).
    { rewrite <- (gaia_SkyCoord_fst srcs wc Hwc). apply list_elem_of_In.
      apply (in_map fst wc (s, sc) Hin). }
    exact (Qlt_not_le _ _ Hclean (Hnoisy s Hs)).
Qed.

(** X12. The table of [is_star_in_gaia] over two sets of sources.  The
    answer computed from the rows of two tables put together is the
    disjunction of the answers computed from each: a source more can turn the
    veto on, never off, and neither the order of the rows nor a repeated row
    changes the answer. *)
Theorem gaia_table_union self tc (wc1 wc2 : list (gaia_src * coord)) :
  gaia_any_flag self tc (wc1 ++ wc2)
  = gaia_any_flag self tc wc1 || gaia_any_flag self tc wc2
  /\ gaia_any_flag self tc (wc2 ++ wc1) = gaia_any_flag self tc (wc1 ++ wc2)
  /\ gaia_any_flag self tc (wc1 ++ wc1) = gaia_any_flag self tc wc1.
Proof.
  rewrite !gaia_any_flag_existsb, !existsb_app.
  split; [reflexivity|]. split; [apply orb_comm|apply orb_diag].
Qed.

(** X13. A failing catalog.  When the thirteen statements before the
    search pass and the catsHTM service fails, [apply] raises the failure of
    the service: it neither rejects nor accepts the alert, and logs
    nothing. *)
Theorem catalog_failure_propagates self alert latest rest (vx vy : pyval) tc (e : exn) :
  pps alert = latest :: rest ->
  Forall (fun g => passes g self) (take 13 (gates alert latest)) ->
  latest !! "ra" = Some vx -> latest !! "dec" = Some vy ->
  SkyCoord deg vx vy = inr tc ->
  cone_search (catshtm self) "GAIADR2" (ra_rad tc) (dec_rad tc) (gaia_rs self) = inl e ->
  apply self alert = (Raised e, set_catshtm (S (catshtm self)) self).
Proof.
  intros Hpps Hp Hx Hy Htc Hcs.
  unfold apply. rewrite (apply_reaches_gaia _ _ _ _ Hpps Hp).
  unfold bind, cut_star_in_gaia, is_star_in_gaia, transient_SkyCoord,
    catshtm_cone_search.
  norm. rewrite Hx, Hy, Htc. norm. rewrite Hcs. reflexivity.
Qed.

(** ** What a call of [apply] leaves behind *)

Ltac info_gate :=
  intros self r self'; exec; intros E; try discriminate E;
  injection E as <- <-; split; [reflexivity|]; eexists; split; reflexivity.

Lemma local_gates_info alert latest :
  Forall rejects_with_info (take 13 (gates alert latest)).
Proof.
  cbn [take gates]. repeat apply List.Forall_cons; try apply List.Forall_nil.
  - unfold cut_ndet. info_gate.
  - intros self r self'. unfold cut_tspan, max_minus_min.
    destruct (get_values alert "jd") as [|v vs]; [exec; discriminate|].
    destruct (all_num (v :: vs)) as [[|q qs]|]; exec; intros E; try discriminate E;
      injection E as <- <-; split; [reflexivity|]; eexists; split; reflexivity.
  - intros self r self'. unfold cut_keys, _alert_has_keys. norm.
    destruct (alert_has_keys_loop_run (keys_to_check self) latest) as [H|(rec & Hl & _ & H)];
      rewrite H; cbn [negb]; intros E; try discriminate E.
    injection E as <- <-. split; [reflexivity|]. exists rec. split; [reflexivity|exact Hl].
  - unfold cut_isdiffpos. info_gate.
  - unfold cut_rb. info_gate.
  - unfold cut_drb. info_gate.
  - unfold cut_fwhm. info_gate.
  - unfold cut_elong. info_gate.
  - unfold cut_magdiff. info_gate.
  - unfold cut_ssdistnr. info_gate.
  - unfold cut_gal_lat, get_galactic_latitude, transient_SkyCoord. info_gate.
  - unfold cut_star_in_PS1, is_star_in_PS1. info_gate.
  - unfold cut_confused_in_PS1, is_confused_in_PS1. info_gate.
Qed.

Lemma seq_steps_info (cs : list (M unit)) self r self' :
  Forall is_gate cs -> Forall rejects_with_info cs ->
  seq_steps cs self = (Return r, self') ->
  r = None /\ exists rec, self' = log_append rec self /\ log_level rec = INFO.
Proof.
  intros Hg Hi. induction cs as [|c cs IH]; simpl; [discriminate|].
  inversion Hg as [|? ? Hc Hcs]; subst. inversion Hi as [|? ? Hic Hics]; subst.
  unfold bind. destruct (c self) as [[[]|r0|e] s0] eqn:E.
  - assert (s0 = self) as ->.
    { pose proof (is_gate_passes c self Hc) as H. unfold passes in H.
      rewrite E in H. specialize (H eq_refl). congruence. }
    apply IH; assumption.
  - intros [= <- <-]. apply (Hic self r0 s0 E).
  - discriminate.
Qed.

Lemma seq_steps_raise (cs : list (M unit)) self e self' :
  Forall is_gate cs -> seq_steps cs self = (Raise e, self') -> self' = self.
Proof.
  intros Hg H. destruct (is_gate_run _ self (is_gate_seq_steps cs Hg)) as [v Hv].
  rewrite Hv in H. destruct v; cbn [settle] in H; congruence.
Qed.

Lemma seq_steps_next (cs : list (M unit)) self u self' :
  Forall is_gate cs -> seq_steps cs self = (Next u, self') ->
  self' = self /\ Forall (fun g => passes g self) cs.
Proof.
  intros Hg. induction cs as [|c cs IH]; simpl.
  - intros [= _ <-]. split; [reflexivity|constructor].
  - inversion Hg as [|? ? Hc Hcs]; subst. unfold bind.
    destruct (is_gate_run c self Hc) as [v Hv]. rewrite Hv.
    destruct v as [|r|e]; cbn [settle]; try discriminate.
    intros H. destruct (IH Hcs H) as [-> Hp]. split; [reflexivity|].
    constructor; [|exact Hp]. unfold passes. rewrite Hv. reflexivity.
Qed.

Lemma log_append_as_vary r self :
  log_append r self = vary (logger self ++ [r]) (catshtm self) (max_nbad self) self.
Proof. destruct self; reflexivity. Qed.

Lemma set_catshtm_as_vary n self :
  set_catshtm n self = vary (logger self) n (max_nbad self) self.
Proof. destruct self; reflexivity. Qed.

Lemma tail_footprint self latest :
  match (cut_star_in_gaia latest ;; accept latest) self with
  | (Next _, _) => False
  | (Return None, self') =>
      exists rec, self' = log_append rec (set_catshtm (S (catshtm self)) self)
                  /\ log_level rec = INFO
  | (Return (Some tags), self') =>
      tags = on_match_t2_units self
      /\ exists rec, self' = log_append rec (set_catshtm (S (catshtm self)) self)
                     /\ log_level rec = DEBUG
  | (Raise _, self') => self' = self \/ self' = set_catshtm (S (catshtm self)) self
  end.
Proof.
  unfold cut_star_in_gaia, accept, is_star_in_gaia, transient_SkyCoord,
    catshtm_cone_search.
  norm.
  destruct (latest !! "ra") as [ra|]; norm; [|left; reflexivity].
  destruct (latest !! "dec") as [dec|]; norm; [|left; reflexivity].
  destruct (SkyCoord deg ra dec) as [e|tc]; norm; [left; reflexivity|].
  destruct (cone_search (catshtm self) "GAIADR2" (ra_rad tc) (dec_rad tc) (gaia_rs self))
    as [e|srcs]; norm; [right; reflexivity|].
  destruct (0 <? length srcs)%nat; norm.
  - destruct (gaia_SkyCoord srcs) as [e|wc]; norm; [right; reflexivity|].
    destruct (gaia_any_flag _ tc wc); norm.
    + eexists. split; reflexivity.
    + destruct (latest !! "candid"); norm.
      * split; [reflexivity|]. eexists. split; reflexivity.
      * right. reflexivity.
  - destruct (latest !! "candid"); norm.
    + split; [reflexivity|]. eexists. split; reflexivity.
    + right. reflexivity.
Qed.

(** X14. What a call of [apply] leaves behind.  Whatever the instance and
    the alert: the instance after the call differs from the one before only
    in its logger and in the number of cone searches sent; at most one cone
    search is sent, and only for an alert that has passed the thirteen
    statements before it; a call that raises logs nothing, a call that
    returns logs one record, at level INFO when it rejects and at level DEBUG
    when it accepts; and what it returns when it accepts is
    [on_match_t2_units], after one cone search. *)
Theorem apply_footprint self (alert : AmpelAlert) :
  exists recs d,
    snd (apply self alert)
    = vary (logger self ++ recs) (d + catshtm self) (max_nbad self) self
    /\ (d = 0%nat
        \/ (d = 1%nat
            /\ exists latest rest,
                 pps alert = latest :: rest
                 /\ Forall (fun g => passes g self) (take 13 (gates alert latest))))
    /\ match fst (apply self alert) with
       | Returned None => exists r, recs = [r] /\ log_level r = INFO
       | Returned (Some tags) =>
           tags = on_match_t2_units self /\ d = 1%nat
           /\ exists r, recs = [r] /\ log_level r = DEBUG
       | Raised _ => recs = []
       end.
Proof.
  unfold apply. destruct (pps alert) as [|latest rest] eqn:Hpps.
  - rewrite (apply_body_nil _ _ Hpps). unfold bind.
    destruct (is_gate_run _ self (cut_ndet_gate alert)) as [v Hv].
    pose proof (local_gates_info alert ∅) as Hi. cbn [take gates] in Hi.
    inversion Hi as [|? ? Hnd _]; subst. clear Hi.
    rewrite Hv. destruct v as [|r|e]; cbn [settle raise fst snd].
    + exists [], 0%nat. rewrite app_nil_r, vary_same.
      split; [reflexivity|]. split; [left; reflexivity|reflexivity].
    + destruct (Hnd self None (log_append r self)) as (_ & rec & Hrec & Hlvl).
      { rewrite Hv. reflexivity. }
      exists [rec], 0%nat. rewrite Hrec, log_append_as_vary.
      split; [reflexivity|]. split; [left; reflexivity|]. exists rec. split; [reflexivity|exact Hlvl].
    + exists [], 0%nat. rewrite app_nil_r, vary_same.
      split; [reflexivity|]. split; [left; reflexivity|reflexivity].
  - rewrite (apply_body_gates _ _ _ _ Hpps).
    pose proof (local_gates alert latest) as Hg.
    pose proof (local_gates_info alert latest) as Hi.
    assert (Hb : (seq_steps (take 13 (gates alert latest)) ;;
                  (cut_star_in_gaia latest ;; accept latest)) self
                 = match seq_steps (take 13 (gates alert latest)) self with
                   | (Next _, s') => (cut_star_in_gaia latest ;; accept latest) s'
                   | (Return r, s') => (Return r, s')
                   | (Raise e, s') => (Raise e, s')
                   end) by reflexivity.
    rewrite Hb. clear Hb.
    destruct (seq_steps (take 13 (gates alert latest)) self) as [[[]|r|e] s0] eqn:E.
    + destruct (seq_steps_next _ _ _ _ Hg E) as [-> Hp].
      assert (Hsearched : 1%nat = 1%nat
                /\ exists latest0 rest0,
                     latest :: rest = latest0 :: rest0
                     /\ Forall (fun g => passes g self) (take 13 (gates alert latest0))).
      { split; [reflexivity|]. exists latest, rest. split; [reflexivity|exact Hp]. }
      pose proof (tail_footprint self latest) as Ht.
      destruct ((cut_star_in_gaia latest ;; accept latest) self) as [[[]|[tags|]|e] s1];
        cbv beta iota; cbn [fst snd].
      * contradiction.
      * destruct Ht as (-> & rec & -> & Hlvl).
        exists [rec], 1%nat. rewrite log_append_as_vary, set_catshtm_as_vary.
        cbn [vary logger catshtm max_nbad].
        split; [reflexivity|]. split; [right; exact Hsearched|].
        split; [reflexivity|]. split; [reflexivity|].
        exists rec. split; [reflexivity|exact Hlvl].
      * destruct Ht as (rec & -> & Hlvl).
        exists [rec], 1%nat. rewrite log_append_as_vary, set_catshtm_as_vary.
        cbn [vary logger catshtm max_nbad].
        split; [reflexivity|]. split; [right; exact Hsearched|].
        exists rec. split; [reflexivity|exact Hlvl].
      * destruct Ht as [->| ->].
        -- exists [], 0%nat. rewrite app_nil_r, vary_same.
           split; [reflexivity|]. split; [left; reflexivity|reflexivity].
        -- exists [], 1%nat. rewrite app_nil_r, set_catshtm_as_vary.
           split; [reflexivity|]. split; [right; exact Hsearched|reflexivity].
    + destruct (seq_steps_info _ _ _ _ Hg Hi E) as (-> & rec & -> & Hlvl).
      cbv beta iota. cbn [fst snd]. exists [rec], 0%nat. rewrite log_append_as_vary.
      split; [reflexivity|]. split; [left; reflexivity|].
      exists rec. split; [reflexivity|exact Hlvl].
    + rewrite (seq_steps_raise _ _ _ _ Hg E). cbv beta iota. cbn [fst snd].
      exists [], 0%nat. rewrite app_nil_r, vary_same.
      split; [reflexivity|]. split; [left; reflexivity|reflexivity].
Qed.

(** ** Looser thresholds *)

Ltac q_cases :=
  repeat (norm_state;
          match goal with
          | |- context [Qltb ?a ?b] => destruct (Qltb a b) eqn:?
          | |- context [Qleb ?a ?b] => destruct (Qleb a b) eqn:?
          end).

Ltac q_props :=
  repeat match goal with
    | H : Qltb _ _ = true |- _ => apply Qltb_lt in H
    | H : Qltb _ _ = false |- _ => apply Qltb_ge in H
    | H : Qleb _ _ = true |- _ => apply Qleb_le in H
    | H : Qleb _ _ = false |- _ => apply Qleb_gt in H
    end.

Ltac looser_leaf :=
  cbn [fst andb orb negb]; norm_state; cbn [fst];
  first [ reflexivity
        | discriminate
        | intros _; reflexivity
        | intros E; discriminate E
        | exfalso; q_props; lra
        | intros _; exfalso; q_props; lra ].

Ltac looser_gate :=
  unfold passes; norm_state;
  repeat (first [ match goal with
                  | |- context [match ?d !! ?k with _ => _ end] => destruct (d !! k) eqn:?
                  | |- context [match as_num ?v with _ => _ end] =>
                      destruct (as_num v) eqn:?
                  | |- context [match SkyCoord ?u ?x ?y with _ => _ end] =>
                      destruct (SkyCoord u x y) eqn:?
                  end ]; norm_state);
  q_cases;
  repeat match goal with
    | |- context [if ?b then _ else _] => destruct b eqn:?
    end;
  looser_leaf.

Lemma significant_le (x err t t' : Q) :
  (t <= t')%Q -> significant x err t' -> significant x err t.
Proof.
  intros Hle [[Hn H]|H]; [left|right; exact H].
  split; [exact Hn|]. apply Qle_lt_trans with t'; assumption.
Qed.

Lemma star_like_looser c c' lg lg' m m' tc x :
  looser c c' ->
  star_like (state c' lg' m') tc x = true -> star_like (state c lg m) tc x = true.
Proof.
  intros (_ & _ & _ & _ & _ & _ & _ & _ & _ & _ & _ & Hpm & Hplx & Hgmin & Hgmax
          & Hnoise & _).
  destruct x as [s sc]. rewrite !star_like_gaia_star. unfold gaia_star.
  cbn [state set_catshtm new_filter gaia_veto_gmag_min gaia_veto_gmag_max
       gaia_excessnoise_sig_max gaia_pm_signif gaia_plx_signif].
  intros (Hsep & [Hlo Hhi] & Hclean & Hflag).
  split; [exact Hsep|]. split; [split; lra|]. split; [lra|].
  destruct Hflag as [H|[H|H]].
  - left. exact (significant_le _ _ _ _ Hpm H).
  - right. left. exact (significant_le _ _ _ _ Hpm H).
  - right. right. exact (significant_le _ _ _ _ Hplx H).
Qed.

Lemma local_gates_looser c c' lg lg' n n' alert latest :
  looser c c' ->
  Forall (fun g => passes g (state c lg n)) (take 13 (gates alert latest)) ->
  Forall (fun g => passes g (state c' lg' n')) (take 13 (gates alert latest)).
Proof.
  intros (Hnd & Hts1 & Hts2 & Hrb & Hdrb & Hfw & Hel & Hmd & Hsso & Hgl & _ & _ & _ & _
          & _ & _ & Hrad & Hth & Hcr & Hct).
  cbn [take gates]. intros H.
  inversion H as [|? ? P1 G1]; clear H. inversion G1 as [|? ? P2 G2]; clear G1.
  inversion G2 as [|? ? P3 G3]; clear G2. inversion G3 as [|? ? P4 G4]; clear G3.
  inversion G4 as [|? ? P5 G5]; clear G4. inversion G5 as [|? ? P6 G6]; clear G5.
  inversion G6 as [|? ? P7 G7]; clear G6. inversion G7 as [|? ? P8 G8]; clear G7.
  inversion G8 as [|? ? P9 G9]; clear G8. inversion G9 as [|? ? P10 G10]; clear G9.
  inversion G10 as [|? ? P11 G11]; clear G10. inversion G11 as [|? ? P12 G12]; clear G11.
  inversion G12 as [|? ? P13 G13]; clear G12 G13. subst.
  repeat apply List.Forall_cons; try apply List.Forall_nil.
  - revert P1. unfold cut_ndet, passes. norm_state.
    destruct (_ <? MIN_NDET c)%Z eqn:E1; norm_state; cbn [fst]; [discriminate|].
    destruct (_ <? MIN_NDET c')%Z eqn:E2; norm_state; cbn [fst]; [|reflexivity].
    apply Z.ltb_ge in E1. apply Z.ltb_lt in E2. lia.
  - revert P2. unfold cut_tspan, max_minus_min, passes.
    destruct (get_values alert "jd") as [|v vs]; [looser_leaf|].
    destruct (all_num (v :: vs)) as [[|q qs]|]; norm_state; q_cases; looser_leaf.
  - revert P3. unfold cut_keys, _alert_has_keys, passes. norm_state.
    destruct (alert_has_keys_loop_run (keys_to_check (state c lg n)) latest)
      as [Hk|(r & _ & _ & Hk)]; rewrite !Hk; cbn [negb fst];
      [reflexivity|discriminate].
  - revert P4. unfold cut_isdiffpos. looser_gate.
  - revert P5. unfold cut_rb. looser_gate.
  - revert P6. unfold cut_drb. looser_gate.
  - revert P7. unfold cut_fwhm. looser_gate.
  - revert P8. unfold cut_elong. looser_gate.
  - revert P9. unfold cut_magdiff. looser_gate.
  - revert P10. unfold cut_ssdistnr. looser_gate.
  - revert P11. unfold cut_gal_lat, get_galactic_latitude, transient_SkyCoord. looser_gate.
  - revert P12. unfold cut_star_in_PS1, is_star_in_PS1. looser_gate.
  - revert P13. unfold cut_confused_in_PS1, is_confused_in_PS1. looser_gate.
Qed.

Lemma cut_star_in_gaia_returns_none self latest r self' :
  cut_star_in_gaia latest self = (Return r, self') -> r = None.
Proof.
  unfold cut_star_in_gaia, is_star_in_gaia, transient_SkyCoord, catshtm_cone_search.
  norm.
  destruct (latest !! "ra") as [ra|]; norm; [|discriminate].
  destruct (latest !! "dec") as [dec|]; norm; [|discriminate].
  destruct (SkyCoord deg ra dec) as [e|tc]; norm; [discriminate|].
  destruct (cone_search (catshtm self) "GAIADR2" (ra_rad tc) (dec_rad tc) (gaia_rs self))
    as [e|srcs]; norm; [discriminate|].
  destruct (0 <? length srcs)%nat; norm; [|discriminate].
  destruct (gaia_SkyCoord srcs) as [e|wc]; norm; [discriminate|].
  destruct (gaia_any_flag _ tc wc); norm; [|discriminate].
  intros [= <- _]. reflexivity.
Qed.

Lemma apply_accepted_inv self alert tags :
  fst (apply self alert) = Returned (Some tags) ->
  exists latest rest candid,
    pps alert = latest :: rest
    /\ Forall (fun g => passes g self) (gates alert latest)
    /\ latest !! "candid" = Some candid.
Proof.
  unfold apply. destruct (pps alert) as [|latest rest] eqn:Hpps.
  - rewrite (apply_body_nil _ _ Hpps). unfold bind.
    destruct (is_gate_run _ self (cut_ndet_gate alert)) as [v Hv]. rewrite Hv.
    destruct v; cbn [settle raise fst]; discriminate.
  - rewrite (apply_body_gates _ _ _ _ Hpps). unfold bind at 1.
    pose proof (local_gates alert latest) as Hg.
    destruct (seq_steps (take 13 (gates alert latest)) self) as [[[]|r|e] s0] eqn:E.
    + destruct (seq_steps_next _ _ _ _ Hg E) as [-> Hp].
      unfold bind. destruct (cut_star_in_gaia latest self) as [[[]|r|e] s1] eqn:Eg.
      * rewrite accept_run. destruct (latest !! "candid") as [candid|] eqn:Hc;
          cbn [fst]; [|discriminate].
        intros _. exists latest, rest, candid. split; [reflexivity|]. split; [|exact Hc].
        rewrite <- (take_drop 13 (gates alert latest)). apply Forall_app. split; [exact Hp|].
        cbn [drop gates]. repeat constructor. unfold passes. rewrite Eg. reflexivity.
      * cbn [fst]. intros [= ->].
        pose proof (cut_star_in_gaia_returns_none self latest _ _ Eg). discriminate.
      * cbn [fst]. discriminate.
    + destruct (seq_steps_info _ _ _ _ Hg (local_gates_info alert latest) E) as (-> & _).
      cbn [fst]. discriminate.
    + cbn [fst]. discriminate.
Qed.

(** ** The evaluation as a whole *)

Ltac reports :=
  intros E;
  first [ discriminate E
        | injection E as <- <-;
          split; [reflexivity|]; eexists; split; [reflexivity|];
          split; [reflexivity|]; cbn; auto ].

(** A statement of [apply] that returns: it returns [None], having logged
    one INFO record under a key of its gate; only the last statement has
    sent a cone search. *)
Lemma statement_rejects alert latest (i : nat) (g : M unit) self r self' :
  gates alert latest !! i = Some g ->
  g self = (Return r, self') ->
  r = None
  /\ exists rec,
       self' = log_append rec
                 (if (i <? 13)%nat then self else set_catshtm (S (catshtm self)) self)
       /\ log_level rec = INFO
       /\ In (log_key rec) (reason_keys (nth i gate_of_statement 0%nat)).
Proof.
  intros Hi.
  destruct i as [|[|[|[|[|[|[|[|[|[|[|[|[|[|i]]]]]]]]]]]]]];
    try discriminate Hi;
    injection Hi as <-; cbn [Nat.ltb Nat.leb nth gate_of_statement reason_keys].
  - unfold cut_ndet. exec; reports.
  - unfold cut_tspan, max_minus_min.
    destruct (get_values alert "jd") as [|v vs]; [exec; discriminate|].
    destruct (all_num (v :: vs)) as [[|q qs]|]; exec; reports.
  - unfold cut_keys, _alert_has_keys. norm.
    destruct (alert_has_keys_loop_run (keys_to_check self) latest)
      as [H|(rec & Hl & Hk & H)]; rewrite H; cbn [negb]; intros E; try discriminate E.
    injection E as <- <-. split; [reflexivity|]. exists rec. auto.
  - unfold cut_isdiffpos. exec; reports.
  - unfold cut_rb. exec; reports.
  - unfold cut_drb. exec; reports.
  - unfold cut_fwhm. exec; reports.
  - unfold cut_elong. exec; reports.
  - unfold cut_magdiff. exec; reports.
  - unfold cut_ssdistnr. exec; reports.
  - unfold cut_gal_lat, get_galactic_latitude, transient_SkyCoord. exec; reports.
  - unfold cut_star_in_PS1, is_star_in_PS1. exec; reports.
  - unfold cut_confused_in_PS1, is_confused_in_PS1. exec; reports.
  - unfold cut_star_in_gaia, is_star_in_gaia, transient_SkyCoord, catshtm_cone_search.
    norm.
    destruct (latest !! "ra") as [ra|]; norm; [|discriminate].
    destruct (latest !! "dec") as [dec|]; norm; [|discriminate].
    destruct (SkyCoord deg ra dec) as [e|tc]; norm; [discriminate|].
    destruct (cone_search (catshtm self) "GAIADR2" (ra_rad tc) (dec_rad tc) (gaia_rs self))
      as [e|srcs]; norm; [discriminate|].
    destruct (0 <? length srcs)%nat; norm; [|discriminate].
    destruct (gaia_SkyCoord srcs) as [e|wc]; norm; [discriminate|].
    destruct (gaia_any_flag _ tc wc); norm; [|discriminate].
    reports.
Qed.

(** C1. [apply] is the short-circuiting evaluation of the gates of
    section 4.1, in their order.  For an instance configured by [c], with
    [n] cone searches behind it, and any alert:
    - the first statement that does not pass decides: if the statements
      before the [i]-th pass and the [i]-th returns, [apply] returns [None],
      and the instance it leaves behind is the one that statement left: one
      INFO record under a key of the gate of the statement, and no cone
      search unless the statement is the GAIA one; if the [i]-th raises,
      [apply] raises the same exception; no assumption is made on the
      statements behind the [i]-th, which are not run;
    - [apply] returns a list of units only when it is [on_match_t2_units]
      and every one of the fourteen statements passes; and if they all pass
      and the latest detection carries its [candid], [apply] returns
      [on_match_t2_units];
    - on a well-formed alert [apply] returns;
    - whenever [apply] returns, [evaluate] (the twelve gates, tried in the
      order listed, the first that fails deciding) takes the same decision:
      if gate [k] is the first to fail, [apply] returns [None], and what it
      leaves behind is one INFO record under a key of gate [k] and no cone
      search unless [k] is the GAIA gate; if no gate fails, and only then,
      [apply] returns [on_match_t2_units], after the one cone search and
      the DEBUG record. *)
Theorem apply_implements_evaluate (c : InitConfig) (lg : list log_record) (n : nat)
    (alert : AmpelAlert) :
  (forall latest rest (i : nat) (g : M unit),
      pps alert = latest :: rest ->
      gates alert latest !! i = Some g ->
      Forall (fun g' => passes g' (state c lg n)) (take i (gates alert latest)) ->
      (forall r self',
          g (state c lg n) = (Return r, self') ->
          apply (state c lg n) alert = (Returned None, self')
          /\ exists rec,
               self' = log_append rec (state c lg (if (i <? 13)%nat then n else S n))
               /\ log_level rec = INFO
               /\ In (log_key rec) (reason_keys (nth i gate_of_statement 0%nat)))
      /\ (forall e self',
             g (state c lg n) = (Raise e, self') ->
             apply (state c lg n) alert = (Raised e, self')))
  /\ (forall tags,
        fst (apply (state c lg n) alert) = Returned (Some tags) ->
        tags = on_match_t2_units (state c lg n)
        /\ exists latest rest,
             pps alert = latest :: rest
             /\ Forall (fun g => passes g (state c lg n)) (gates alert latest))
  /\ (forall latest rest candid,
        pps alert = latest :: rest ->
        Forall (fun g => passes g (state c lg n)) (gates alert latest) ->
        latest !! "candid" = Some candid ->
        fst (apply (state c lg n) alert)
        = Returned (Some (on_match_t2_units (state c lg n))))
  /\ (well_formed c n alert ->
      exists r self', apply (state c lg n) alert = (Returned r, self'))
  /\ (forall r self',
        apply (state c lg n) alert = (Returned r, self') ->
        match evaluate alert c (catalog_at n) with
        | Rejected k =>
            r = None
            /\ exists rec,
                 self' = log_append rec (state c lg (if (k <? 12)%nat then n else S n))
                 /\ log_level rec = INFO /\ In (log_key rec) (reason_keys k)
        | Accepted tags =>
            r = Some (on_match_t2_units (state c lg n))
            /\ tags = on_match_t2_units (state c lg n)
            /\ exists candid,
                 latest_detection alert !! "candid" = Some candid
                 /\ self' = log_append
                              (mkLog DEBUG (Some "Alert accepted") "latestPpId" candid)
                              (state c lg (S n))
        end).
Proof.
  split; [|split; [|split]].
  - intros latest rest i g Hpps Hi Hp.
    assert (Hstop :
      (forall r s', g (state c lg n) = (Return r, s') ->
                    apply (state c lg n) alert = (Returned r, s'))
      /\ (forall e s', g (state c lg n) = (Raise e, s') ->
                       apply (state c lg n) alert = (Raised e, s'))).
    { destruct (decide (i < 13)%nat) as [Hlt|Hge].
      - apply (apply_stops_at alert latest rest (state c lg n) i g Hpps); [|exact Hp].
        rewrite lookup_take_lt by exact Hlt. exact Hi.
      - assert (i = 13%nat) as ->.
        { apply lookup_lt_Some in Hi. cbn [length gates] in Hi. lia. }
        cbn [gates] in Hi. injection Hi as <-.
        unfold apply. rewrite (apply_reaches_gaia _ _ _ _ Hpps Hp). unfold bind.
        split; intros ? ? ->; reflexivity. }
    destruct Hstop as [H1 H2]. split; [|exact H2].
    intros r self' Hg.
    destruct (statement_rejects alert latest i g _ _ _ Hi Hg) as (-> & rec & Hrec & Hl & Hk).
    split; [exact (H1 _ _ Hg)|]. exists rec. split; [|split; assumption].
    rewrite Hrec. destruct (i <? 13)%nat; reflexivity.
  - intros tags Hacc.
    destruct (apply_accepted_inv _ _ _ Hacc) as (latest & rest & candid & Hpps & Hp & Hc).
    rewrite (apply_accepts _ alert latest rest candid Hpps Hp Hc) in Hacc.
    cbn [fst] in Hacc. injection Hacc as <-.
    split; [reflexivity|]. exists latest, rest. split; assumption.
  - intros latest rest candid Hpps Hp Hc.
    rewrite (apply_accepts _ alert latest rest candid Hpps Hp Hc). reflexivity.
  - pose proof (apply_body_implements c lg n alert) as H.
    unfold apply. destruct (apply_body alert (state c lg n)) as [[[]|r0|e] s0];
      cbn [implements] in H.
    + contradiction.
    + split; [eauto|]. intros r self' [= <- <-].
      destruct (evaluate alert c (catalog_at n)) as [k|tags] eqn:Hev.
      * exact H.
      * destruct H as (-> & candid & Hc & ->).
        assert (Ht : tags = on_match_t2_units (state c lg n)).
        { unfold evaluate in Hev. destruct (first_failing _ _ _ _ _); [discriminate|].
          injection Hev as <-. reflexivity. }
        rewrite <- Ht. repeat split. exists candid. split; [exact Hc|reflexivity].
    + split; [intros Hwf; contradiction|]. intros r self' [=].
Qed.

Lemma cut_star_in_gaia_looser c c' lg lg' n latest :
  looser c c' ->
  passes (cut_star_in_gaia latest) (state c lg n) ->
  passes (cut_star_in_gaia latest) (state c' lg' n).
Proof.
  intros Hl. pose proof Hl as (_ & _ & _ & _ & _ & _ & _ & _ & _ & _ & Hrs & _).
  unfold passes, cut_star_in_gaia, is_star_in_gaia, transient_SkyCoord,
    catshtm_cone_search.
  norm_state.
  destruct (latest !! "ra") as [ra|]; norm_state; [|discriminate].
  destruct (latest !! "dec") as [dec|]; norm_state; [|discriminate].
  destruct (SkyCoord deg ra dec) as [e|tc]; norm_state; [discriminate|].
  rewrite Hrs.
  destruct (cone_search n "GAIADR2" (ra_rad tc) (dec_rad tc) (GAIA_RS c))
    as [e|srcs]; norm_state; [discriminate|].
  destruct (0 <? length srcs)%nat; norm_state; [|reflexivity].
  destruct (gaia_SkyCoord srcs) as [e|wc]; norm_state; [discriminate|].
  rewrite !gaia_any_flag_existsb.
  match goal with
  | |- context [existsb (star_like ?s1 tc) wc] =>
      destruct (existsb (star_like s1 tc) wc) eqn:E1
  end; norm_state; cbn [fst]; [discriminate|].
  intros _.
  match goal with
  | |- context [existsb (star_like ?s2 tc) wc] =>
      destruct (existsb (star_like s2 tc) wc) eqn:E2
  end; norm_state; [|reflexivity].
  exfalso.
  change (existsb (star_like (state c lg (S n)) tc) wc = false) in E1.
  change (existsb (star_like (state c' lg' (S n)) tc) wc = true) in E2.
  apply existsb_exists in E2 as (x0 & Hin & Hs).
  assert (E : existsb (star_like (state c lg (S n)) tc) wc = true).
  { apply existsb_exists. exists x0. split; [exact Hin|].
    eapply star_like_looser; [exact Hl|exact Hs]. }
  congruence.
Qed.

(** X15. Looser thresholds keep what was accepted.  If [apply] accepts an
    alert under a configuration [c], it accepts it under every
    configuration [c'] that is at most as strict (smaller minima, larger
    maxima, a narrower GAIA magnitude window and noise limit, higher
    significance thresholds, the same search radius), with the catalog
    answering alike: no exception can appear, and the units returned are
    those of [c']. *)
Theorem loosening_keeps_acceptance (c c' : InitConfig) lg lg' n alert tags :
  looser c c' ->
  fst (apply (state c lg n) alert) = Returned (Some tags) ->
  fst (apply (state c' lg' n) alert) = Returned (Some (t2Compute c')).
Proof.
  intros Hl Hacc.
  destruct (apply_accepted_inv _ _ _ Hacc) as (latest & rest & candid & Hpps & Hp & Hc).
  rewrite (apply_accepts (state c' lg' n) alert latest rest candid Hpps); [reflexivity| |exact Hc].
  rewrite <- (take_drop 13 (gates alert latest)) in Hp. apply Forall_app in Hp as [Hloc Hg].
  rewrite <- (take_drop 13 (gates alert latest)). apply Forall_app. split.
  - apply (local_gates_looser c c' lg lg' n n alert latest Hl Hloc).
  - cbn [drop gates] in *. inversion Hg as [|? ? Hg1 _]; subst.
    repeat constructor. apply (cut_star_in_gaia_looser c c' lg lg' n latest Hl Hg1).
Qed.

Lemma all_num_Permutation (vs vs' : list pyval) :
  Permutation vs vs' ->
  match all_num vs, all_num vs' with
  | Some qs, Some qs' => Permutation qs qs'
  | None, None => True
  | _, _ => False
  end.
Proof.
  induction 1 as [|x l l' _ IH|x y l|l l' l'' _ IH1 _ IH2]; cbn [all_num].
  - constructor.
  - destruct (as_num x), (all_num l), (all_num l'); try exact I; try contradiction.
    constructor. exact IH.
  - destruct (as_num x), (as_num y), (all_num l); try exact I. apply perm_swap.
  - destruct (all_num l), (all_num l'), (all_num l''); try exact I; try contradiction.
    etransitivity; eassumption.
Qed.

Lemma fold_Qmax_bound (j : Q) (js : list Q) :
  (forall x, In x (j :: js) -> (x <= fold_right Qmax j js)%Q)
  /\ (exists x, In x (j :: js) /\ (x == fold_right Qmax j js)%Q).
Proof.
  induction js as [|q js [IHu (x & Hx & Ex)]]; cbn [fold_right].
  - split.
    + intros x [<-|[]]. apply Qle_refl.
    + exists j. split; [left; reflexivity|reflexivity].
  - split.
    + intros y [<-|[<-|Hy]].
      * eapply Qle_trans; [apply IHu; left; reflexivity|apply Q.le_max_r].
      * apply Q.le_max_l.
      * eapply Qle_trans; [apply IHu; right; exact Hy|apply Q.le_max_r].
    + destruct (Q.max_spec q (fold_right Qmax j js)) as [[_ E]|[_ E]].
      * exists x. split; [|rewrite E; exact Ex].
        destruct Hx as [<-|Hx]; [left; reflexivity|right; right; exact Hx].
      * exists q. split; [right; left; reflexivity|rewrite E; reflexivity].
Qed.

Lemma fold_Qmin_bound (j : Q) (js : list Q) :
  (forall x, In x (j :: js) -> (fold_right Qmin j js <= x)%Q)
  /\ (exists x, In x (j :: js) /\ (x == fold_right Qmin j js)%Q).
Proof.
  induction js as [|q js [IHu (x & Hx & Ex)]]; cbn [fold_right].
  - split.
    + intros x [<-|[]]. apply Qle_refl.
    + exists j. split; [left; reflexivity|reflexivity].
  - split.
    + intros y [<-|[<-|Hy]].
      * eapply Qle_trans; [apply Q.le_min_r|apply IHu; left; reflexivity].
      * apply Q.le_min_l.
      * eapply Qle_trans; [apply Q.le_min_r|apply IHu; right; exact Hy].
    + destruct (Q.min_spec q (fold_right Qmin j js)) as [[_ E]|[_ E]].
      * exists q. split; [right; left; reflexivity|rewrite E; reflexivity].
      * exists x. split; [|rewrite E; exact Ex].
        destruct Hx as [<-|Hx]; [left; reflexivity|right; right; exact Hx].
Qed.

Lemma fold_Qmax_Permutation (j j' : Q) (js js' : list Q) :
  Permutation (j :: js) (j' :: js') ->
  (fold_right Qmax j js == fold_right Qmax j' js')%Q.
Proof.
  intros Hp.
  destruct (fold_Qmax_bound j js) as [U (x & Hx & Ex)].
  destruct (fold_Qmax_bound j' js') as [U' (x' & Hx' & Ex')].
  apply Qle_antisym.
  - rewrite <- Ex. apply U'. eapply Permutation_in; [exact Hp|exact Hx].
  - rewrite <- Ex'. apply U. eapply Permutation_in; [symmetry; exact Hp|exact Hx'].
Qed.

Lemma fold_Qmin_Permutation (j j' : Q) (js js' : list Q) :
  Permutation (j :: js) (j' :: js') ->
  (fold_right Qmin j js == fold_right Qmin j' js')%Q.
Proof.
  intros Hp.
  destruct (fold_Qmin_bound j js) as [U (x & Hx & Ex)].
  destruct (fold_Qmin_bound j' js') as [U' (x' & Hx' & Ex')].
  apply Qle_antisym.
  - rewrite <- Ex'. apply U. eapply Permutation_in; [symmetry; exact Hp|exact Hx'].
  - rewrite <- Ex. apply U'. eapply Permutation_in; [exact Hp|exact Hx].
Qed.

(** The history-span statement on two alerts whose photopoints are a
    permutation of each other: the same outcome, and the same instance unless
    it rejects (the span logged is then an equal number). *)
Lemma cut_tspan_Permutation (a a' : AmpelAlert) self :
  Permutation (pps a) (pps a') ->
  cut_tspan a self = cut_tspan a' self
  \/ (fst (cut_tspan a self) = Return None /\ fst (cut_tspan a' self) = Return None).
Proof.
  intros Hp.
  assert (Hv : Permutation (get_values a "jd") (get_values a' "jd")).
  { unfold get_values. rewrite Hp. reflexivity. }
  pose proof (all_num_Permutation _ _ Hv) as Hn.
  unfold cut_tspan, max_minus_min.
  destruct (get_values a "jd") as [|v vs] eqn:E, (get_values a' "jd") as [|v' vs'] eqn:E'.
  - left. reflexivity.
  - apply Permutation_nil in Hv. discriminate.
  - symmetry in Hv. apply Permutation_nil in Hv. discriminate.
  - destruct (all_num (v :: vs)) as [[|q qs]|], (all_num (v' :: vs')) as [[|q' qs']|];
      try contradiction; try (left; reflexivity).
    + apply Permutation_nil in Hn. discriminate.
    + symmetry in Hn. apply Permutation_nil in Hn. discriminate.
    + assert (Hs : float_sub (py_max q qs) (py_min q qs)
                   = float_sub (py_max q' qs') (py_min q' qs')).
      { rewrite !float_sub_max_min. apply round64_Qeq.
        rewrite (fold_Qmax_Permutation q q' qs qs' Hn),
          (fold_Qmin_Permutation q q' qs qs' Hn).
        reflexivity. }
      norm. rewrite Hs. left. reflexivity.
Qed.

(** X16. Only the first photopoint has a place.  [apply] reads the
    photopoints as a collection (their number, the largest and the smallest
    Julian date) and the first of them as the latest detection.  Reordering
    the photopoints behind the first one, and changing the upper limits,
    changes neither the value returned nor the exception raised. *)
Theorem history_order_irrelevant self latest (rest rest' ul ul' : list photopoint) :
  Permutation rest rest' ->
  fst (apply self (mkAlert (latest :: rest) ul))
  = fst (apply self (mkAlert (latest :: rest') ul')).
Proof.
  intros Hp.
  assert (Hpp : Permutation (pps (mkAlert (latest :: rest) ul))
                            (pps (mkAlert (latest :: rest') ul'))).
  { cbn [pps]. constructor. exact Hp. }
  unfold apply, apply_body.
  assert (Hnd : cut_ndet (mkAlert (latest :: rest) ul)
                = cut_ndet (mkAlert (latest :: rest') ul')).
  { unfold cut_ndet. rewrite (Permutation_length Hpp). reflexivity. }
  rewrite Hnd.
  set (K := fun l : photopoint =>
              (cut_keys l ;; cut_isdiffpos l ;; cut_rb l ;; cut_drb l ;; cut_fwhm l ;;
               cut_elong l ;; cut_magdiff l ;; cut_ssdistnr l ;; cut_gal_lat l ;;
               cut_star_in_PS1 l ;; cut_confused_in_PS1 l ;; cut_star_in_gaia l ;;
               accept l)).
  change (fst (match (cut_ndet (mkAlert (latest :: rest') ul') ;;
                      cut_tspan (mkAlert (latest :: rest) ul) ;; K latest) self with
               | (Next _, s) => (Returned None, s)
               | (Return r, s) => (Returned r, s)
               | (Raise e, s) => (Raised e, s)
               end)
          = fst (match (cut_ndet (mkAlert (latest :: rest') ul') ;;
                        cut_tspan (mkAlert (latest :: rest') ul') ;; K latest) self with
                 | (Next _, s) => (Returned None, s)
                 | (Return r, s) => (Returned r, s)
                 | (Raise e, s) => (Raised e, s)
                 end)).
  unfold bind.
  destruct (cut_ndet (mkAlert (latest :: rest') ul') self) as [[[]|r|e] s]; try reflexivity.
  destruct (cut_tspan_Permutation _ _ s Hpp) as [E|[E1 E2]].
  - rewrite E. reflexivity.
  - destruct (cut_tspan (mkAlert (latest :: rest) ul) s) as [o1 s1],
      (cut_tspan (mkAlert (latest :: rest') ul') s) as [o2 s2].
    cbn [fst] in E1, E2. subst o1 o2. reflexivity.
Qed.

End Properties.

(** * Properties of T2RunPossis.process *)

Section PossisProperties.

Import T2RunPossis.

Context {env : Environment}.

Abbreviation Self := (T2RunPossis Model Inherited).

Ltac t2norm :=
  cbv [bind ret raise py_return attr lift logger_debug logger_info
       assign_explosion_time_jd sncosmo_model_set_t0 fit_params_remove];
  cbn [explosion_time_jd sncosmo_model fit_params logger inherited
       set_explosion_time_jd set_sncosmo_model set_fit_params log_append].

Lemma visit_other (v : T2DocView) (self : Self) :
  other_unit v -> visit v self = (Next tt, self).
Proof.
  intros H. unfold visit. rewrite bool_decide_eq_false_2 by exact H. reflexivity.
Qed.

Lemma for_views_skip (pre rest : list T2DocView) (self : Self) :
  Forall other_unit pre -> for_views (pre ++ rest) self = for_views rest self.
Proof.
  induction 1 as [|v pre Hv _ IH]; [reflexivity|].
  cbn [app for_views]. unfold bind. rewrite (visit_other v self Hv). exact IH.
Qed.

Lemma for_views_others (vs : list T2DocView) (self : Self) :
  Forall other_unit vs -> for_views vs self = (Next tt, self).
Proof.
  intros H. rewrite <- (app_nil_r vs). rewrite (for_views_skip vs [] self H). reflexivity.
Qed.

Lemma process_run (self : Self) lc vs :
  explosion_time_jd self = StockTriggerTime ->
  process self lc vs
  = match for_views vs self with
    | (Next _, self') => super_process self' lc vs
    | (Return r, self') => (inr r, self')
    | (Raise e, self') => (inl e, self')
    end.
Proof.
  intros H. unfold process, bind, attr. rewrite H. reflexivity.
Qed.

Lemma process_fixed (self : Self) lc vs :
  explosion_time_jd self <> StockTriggerTime ->
  process self lc vs = super_process self lc vs.
Proof.
  intros H. unfold process, bind, attr.
  destruct (explosion_time_jd self); [reflexivity|reflexivity|contradiction].
Qed.

Lemma payload_carries (v : T2DocView) (d : gmap string UBson) :
  carries v d ->
  match get_payload v with
  | BList res => lift (getitem_last res)
  | res => ret res
  end = ret (BDict d).
Proof.
  intros [_ [Hp|[res Hp]]]; rewrite Hp; [reflexivity|].
  unfold getitem_last. rewrite last_snoc. reflexivity.
Qed.

Lemma visit_missing (v : T2DocView) (d : gmap string UBson) (self : Self) :
  carries v d ->
  d !! "explosion_time" = None ->
  visit v self
  = (Return (UnitResult T2_MISSING_INFO),
     log_append (mkLog INFO "No explosion time" (Extra_t2res (BDict d)))
       (log_append (mkLog DEBUG "Parsing t2 results from T2PropagateStockInfo" NoExtra)
          self)).
Proof.
  intros Hc Hd. pose proof Hc as [Hu _]. unfold visit.
  rewrite bool_decide_eq_true_2 by exact Hu. cbn [negb].
  rewrite (payload_carries v d Hc), Hu. t2norm. cbn [keys]. rewrite Hd. reflexivity.
Qed.

Lemma visit_adopt (v : T2DocView) (d : gmap string UBson) tv (x : Q) (self : Self) :
  carries v d ->
  d !! "explosion_time" = Some tv ->
  reads_as tv x ->
  visit v self
  = let self2 :=
      log_append (mkLog DEBUG "reset explosion time" (Extra_explosion_time (ExplFloat x)))
        (set_explosion_time_jd (ExplFloat x)
           (log_append
              (mkLog DEBUG "Parsing t2 results from T2PropagateStockInfo" NoExtra) self)) in
    match Model_set_t0 (sncosmo_model self) (ExplFloat x) with
    | inl e => (Raise e, self2)
    | inr m =>
        match list_remove "t0" (fit_params self) with
        | None => (Raise ValueError, set_sncosmo_model m self2)
        | Some ps => (Next tt, set_fit_params ps (set_sncosmo_model m self2))
        end
    end.
Proof.
  intros Hc Hd Hr. pose proof Hc as [Hu _]. unfold visit.
  rewrite bool_decide_eq_true_2 by exact Hu. cbn [negb].
  rewrite (payload_carries v d Hc), Hu. t2norm. cbn [keys]. rewrite Hd.
  destruct Hr as [->|(s & -> & Ht)]; [|rewrite Ht]; t2norm;
    (destruct (Model_set_t0 (sncosmo_model self) (ExplFloat x)); t2norm; [reflexivity|];
     destruct (list_remove "t0" (fit_params self)); reflexivity).
Qed.

Lemma visit_unread (v : T2DocView) (d : gmap string UBson) tv (self : Self) :
  carries v d ->
  d !! "explosion_time" = Some tv ->
  (forall x, tv <> BFloat x) ->
  (forall s, tv <> BStr s) ->
  visit v self
  = let self2 :=
      log_append
        (mkLog DEBUG "reset explosion time" (Extra_explosion_time (explosion_time_jd self)))
        (log_append
           (mkLog DEBUG "Parsing t2 results from T2PropagateStockInfo" NoExtra) self) in
    match Model_set_t0 (sncosmo_model self) (explosion_time_jd self) with
    | inl e => (Raise e, self2)
    | inr m =>
        match list_remove "t0" (fit_params self) with
        | None => (Raise ValueError, set_sncosmo_model m self2)
        | Some ps => (Next tt, set_fit_params ps (set_sncosmo_model m self2))
        end
    end.
Proof.
  intros Hc Hd Hf Hs. pose proof Hc as [Hu _]. unfold visit.
  rewrite bool_decide_eq_true_2 by exact Hu. cbn [negb].
  rewrite (payload_carries v d Hc), Hu. t2norm. cbn [keys]. rewrite Hd.
  destruct tv as [| | |x|s| |]; try (exfalso; eapply Hf; reflexivity);
    try (exfalso; eapply Hs; reflexivity); t2norm;
    (destruct (Model_set_t0 (sncosmo_model self) (explosion_time_jd self)); t2norm;
     [reflexivity|]; destruct (list_remove "t0" (fit_params self)); reflexivity).
Qed.

Lemma list_remove_None (x : string) (l : list string) :
  ~ In x l -> list_remove x l = None.
Proof.
  induction l as [|y l IH]; intros H; [reflexivity|].
  cbn [list_remove]. rewrite bool_decide_eq_false_2.
  - rewrite IH; [reflexivity|]. intros Hin. apply H. right. exact Hin.
  - intros ->. apply H. left. reflexivity.
Qed.

Lemma list_remove_sublist (x : string) (l ps : list string) :
  list_remove x l = Some ps -> sublist ps l.
Proof.
  revert ps. induction l as [|y l IH]; intros ps H; [discriminate|].
  cbn [list_remove] in H. destruct (bool_decide (y = x)).
  - injection H as <-. apply sublist_cons. reflexivity.
  - destruct (list_remove x l) as [r|]; [|discriminate]. injection H as <-.
    apply sublist_skip. apply IH. reflexivity.
Qed.

Lemma list_remove_NoDup (x : string) (l ps : list string) :
  NoDup l -> list_remove x l = Some ps -> ~ In x ps.
Proof.
  intros Hnd. revert ps. induction Hnd as [|y l Hy Hnd IH]; intros ps H; [discriminate|].
  cbn [list_remove] in H. destruct (bool_decide (y = x)) eqn:E.
  - injection H as <-. apply bool_decide_eq_true_1 in E. subst y.
    intros Hin. apply Hy. apply list_elem_of_In. exact Hin.
  - destruct (list_remove x l) as [r|]; [|discriminate]. injection H as <-.
    apply bool_decide_eq_false_1 in E.
    intros [Hin|Hin]; [contradiction|]. exact (IH r eq_refl Hin).
Qed.

(** X17. Nothing to take.  When [explosion_time_jd] is not the string
    ['StockTriggerTime'] (it is [None] or a float), or when no view is of the
    unit T2PropagateStockInfo, [process] is the [process] of the parent class
    on the instance as it is: nothing is logged, the model and the fit
    parameters are not touched. *)
Theorem process_delegates (self : Self) (lc : LightCurve) (t2_views : list T2DocView) :
  explosion_time_jd self <> StockTriggerTime \/ Forall other_unit t2_views ->
  process self lc t2_views = super_process self lc t2_views.
Proof.
  intros [H|H]; [exact (process_fixed self lc t2_views H)|].
  destruct (explosion_time_jd self) eqn:E;
    try (apply process_fixed; rewrite E; discriminate).
  rewrite (process_run self lc t2_views E), (for_views_others t2_views self H).
  reflexivity.
Qed.

(** X18. No explosion time.  With [explosion_time_jd] the string
    ['StockTriggerTime'], when the first view of T2PropagateStockInfo carries
    a dict without the key [explosion_time], [process] returns
    [UnitResult(code=T2_MISSING_INFO)] at once: the parent class is not
    called, the views behind are not read, the model and the fit parameters
    are as they were, and two records are logged (the debug line of the view
    and the info line with the payload). *)
Theorem missing_explosion_time (self : Self) (lc : LightCurve)
    (pre post : list T2DocView) (v : T2DocView) (d : gmap string UBson) :
  explosion_time_jd self = StockTriggerTime ->
  Forall other_unit pre ->
  carries v d ->
  d !! "explosion_time" = None ->
  process self lc (pre ++ v :: post)
  = (inr (UnitResult T2_MISSING_INFO),
     log_append (mkLog INFO "No explosion time" (Extra_t2res (BDict d)))
       (log_append (mkLog DEBUG "Parsing t2 results from T2PropagateStockInfo" NoExtra)
          self)).
Proof.
  intros He Hpre Hc Hd.
  rewrite (process_run self lc _ He), (for_views_skip pre (v :: post) self Hpre).
  cbn [for_views]. unfold bind. rewrite (visit_missing v d self Hc Hd). reflexivity.
Qed.

Lemma for_views_adopt (self : Self) (pre post : list T2DocView) (v : T2DocView)
    (d : gmap string UBson) (tv : UBson) (x : Q) (m : Model) (ps : list string) :
  Forall other_unit pre ->
  carries v d ->
  d !! "explosion_time" = Some tv ->
  reads_as tv x ->
  Model_set_t0 (sncosmo_model self) (ExplFloat x) = inr m ->
  list_remove "t0" (fit_params self) = Some ps ->
  for_views (pre ++ v :: post) self
  = for_views post
      (set_fit_params ps
         (set_sncosmo_model m
            (log_append
               (mkLog DEBUG "reset explosion time" (Extra_explosion_time (ExplFloat x)))
               (set_explosion_time_jd (ExplFloat x)
                  (log_append
                     (mkLog DEBUG "Parsing t2 results from T2PropagateStockInfo" NoExtra)
                     self))))).
Proof.
  intros Hpre Hc Hd Hr Hm Hps.
  rewrite (for_views_skip pre (v :: post) self Hpre).
  cbn [for_views]. unfold bind. rewrite (visit_adopt v d tv x self Hc Hd Hr).
  cbv zeta. rewrite Hm, Hps. reflexivity.
Qed.

(** X19. The explosion time is taken.  With [explosion_time_jd] the
    string ['StockTriggerTime'] and one view of T2PropagateStockInfo whose
    dict has a float under [explosion_time], or a string that [Time] reads:
    if the model accepts the date and ['t0'] is among the fit parameters,
    [process] is the [process] of the parent class on the instance with
    [explosion_time_jd] that Julian date, the model set to it, the first
    ['t0'] gone from [fit_params], and two debug records logged. *)
Theorem explosion_time_adopted (self : Self) (lc : LightCurve)
    (pre post : list T2DocView) (v : T2DocView)
    (d : gmap string UBson) (tv : UBson) (x : Q) (m : Model) (ps : list string) :
  explosion_time_jd self = StockTriggerTime ->
  Forall other_unit pre ->
  Forall other_unit post ->
  carries v d ->
  d !! "explosion_time" = Some tv ->
  reads_as tv x ->
  Model_set_t0 (sncosmo_model self) (ExplFloat x) = inr m ->
  list_remove "t0" (fit_params self) = Some ps ->
  process self lc (pre ++ v :: post)
  = super_process
      (mkUnit (ExplFloat x) m ps
         (logger self
          ++ [mkLog DEBUG "Parsing t2 results from T2PropagateStockInfo" NoExtra;
              mkLog DEBUG "reset explosion time" (Extra_explosion_time (ExplFloat x))])
         (inherited self))
      lc (pre ++ v :: post).
Proof.
  intros He Hpre Hpost Hc Hd Hr Hm Hps.
  rewrite (process_run self lc _ He),
    (for_views_adopt self pre post v d tv x m ps Hpre Hc Hd Hr Hm Hps),
    (for_views_others post _ Hpost).
  unfold set_fit_params, set_sncosmo_model, log_append, set_explosion_time_jd.
  cbn [explosion_time_jd sncosmo_model fit_params logger inherited].
  rewrite <- app_assoc. reflexivity.
Qed.

(** X20. The explosion time is taken once.  After a call that took the
    explosion time from a view (as in X19), and with a parent class that
    leaves [explosion_time_jd] alone, every later call of [process] on the
    same instance is the [process] of the parent class: the views of the
    later call are not read, and the date of the first call stays. *)
Theorem explosion_time_adopted_once (self : Self) (lc lc' : LightCurve)
    (pre post t2_views' : list T2DocView) (v : T2DocView)
    (d : gmap string UBson) (tv : UBson) (x : Q) (m : Model) (ps : list string) :
  (forall s l vs, explosion_time_jd (snd (super_process s l vs)) = explosion_time_jd s) ->
  explosion_time_jd self = StockTriggerTime ->
  Forall other_unit pre ->
  Forall other_unit post ->
  carries v d ->
  d !! "explosion_time" = Some tv ->
  reads_as tv x ->
  Model_set_t0 (sncosmo_model self) (ExplFloat x) = inr m ->
  list_remove "t0" (fit_params self) = Some ps ->
  explosion_time_jd (snd (process self lc (pre ++ v :: post))) = ExplFloat x
  /\ process (snd (process self lc (pre ++ v :: post))) lc' t2_views'
     = super_process (snd (process self lc (pre ++ v :: post))) lc' t2_views'.
Proof.
  intros Hsup He Hpre Hpost Hc Hd Hr Hm Hps.
  assert (E : explosion_time_jd (snd (process self lc (pre ++ v :: post))) = ExplFloat x).
  { rewrite (process_run self lc _ He),
      (for_views_adopt self pre post v d tv x m ps Hpre Hc Hd Hr Hm Hps),
      (for_views_others post _ Hpost).
    rewrite Hsup. reflexivity. }
  split; [exact E|].
  apply process_fixed. rewrite E. discriminate.
Qed.

(** X21. Two views of T2PropagateStockInfo.  With [explosion_time_jd]
    the string ['StockTriggerTime'], fit parameters without duplicates, and
    two views of T2PropagateStockInfo that both carry a readable explosion
    time: the first view takes ['t0'] out of [fit_params], and at the second
    view [process] raises (the exception of [model.set], or [ValueError] from
    [fit_params.remove('t0')]).  The parent class is not called, and the
    instance is left with the date of the second view. *)
Theorem second_stock_info_raises (self : Self) (lc : LightCurve)
    (pre mid post : list T2DocView) (v1 v2 : T2DocView)
    (d1 d2 : gmap string UBson) (tv1 tv2 : UBson) (x1 x2 : Q) (m1 : Model) :
  explosion_time_jd self = StockTriggerTime ->
  NoDup (fit_params self) ->
  In "t0" (fit_params self) ->
  Forall other_unit pre ->
  Forall other_unit mid ->
  carries v1 d1 -> d1 !! "explosion_time" = Some tv1 -> reads_as tv1 x1 ->
  carries v2 d2 -> d2 !! "explosion_time" = Some tv2 -> reads_as tv2 x2 ->
  Model_set_t0 (sncosmo_model self) (ExplFloat x1) = inr m1 ->
  fst (process self lc (pre ++ v1 :: mid ++ v2 :: post))
  = inl (match Model_set_t0 m1 (ExplFloat x2) with
         | inl e => e
         | inr _ => ValueError
         end)
  /\ explosion_time_jd (snd (process self lc (pre ++ v1 :: mid ++ v2 :: post)))
     = ExplFloat x2.
Proof.
  intros He Hnd Hin Hpre Hmid Hc1 Hd1 Hr1 Hc2 Hd2 Hr2 Hm1.
  destruct (list_remove "t0" (fit_params self)) as [ps|] eqn:Hps.
  2:{ exfalso. clear - Hin Hps. induction (fit_params self) as [|y l IH]; [destruct Hin|].
      cbn [list_remove] in Hps. destruct (bool_decide (y = "t0")) eqn:E; [discriminate|].
      apply bool_decide_eq_false_1 in E.
      destruct (list_remove "t0" l); [discriminate|].
      destruct Hin as [Hy|Hl]; [contradiction|]. exact (IH Hl eq_refl). }
  pose proof (list_remove_NoDup "t0" _ ps Hnd Hps) as Hno.
  rewrite (process_run self lc _ He),
    (for_views_adopt self pre (mid ++ v2 :: post) v1 d1 tv1 x1 m1 ps
       Hpre Hc1 Hd1 Hr1 Hm1 Hps),
    (for_views_skip mid (v2 :: post) _ Hmid).
  cbn [for_views]. unfold bind.
  rewrite (visit_adopt v2 d2 tv2 x2 _ Hc2 Hd2 Hr2). cbv zeta.
  cbn [sncosmo_model fit_params set_fit_params set_sncosmo_model log_append
       set_explosion_time_jd].
  destruct (Model_set_t0 m1 (ExplFloat x2)) as [e|m2].
  - split; reflexivity.
  - rewrite (list_remove_None "t0" ps Hno). split; reflexivity.
Qed.

(** X22. An explosion time that is no float and no string.  When the
    value under [explosion_time] is neither a float nor a string (an
    integer Julian date, [None], ...), neither branch assigns:
    [explosion_time_jd] stays the string ['StockTriggerTime'] and that string
    is what [model.set(t0=...)] is called with.  If the model refuses it,
    [process] raises its exception; if it takes it, ['t0'] leaves the fit
    parameters and the parent class runs with [explosion_time_jd] still the
    string. *)
Theorem explosion_time_not_read (self : Self) (lc : LightCurve)
    (pre post : list T2DocView) (v : T2DocView) (d : gmap string UBson) (tv : UBson) :
  explosion_time_jd self = StockTriggerTime ->
  Forall other_unit pre ->
  Forall other_unit post ->
  carries v d ->
  d !! "explosion_time" = Some tv ->
  (forall x, tv <> BFloat x) ->
  (forall s, tv <> BStr s) ->
  let logged :=
    logger self
    ++ [mkLog DEBUG "Parsing t2 results from T2PropagateStockInfo" NoExtra;
        mkLog DEBUG "reset explosion time" (Extra_explosion_time StockTriggerTime)] in
  (forall e, Model_set_t0 (sncosmo_model self) StockTriggerTime = inl e ->
     process self lc (pre ++ v :: post)
     = (inl e, mkUnit StockTriggerTime (sncosmo_model self) (fit_params self) logged
                 (inherited self)))
  /\ (forall m ps,
        Model_set_t0 (sncosmo_model self) StockTriggerTime = inr m ->
        list_remove "t0" (fit_params self) = Some ps ->
        process self lc (pre ++ v :: post)
        = super_process (mkUnit StockTriggerTime m ps logged (inherited self))
            lc (pre ++ v :: post)).
Proof.
  intros He Hpre Hpost Hc Hd Hf Hs logged. subst logged.
  rewrite (process_run self lc _ He), (for_views_skip pre (v :: post) self Hpre).
  cbn [for_views]. unfold bind. rewrite (visit_unread v d tv self Hc Hd Hf Hs).
  cbv zeta. rewrite He. split.
  - intros e Hm. rewrite Hm.
    unfold log_append. cbn [explosion_time_jd sncosmo_model fit_params logger inherited].
    rewrite <- app_assoc, He. reflexivity.
  - intros m ps Hm Hps. rewrite Hm, Hps, (for_views_others post _ Hpost).
    unfold set_fit_params, set_sncosmo_model, log_append.
    cbn [explosion_time_jd sncosmo_model fit_params logger inherited].
    rewrite <- app_assoc, He. reflexivity.
Qed.

(** X23. A payload that is no dict.  With [explosion_time_jd] the string
    ['StockTriggerTime'], the first view of T2PropagateStockInfo makes
    [process] raise [IndexError] when its payload is an empty list, and
    [AttributeError] when its payload (or the last element of its payload
    list) is not a dict, for instance [None]: the value has no [keys].  One
    debug record is logged and the parent class is not called. *)
Theorem payload_without_keys (self : Self) (lc : LightCurve)
    (pre post : list T2DocView) (v : T2DocView) :
  explosion_time_jd self = StockTriggerTime ->
  Forall other_unit pre ->
  unit v = "T2PropagateStockInfo" ->
  let self1 :=
    log_append (mkLog DEBUG "Parsing t2 results from T2PropagateStockInfo" NoExtra) self in
  (get_payload v = BList [] ->
     process self lc (pre ++ v :: post) = (inl IndexError, self1))
  /\ (forall t2_res,
        (get_payload v = t2_res \/ exists res, get_payload v = BList (res ++ [t2_res])) ->
        (forall l, t2_res <> BList l) ->
        (forall d, t2_res <> BDict d) ->
        process self lc (pre ++ v :: post) = (inl AttributeError, self1)).
Proof.
  intros He Hpre Hu self1. subst self1.
  rewrite (process_run self lc _ He), (for_views_skip pre (v :: post) self Hpre).
  cbn [for_views]. unfold bind, visit.
  rewrite bool_decide_eq_true_2 by exact Hu. cbn [negb]. rewrite Hu. split.
  - intros Hp. rewrite Hp. reflexivity.
  - intros t2_res Hp Hl Hd.
    assert (E : match get_payload v with
                | BList res => lift (getitem_last res)
                | res => ret res
                end = ret t2_res).
    { destruct Hp as [Hp|[res Hp]]; rewrite Hp.
      - destruct t2_res; try reflexivity. exfalso. eapply Hl. reflexivity.
      - unfold getitem_last. rewrite last_snoc. reflexivity. }
    rewrite E. t2norm.
    destruct t2_res; try reflexivity. exfalso. eapply Hd. reflexivity.
Qed.

Lemma loop_footprint_refl (self : Self) : loop_footprint self self.
Proof.
  repeat split; [exists []; symmetry; apply app_nil_r|reflexivity|left; reflexivity].
Qed.

Lemma loop_footprint_trans (s1 s2 s3 : Self) :
  loop_footprint s1 s2 -> loop_footprint s2 s3 -> loop_footprint s1 s3.
Proof.
  intros (Hi & (k & Hl) & Hf & He) (Hi' & (k' & Hl') & Hf' & He').
  split; [congruence|]. split; [|split].
  - exists (k ++ k'). rewrite Hl', Hl, app_assoc. reflexivity.
  - etransitivity; eassumption.
  - destruct He' as [He'|[x He']]; [|right; exists x; exact He'].
    rewrite He'. exact He.
Qed.

Lemma loop_footprint_log (r : log_record) (self : Self) :
  loop_footprint self (log_append r self).
Proof.
  repeat split; [exists [r]; reflexivity|reflexivity|left; reflexivity].
Qed.

Lemma loop_footprint_tail (s0 : Self) :
  loop_footprint s0
    (snd (match Model_set_t0 (sncosmo_model s0) (explosion_time_jd s0) with
          | inl e => (@Raise env Datatypes.unit e, s0)
          | inr m =>
              match list_remove "t0" (fit_params s0) with
              | None => (Raise ValueError, set_sncosmo_model m s0)
              | Some ps => (Next tt, set_fit_params ps (set_sncosmo_model m s0))
              end
          end)).
Proof.
  destruct (Model_set_t0 (sncosmo_model s0) (explosion_time_jd s0)) as [e|m];
    [apply loop_footprint_refl|].
  destruct (list_remove "t0" (fit_params s0)) as [ps|] eqn:Hps; cbn [snd].
  - repeat split; cbn; [exists []; symmetry; apply app_nil_r| |left; reflexivity].
    apply (list_remove_sublist "t0" _ _ Hps).
  - repeat split; cbn; [exists []; symmetry; apply app_nil_r|reflexivity|left; reflexivity].
Qed.

Lemma visit_footprint (v : T2DocView) (self : Self) :
  loop_footprint self (snd (visit v self)).
Proof.
  unfold visit. destruct (bool_decide (unit v = "T2PropagateStockInfo"));
    cbn [negb]; [|apply loop_footprint_refl].
  set (r1 := mkLog DEBUG ("Parsing t2 results from " +:+ unit v) NoExtra).
  assert (H1 : loop_footprint self (log_append r1 self)) by apply loop_footprint_log.
  assert (Hk : forall t2_res : UBson,
             loop_footprint self
               (snd (bind (lift (keys t2_res))
                   (fun ks =>
                      match ks !! "explosion_time" with
                      | None =>
                          bind (logger_info "No explosion time" (Extra_t2res t2_res))
                            (fun _ => py_return (UnitResult T2_MISSING_INFO))
                      | Some v0 =>
                          bind
                            match v0 with
                            | BFloat x => assign_explosion_time_jd (ExplFloat x)
                            | BStr s =>
                                bind (lift (Time_jd s))
                                  (fun jd => assign_explosion_time_jd (ExplFloat jd))
                            | _ => ret tt
                            end
                            (fun _ =>
                               bind (attr explosion_time_jd)
                                 (fun t =>
                                    bind
                                      (logger_debug "reset explosion time"
                                         (Extra_explosion_time t))
                                      (fun _ =>
                                         bind sncosmo_model_set_t0
                                           (fun _ => fit_params_remove "t0"))))
                      end) (log_append r1 self)))).
  { intros t2_res.
    destruct t2_res as [| | | | | |d]; try exact H1.
    cbn [keys lift]. unfold bind at 1. unfold ret at 1.
    destruct (d !! "explosion_time") as [tv|].
    2:{ t2norm. cbn [snd]. eapply loop_footprint_trans; [exact H1|].
        apply (loop_footprint_log _ (log_append r1 self)). }
    assert (Ht : forall s0 : Self,
               loop_footprint self s0 ->
               loop_footprint self
                 (snd (bind (attr explosion_time_jd)
                         (fun t =>
                            bind
                              (logger_debug "reset explosion time"
                                 (Extra_explosion_time t))
                              (fun _ =>
                                 bind sncosmo_model_set_t0
                                   (fun _ => fit_params_remove "t0"))) s0))).
    { intros s0 H0. eapply loop_footprint_trans; [exact H0|].
      eapply loop_footprint_trans;
        [apply (loop_footprint_log
                  (mkLog DEBUG "reset explosion time"
                     (Extra_explosion_time (explosion_time_jd s0))) s0)|].
      pose proof (loop_footprint_tail
                    (log_append
                       (mkLog DEBUG "reset explosion time"
                          (Extra_explosion_time (explosion_time_jd s0))) s0)) as T.
      t2norm. cbn [explosion_time_jd sncosmo_model fit_params log_append] in T.
      destruct (Model_set_t0 (sncosmo_model s0) (explosion_time_jd s0)) as [e|m];
        [exact T|].
      cbn [fit_params set_sncosmo_model log_append].
      destruct (list_remove "t0" (fit_params s0)); exact T. }
    assert (Hset : forall x, loop_footprint self
                     (set_explosion_time_jd (ExplFloat x) (log_append r1 self))).
    { intros x. repeat split; cbn;
        [exists [r1]; reflexivity|reflexivity|right; exists x; reflexivity]. }
    destruct tv as [| | |x|s| |]; unfold bind at 1;
      try (unfold ret at 1; apply Ht; exact H1).
    - unfold assign_explosion_time_jd at 1. apply Ht, Hset.
    - unfold bind at 1. unfold lift at 1.
      destruct (Time_jd s) as [e|jd]; [exact H1|].
      unfold ret at 1. unfold assign_explosion_time_jd at 1. apply Ht, Hset. }
  unfold bind at 1. unfold logger_debug at 1. fold r1.
  destruct (get_payload v) as [| | | | |l|d] eqn:Hp;
    try (unfold bind at 1; unfold ret at 1; apply Hk).
  unfold bind at 1. unfold getitem_last.
  destruct (last l) as [t2_res|]; [|exact H1].
  unfold lift at 1, ret at 1. apply Hk.
Qed.

(** X24. What the loop may touch.  Whatever the views are and however
    the loop over them ends (it runs to its end, returns, or raises), the
    instance it leaves differs from the one it found in this only: records
    were added at the end of the logger, parameters left [fit_params] (what
    is left is a sublist), and [explosion_time_jd] is as before or a float.
    The inherited attributes are untouched. *)
Theorem for_views_footprint (t2_views : list T2DocView) (self : Self) :
  loop_footprint self (snd (for_views t2_views self)).
Proof.
  revert self. induction t2_views as [|v vs IH]; intros self.
  - apply loop_footprint_refl.
  - cbn [for_views]. unfold bind.
    pose proof (visit_footprint v self) as Hv.
    destruct (visit v self) as [[[]|r|e] s]; cbn [snd] in *; try exact Hv.
    eapply loop_footprint_trans; [exact Hv|apply IH].
Qed.

End PossisProperties.

(** * The theorems at the example data *)

Lemma example_alert_well_formed :
  @well_formed (constant_collaborators []) example_config 0 example_alert.
Proof.
  unfold well_formed. split; [discriminate|]. split.
  { intros d [<-|[<-|[]]]; eexists; (split; [vm_compute; reflexivity|discriminate]). }
  split.
  { intros k v Hk Hv. right. cbn in Hk.
    repeat (destruct Hk as [<-|Hk];
            [vm_compute in Hv; injection Hv as <-; discriminate|]).
    destruct Hk. }
  split; [vm_compute; discriminate|]. split.
  { intros H. vm_compute in H. discriminate. }
  exists tt, [], []. repeat split.
Defined.

Lemma apply_implements_evaluate_witness :
  @apply (constant_collaborators []) (state example_config_drb [] 0) example_alert_negative
  = (Returned None,
     log_append (mkLog INFO None "isdiffpos" (PStr "f")) (state example_config_drb [] 0))
  /\ (exists r self',
        @apply (constant_collaborators []) (state example_config [] 0) example_alert
        = (Returned r, self'))
  /\ @evaluate (constant_collaborators []) example_alert example_config
       (@catalog_at (constant_collaborators []) 0)
     = Accepted ["SNCOSMO"].
Proof.
  split.
  - refine (proj1 (proj1 (proj1 (@apply_implements_evaluate (constant_collaborators [])
                                   example_config_drb [] 0%nat example_alert_negative)
                            (<["isdiffpos" := PStr "f"]> example_latest) [example_previous]
                            3%nat (cut_isdiffpos (<["isdiffpos" := PStr "f"]> example_latest))
                            eq_refl eq_refl _)
                     None _ _)).
    + cbn [take gates]. repeat constructor; vm_compute; reflexivity.
    + vm_compute. reflexivity.
  - pose proof (@apply_implements_evaluate (constant_collaborators []) example_config []
                  0%nat example_alert) as (_ & _ & _ & Hreturns & Hagrees).
    split.
    + apply Hreturns. exact example_alert_well_formed.
    + specialize (Hagrees (Some ["SNCOSMO"])
                    (log_append
                       (mkLog DEBUG (Some "Alert accepted") "latestPpId" (PNum 17))
                       (state example_config [] 1))).
      destruct (@evaluate (constant_collaborators []) example_alert example_config
                  (@catalog_at (constant_collaborators []) 0)) as [k|tags].
      * destruct Hagrees as [Hr _]; [vm_compute; reflexivity|discriminate].
      * destruct Hagrees as (_ & -> & _); [vm_compute; reflexivity|reflexivity].
Defined.

Lemma gaia_veto_witness :
  @apply (constant_collaborators [example_star_receding]) (state example_config [] 0)
    example_alert
  = (Returned None,
     log_append (mkLog INFO None "gaiaIsStar" (PBool true)) (state example_config [] 1))
  /\ @apply (constant_collaborators [example_star_faint]) (state example_config [] 0)
       example_alert
     = (Returned (Some ["SNCOSMO"]),
        log_append (mkLog DEBUG (Some "Alert accepted") "latestPpId" (PNum 17))
          (state example_config [] 1)).
Proof.
  split.
  - refine (proj2 (proj1 (@gaia_veto (constant_collaborators [example_star_receding])
                     (state example_config [] 0) example_latest (PNum 10) (PNum 20) tt
                     [example_star_receding] [(example_star_receding, tt)] _ _ _ _ _)
                     example_star_receding tt _ _ _ _ _ _ example_alert [example_previous] _)
              _);
      try (vm_compute; reflexivity).
    + left. reflexivity.
    + split; vm_compute; discriminate.
    + left. split; [vm_compute; discriminate|vm_compute; reflexivity].
    + cbn [take gates]. repeat constructor; vm_compute; reflexivity.
  - refine (proj1 (proj2 (proj2 (proj2
              (@gaia_veto (constant_collaborators [example_star_faint])
                 (state example_config [] 0) example_latest (PNum 10) (PNum 20) tt
                 [example_star_faint] [(example_star_faint, tt)] _ _ _ _ _)))
              _ example_alert [example_previous] _ _) (PNum 17) _);
      try (vm_compute; reflexivity).
    + constructor; [right; vm_compute; reflexivity|constructor].
    + cbn [take gates]. repeat constructor; vm_compute; reflexivity.
Defined.

(** C2, as it is worded, does not hold: a source outside the magnitude
    window and thirteen statements that pass are not enough for [apply] to
    accept.  The acceptance reads the [candid] of the latest detection; on
    a detection without it [apply] raises [KeyError]. *)
Lemma faint_source_not_always_accepted :
  ~ (forall (collab : Collaborators) (self : DecentFilter) (latest : photopoint)
       (vx vy : pyval) (tc : coord) (srcs : list gaia_src)
       (wc : list (gaia_src * coord)) (alert : AmpelAlert) (rest : list photopoint),
        latest !! "ra" = Some vx -> latest !! "dec" = Some vy ->
        SkyCoord deg vx vy = inr tc ->
        cone_search (catshtm self) "GAIADR2" (ra_rad tc) (dec_rad tc) (gaia_rs self)
        = inr srcs ->
        gaia_SkyCoord srcs = inr wc ->
        Forall (fun s => (Mag_G s < gaia_veto_gmag_min self
                          \/ gaia_veto_gmag_max self < Mag_G s)%Q) srcs ->
        pps alert = latest :: rest ->
        Forall (fun g => passes g self) (take 13 (gates alert latest)) ->
        fst (apply self alert) = Returned (Some (on_match_t2_units self))).
Proof.
  intros H.
  assert (Hacc : fst (@apply (constant_collaborators [example_star_faint])
                        (state example_config [] 0) example_alert_anonymous)
                 = Returned (Some (on_match_t2_units (state example_config [] 0)))).
  { apply (H (constant_collaborators [example_star_faint]) (state example_config [] 0)
             (delete "candid" example_latest) (PNum 10) (PNum 20) tt
             [example_star_faint] [(example_star_faint, tt)]
             example_alert_anonymous [example_previous]);
      try (vm_compute; reflexivity).
    - constructor; [right; vm_compute; reflexivity|constructor].
    - cbn [take gates]. repeat constructor; vm_compute; reflexivity. }
  vm_compute in Hacc. discriminate Hacc.
Qed.


Lemma history_span_gate_witness :
  @apply (constant_collaborators []) (state example_config [] 0) example_alert_short
  = (Returned None,
     log_append (mkLog INFO None "tSpan" (PNum 0)) (state example_config [] 0))
  /\ @apply (constant_collaborators []) (state example_config [] 0) example_alert
     = (Returned (Some ["SNCOSMO"]),
        log_append (mkLog DEBUG (Some "Alert accepted") "latestPpId" (PNum 17))
          (state example_config [] 1))
  /\ @apply (constant_collaborators []) (state example_config [] 0) example_alert_anonymous
     = (Raised (KeyError "candid"), state example_config [] 1).
Proof.
  split; [|split].
  - refine (proj1 (@history_span_gate (constant_collaborators [])
                     (state example_config [] 0) example_alert_short example_latest
                     [<["jd" := PNum 2458002]> example_previous] 2458002%Q [2458002%Q]
                     eq_refl _ _) _);
      try (vm_compute; reflexivity).
    left. vm_compute. discriminate.
  - refine (proj1 (proj2 (@history_span_gate (constant_collaborators [])
                            (state example_config [] 0) example_alert example_latest
                            [example_previous] 2458002%Q [2458000%Q] eq_refl _ _) _ _)
              (PNum 17) _);
      try (vm_compute; reflexivity).
    + split; vm_compute; reflexivity.
    + cbn [drop gates]. repeat constructor; vm_compute; reflexivity.
  - refine (proj2 (proj2 (@history_span_gate (constant_collaborators [])
                            (state example_config [] 0) example_alert_anonymous
                            (delete "candid" example_latest)
                            [example_previous] 2458002%Q [2458000%Q] eq_refl _ _) _ _) _);
      try (vm_compute; reflexivity).
    + split; vm_compute; reflexivity.
    + cbn [drop gates]. repeat constructor; vm_compute; reflexivity.
Defined.

(** C4, as it is worded, does not hold: a span strictly inside the window
    and every other statement passing are not enough for [apply] to accept.
    On a latest detection without [candid] the acceptance raises
    [KeyError]. *)
Lemma span_inside_not_always_accepted :
  ~ (forall (collab : Collaborators) (self : DecentFilter) (alert : AmpelAlert)
       (latest : photopoint) (rest : list photopoint) (j : Q) (js : list Q),
        pps alert = latest :: rest ->
        passes (cut_ndet alert) self ->
        all_num (get_values alert "jd") = Some (j :: js) ->
        (min_tspan self < round64 (fold_right Qmax j js - fold_right Qmin j js)
         /\ round64 (fold_right Qmax j js - fold_right Qmin j js) < max_tspan self)%Q ->
        Forall (fun g => passes g self) (drop 2 (gates alert latest)) ->
        fst (apply self alert) = Returned (Some (on_match_t2_units self))).
Proof.
  intros H.
  assert (Hacc : fst (@apply (constant_collaborators []) (state example_config [] 0)
                        example_alert_anonymous)
                 = Returned (Some (on_match_t2_units (state example_config [] 0)))).
  { apply (H (constant_collaborators []) (state example_config [] 0)
             example_alert_anonymous (delete "candid" example_latest)
             [example_previous] 2458002%Q [2458000%Q]);
      try (vm_compute; reflexivity).
    - split; vm_compute; reflexivity.
    - cbn [drop gates]. repeat constructor; vm_compute; reflexivity. }
  vm_compute in Hacc. discriminate Hacc.
Qed.

Lemma sso_gate_witness :
  @apply (constant_collaborators []) (state example_config [] 0) example_alert_sso
  = (Returned None,
     log_append (mkLog INFO None "ssdistnr" (PNum 0)) (state example_config [] 0)).
Proof.
  refine (proj2 (proj2 (proj2 (proj2
            (@sso_gate (constant_collaborators []) (state example_config [] 0)
               (<["ssdistnr" := PNum 0]> example_latest) (PNum 0) 0 _ _))))
            example_alert_sso [example_previous] eq_refl _ _);
    try (vm_compute; reflexivity).
  - cbn [take gates]. repeat constructor; vm_compute; reflexivity.
  - split; [vm_compute; discriminate|vm_compute; reflexivity].
Defined.

Lemma incomplete_alert_rejected_witness :
  exists r k',
    @apply (constant_collaborators []) (state example_config [] 0) example_alert_incomplete
    = (Returned None, log_append r (state example_config [] 0))
    /\ log_level r = INFO /\ log_val r = PStr k' /\ In k' required_fields
    /\ ((log_key r = "missing" /\ delete "rb" example_latest !! k' = None)
        \/ (log_key r = "isNone" /\ delete "rb" example_latest !! k' = Some PNone)).
Proof.
  apply (@incomplete_alert_rejected (constant_collaborators []) example_config [] 0%nat
           example_alert_incomplete (delete "rb" example_latest) [example_previous] "rb"
           eq_refl);
    try (vm_compute; reflexivity).
  - cbn. tauto.
  - left. vm_compute. reflexivity.
Defined.

Lemma drb_gate_disabled_witness :
  cut_drb example_latest (state example_config [] 0)
  = (Next tt, state example_config [] 0)
  /\ @apply (constant_collaborators []) (state example_config [] 0)
       (mkAlert [example_latest; example_previous] [])
     = @apply (constant_collaborators []) (state example_config [] 0)
         (mkAlert [<["drb" := PNone]> example_latest; example_previous] []).
Proof.
  apply (@drb_gate_disabled (constant_collaborators []) example_config [] 0%nat
           example_latest (<["drb" := PNone]> example_latest) [example_previous] []).
  - reflexivity.
  - intros k Hk. symmetry. apply lookup_insert_ne. intros E. apply Hk. symmetry. exact E.
Defined.

Lemma apply_deterministic_witness :
  fst (@apply (constant_collaborators [example_star])
         (snd (@apply (constant_collaborators [example_star])
                 (state example_config [] 0) example_alert)) example_alert)
  = fst (@apply (constant_collaborators [example_star])
           (state example_config [] 0) example_alert).
Proof.
  apply (@apply_deterministic (constant_collaborators [example_star])
           (state example_config [] 0) example_alert).
  intros ra dec rs. reflexivity.
Defined.

Lemma nbad_noninterference_witness :
  fst (@apply (constant_collaborators []) (state (set_MAX_NBAD 5 example_config) [] 0)
         (mkAlert [<["nbad" := PNum 25]> example_latest; example_previous] []))
  = fst (@apply (constant_collaborators []) (state example_config [] 0)
           (mkAlert [example_latest; example_previous] [])).
Proof.
  apply (@nbad_noninterference (constant_collaborators []) example_config [] 0%nat 5
           example_latest [example_previous] [] (PNum 0) (PNum 25)).
  - vm_compute. reflexivity.
  - discriminate.
  - discriminate.
Defined.

Lemma drb_missing_raises_witness :
  @apply (constant_collaborators []) (state example_config_drb [] 0) example_alert
  = (Raised (KeyError "drb"), state example_config_drb [] 0).
Proof.
  apply (@drb_missing_raises (constant_collaborators []) example_config_drb [] 0%nat
           example_alert example_latest [example_previous] eq_refl).
  - vm_compute. reflexivity.
  - cbn [take gates]. repeat constructor; vm_compute; reflexivity.
  - vm_compute. reflexivity.
Defined.

(** C10, as it is worded, does not hold: passing the field-completeness
    statement is not enough for the missing [drb] to be read.  With
    [min_drb = 0.5], a complete latest detection without [drb] and with
    [isdiffpos = 'f'] is rejected by the [isdiffpos] statement: [apply]
    returns [None] and raises nothing. *)
Lemma drb_missing_not_always_raised :
  ~ (forall (collab : Collaborators) (c : InitConfig) (lg : list log_record) (n : nat)
       (alert : AmpelAlert) (latest : photopoint) (rest : list photopoint),
        pps alert = latest :: rest ->
        (0 < MIN_DRB c)%Q ->
        passes (cut_keys latest) (state c lg n) ->
        latest !! "drb" = None ->
        fst (apply (state c lg n) alert) = Raised (KeyError "drb")).
Proof.
  intros H.
  specialize (H (constant_collaborators []) example_config_drb [] 0%nat
                example_alert_negative (<["isdiffpos" := PStr "f"]> example_latest)
                [example_previous] eq_refl).
  assert (Hret : fst (@apply (constant_collaborators []) (state example_config_drb [] 0)
                        example_alert_negative) = Returned None)
    by (vm_compute; reflexivity).
  rewrite Hret in H. discriminate H; vm_compute; reflexivity.
Qed.

Lemma alert_has_keys_first_offender_witness :
  _alert_has_keys (delete "rb" example_latest) (state example_config [] 0)
  = (Next false,
     log_append (mkLog INFO None "missing" (PStr "rb")) (state example_config [] 0)).
Proof.
  refine (proj1 (proj2 (alert_has_keys_first_offender (state example_config [] 0)
                          (delete "rb" example_latest))
                   ["fwhm"; "elong"; "magdiff"; "nbad"; "distpsnr1"; "sgscore1";
                    "distpsnr2"; "sgscore2"; "distpsnr3"; "sgscore3"; "isdiffpos";
                    "ra"; "dec"] "rb" ["ssdistnr"] eq_refl _) _).
  - intros k' Hk. cbn in Hk.
    repeat (destruct Hk as [<-|Hk]; [vm_compute; reflexivity|]). destruct Hk.
  - vm_compute. reflexivity.
Defined.

Lemma ps1_star_veto_witness :
  cut_star_in_PS1 example_ps1_star (state example_config [] 0)
  = (Return None,
     log_append (mkLog INFO None "distpsnr1" (PNum (1#2))) (state example_config [] 0)).
Proof.
  refine (proj1 (proj1 (proj2 (ps1_star_veto (state example_config [] 0) example_ps1_star
                                 (PNum (1#2)) (1#2) _ _)) (9#10) _ _) _);
    vm_compute; reflexivity.
Defined.

Lemma galactic_latitude_cut_witness :
  @cut_gal_lat (constant_collaborators []) example_latest (state example_config [] 0)
  = (Next tt, state example_config [] 0).
Proof.
  refine (proj1 (proj2 (@galactic_latitude_cut (constant_collaborators [])
                          (state example_config [] 0) example_latest (PNum 10) (PNum 20)
                          tt _ _ _)) _);
    first [vm_compute; reflexivity | vm_compute; discriminate].
Defined.

Lemma too_few_detections_witness :
  @apply (constant_collaborators []) (state example_config [] 0) example_alert_single
  = (Returned None,
     log_append
       (mkLog INFO None "nDet"
          (PNum (inject_Z (Z.of_nat (length (pps example_alert_single))))))
       (state example_config [] 0)).
Proof.
  apply (@too_few_detections (constant_collaborators []) (state example_config [] 0)
           example_alert_single).
  vm_compute. reflexivity.
Defined.

Lemma no_julian_date_raises_witness :
  @apply (constant_collaborators []) (state example_config [] 0) example_alert_undated
  = (Raised ValueError, state example_config [] 0).
Proof.
  apply (@no_julian_date_raises (constant_collaborators []) (state example_config [] 0)
           example_alert_undated).
  - vm_compute. discriminate.
  - intros d [<-|[<-|[]]]; vm_compute; reflexivity.
Defined.

Lemma flat_history_rejected_witness :
  exists t, (t == 0)%Q
    /\ @apply (constant_collaborators []) (state example_config [] 0) example_alert_short
       = (Returned None,
          log_append (mkLog INFO None "tSpan" (PNum t)) (state example_config [] 0)).
Proof.
  apply (@flat_history_rejected (constant_collaborators []) (state example_config [] 0)
           example_alert_short example_latest [<["jd" := PNum 2458002]> example_previous]
           2458002%Q [2458002%Q] eq_refl).
  - vm_compute. reflexivity.
  - vm_compute. reflexivity.
  - constructor; [apply Qeq_refl|constructor].
  - vm_compute. discriminate.
Defined.

Lemma isdiffpos_cut_witness :
  cut_isdiffpos (<["isdiffpos" := PStr "f"]> example_latest) (state example_config [] 0)
  = (Return None,
     log_append (mkLog INFO None "isdiffpos" (PStr "f")) (state example_config [] 0)).
Proof.
  refine (proj1 (isdiffpos_cut (state example_config [] 0)
                   (<["isdiffpos" := PStr "f"]> example_latest) (PStr "f") _) _).
  - vm_compute. reflexivity.
  - left. reflexivity.
Defined.

Lemma rb_cut_witness :
  cut_rb example_latest (state example_config [] 0) = (Next tt, state example_config [] 0).
Proof.
  refine (proj2 (proj1 (rb_cut (state example_config [] 0) example_latest (PNum (1#2)) _)
                   (1#2) _) _);
    first [vm_compute; reflexivity | vm_compute; discriminate].
Defined.

Lemma image_quality_cuts_witness :
  cut_fwhm example_latest (state example_config [] 0) = (Next tt, state example_config [] 0).
Proof.
  refine (proj2 (proj1 (image_quality_cuts (state example_config [] 0) example_latest
                          (PNum 3) (PNum 1) (PNum 0) 3 1 0 _ _ _ _ _ _)) _);
    first [vm_compute; reflexivity | vm_compute; discriminate].
Defined.

Lemma drb_cut_enabled_witness :
  cut_drb (<["drb" := PNum (1#10)]> example_latest) (state example_config_drb [] 0)
  = (Return None,
     log_append (mkLog INFO None "drb" (PNum (1#10))) (state example_config_drb [] 0)).
Proof.
  refine (proj1 (proj1 (@drb_cut_enabled (constant_collaborators [])
                          (state example_config_drb [] 0)
                          (<["drb" := PNum (1#10)]> example_latest) (PNum (1#10)) _ _)
                   (1#10) _) _);
    vm_compute; reflexivity.
Defined.

Lemma is_star_in_gaia_iff_witness :
  exists b,
    @is_star_in_gaia (constant_collaborators [example_star]) example_latest
      (state example_config [] 0)
    = (Next b, set_catshtm (S (catshtm (state example_config [] 0)))
                 (state example_config [] 0))
    /\ (b = true <->
        exists s sc, In (s, sc) [(example_star, tt)]
          /\ @gaia_star (constant_collaborators [example_star])
               (state example_config [] 0) tt s sc)
    /\ ([example_star] = [] -> b = false)
    /\ (Forall (fun s => (gaia_excessnoise_sig_max (state example_config [] 0)
                          <= ExcessNoiseSig s)%Q) [example_star]
        -> b = false).
Proof.
  apply (@is_star_in_gaia_iff (constant_collaborators [example_star])
           (state example_config [] 0) example_latest (PNum 10) (PNum 20) tt
           [example_star] [(example_star, tt)]);
    vm_compute; reflexivity.
Defined.

Lemma catalog_failure_propagates_witness :
  @apply failing_catalog (state example_config [] 0) example_alert
  = (Raised CatalogServiceError,
     set_catshtm (S (catshtm (state example_config [] 0))) (state example_config [] 0)).
Proof.
  apply (@catalog_failure_propagates failing_catalog (state example_config [] 0)
           example_alert example_latest [example_previous] (PNum 10) (PNum 20) tt
           CatalogServiceError
           eq_refl);
    try (vm_compute; reflexivity).
  cbn [take gates]. repeat constructor; vm_compute; reflexivity.
Defined.

Lemma loosening_keeps_acceptance_witness :
  fst (@apply (constant_collaborators []) (state example_config_loose [] 0) example_alert)
  = Returned (Some ["SNCOSMO"; "POSSIS"]).
Proof.
  apply (@loosening_keeps_acceptance (constant_collaborators []) example_config
           example_config_loose [] [] 0%nat example_alert ["SNCOSMO"]).
  - unfold looser. repeat split; vm_compute; first [reflexivity | discriminate].
  - vm_compute. reflexivity.
Defined.

Lemma history_order_irrelevant_witness :
  fst (@apply (constant_collaborators []) (state example_config [] 0)
         (mkAlert [example_latest; example_previous; example_older] []))
  = fst (@apply (constant_collaborators []) (state example_config [] 0)
           (mkAlert [example_latest; example_older; example_previous] [example_previous])).
Proof.
  apply (@history_order_irrelevant (constant_collaborators []) (state example_config [] 0)
           example_latest [example_previous; example_older]
           [example_older; example_previous] [] [example_previous]).
  apply perm_swap.
Defined.

Lemma process_delegates_witness :
  @T2RunPossis.process example_environment example_unit tt [example_view_redshift]
  = @T2RunPossis.super_process example_environment example_unit tt [example_view_redshift].
Proof.
  apply (@process_delegates example_environment example_unit tt [example_view_redshift]).
  right. constructor; [|constructor]. intros H. vm_compute in H. discriminate.
Defined.

Lemma missing_explosion_time_witness :
  @T2RunPossis.process example_environment example_unit tt
    ([example_view_redshift] ++ example_view_no_trigger :: [example_view_trigger])
  = (inr (@T2RunPossis.UnitResult example_environment
            (@T2RunPossis.T2_MISSING_INFO example_environment)),
     @T2RunPossis.log_append example_environment
       (T2RunPossis.mkLog INFO "No explosion time"
          (T2RunPossis.Extra_t2res (T2RunPossis.BDict example_no_trigger)))
       (@T2RunPossis.log_append example_environment
          (T2RunPossis.mkLog DEBUG "Parsing t2 results from T2PropagateStockInfo"
             T2RunPossis.NoExtra)
          example_unit)).
Proof.
  apply (@missing_explosion_time example_environment example_unit tt
           [example_view_redshift] [example_view_trigger] example_view_no_trigger
           example_no_trigger).
  - reflexivity.
  - constructor; [|constructor]. intros H. vm_compute in H. discriminate.
  - split; [reflexivity|left; reflexivity].
  - vm_compute. reflexivity.
Defined.

Lemma explosion_time_adopted_witness :
  @T2RunPossis.process example_environment example_unit tt
    ([example_view_redshift] ++ example_view_trigger_date :: [])
  = @T2RunPossis.super_process example_environment
      (T2RunPossis.mkUnit (T2RunPossis.ExplFloat 2459584) (Some 2459584%Q)
         ["z"; "amplitude"]
         (T2RunPossis.logger example_unit
          ++ [T2RunPossis.mkLog DEBUG "Parsing t2 results from T2PropagateStockInfo"
                T2RunPossis.NoExtra;
              T2RunPossis.mkLog DEBUG "reset explosion time"
                (T2RunPossis.Extra_explosion_time (T2RunPossis.ExplFloat 2459584))])
         (T2RunPossis.inherited example_unit))
      tt ([example_view_redshift] ++ example_view_trigger_date :: []).
Proof.
  apply (@explosion_time_adopted example_environment example_unit tt
           [example_view_redshift] [] example_view_trigger_date example_trigger_date
           (T2RunPossis.BStr "2022-01-04T12:00:00") 2459584%Q (Some 2459584%Q)
           ["z"; "amplitude"]).
  - reflexivity.
  - constructor; [|constructor]. intros H. vm_compute in H. discriminate.
  - constructor.
  - split; [reflexivity|right; exists [T2RunPossis.BNone]; reflexivity].
  - vm_compute. reflexivity.
  - right. exists "2022-01-04T12:00:00". split; [reflexivity|vm_compute; reflexivity].
  - reflexivity.
  - vm_compute. reflexivity.
Defined.

Lemma explosion_time_adopted_once_witness :
  T2RunPossis.explosion_time_jd
    (snd (@T2RunPossis.process example_environment example_unit tt
            ([] ++ example_view_trigger :: [example_view_redshift])))
  = T2RunPossis.ExplFloat 2459584
  /\ @T2RunPossis.process example_environment
       (snd (@T2RunPossis.process example_environment example_unit tt
               ([] ++ example_view_trigger :: [example_view_redshift])))
       tt [example_view_trigger_date]
     = @T2RunPossis.super_process example_environment
         (snd (@T2RunPossis.process example_environment example_unit tt
                 ([] ++ example_view_trigger :: [example_view_redshift])))
         tt [example_view_trigger_date].
Proof.
  apply (@explosion_time_adopted_once example_environment example_unit tt tt
           [] [example_view_redshift] [example_view_trigger_date] example_view_trigger
           example_trigger (T2RunPossis.BFloat 2459584) 2459584%Q (Some 2459584%Q)
           ["z"; "amplitude"]).
  - intros s l vs. reflexivity.
  - reflexivity.
  - constructor.
  - constructor; [|constructor]. intros H. vm_compute in H. discriminate.
  - split; [reflexivity|left; reflexivity].
  - vm_compute. reflexivity.
  - left. reflexivity.
  - reflexivity.
  - vm_compute. reflexivity.
Defined.

Lemma second_stock_info_raises_witness :
  fst (@T2RunPossis.process example_environment example_unit tt
         ([] ++ example_view_trigger :: [example_view_redshift]
             ++ example_view_trigger_date :: []))
  = inl (match @T2RunPossis.Model_set_t0 example_environment (Some 2459584%Q)
                 (T2RunPossis.ExplFloat 2459584) with
         | inl e => e
         | inr _ => T2RunPossis.ValueError
         end)
  /\ T2RunPossis.explosion_time_jd
       (snd (@T2RunPossis.process example_environment example_unit tt
               ([] ++ example_view_trigger :: [example_view_redshift]
                   ++ example_view_trigger_date :: [])))
     = T2RunPossis.ExplFloat 2459584.
Proof.
  apply (@second_stock_info_raises example_environment example_unit tt
           [] [example_view_redshift] [] example_view_trigger example_view_trigger_date
           example_trigger example_trigger_date
           (T2RunPossis.BFloat 2459584) (T2RunPossis.BStr "2022-01-04T12:00:00")
           2459584%Q 2459584%Q (Some 2459584%Q)).
  - reflexivity.
  - apply (bool_decide_eq_true_1 _). vm_compute. reflexivity.
  - right. left. reflexivity.
  - constructor.
  - constructor; [|constructor]. intros H. vm_compute in H. discriminate.
  - split; [reflexivity|left; reflexivity].
  - vm_compute. reflexivity.
  - left. reflexivity.
  - split; [reflexivity|right; exists [T2RunPossis.BNone]; reflexivity].
  - vm_compute. reflexivity.
  - right. exists "2022-01-04T12:00:00". split; [reflexivity|vm_compute; reflexivity].
  - reflexivity.
Defined.

Lemma explosion_time_not_read_witness :
  @T2RunPossis.process example_environment example_unit tt
    ([] ++ example_view_trigger_int :: [])
  = (inl (T2RunPossis.Foreign "TypeError"),
     T2RunPossis.mkUnit T2RunPossis.StockTriggerTime
       (T2RunPossis.sncosmo_model example_unit) (T2RunPossis.fit_params example_unit)
       (T2RunPossis.logger example_unit
        ++ [T2RunPossis.mkLog DEBUG "Parsing t2 results from T2PropagateStockInfo"
              T2RunPossis.NoExtra;
            T2RunPossis.mkLog DEBUG "reset explosion time"
              (T2RunPossis.Extra_explosion_time T2RunPossis.StockTriggerTime)])
       (T2RunPossis.inherited example_unit)).
Proof.
  refine (proj1 (@explosion_time_not_read example_environment example_unit tt [] []
                   example_view_trigger_int example_trigger_int
                   (T2RunPossis.BInt 2459584) _ _ _ _ _ _ _)
            (T2RunPossis.Foreign "TypeError") _).
  - reflexivity.
  - constructor.
  - constructor.
  - split; [reflexivity|left; reflexivity].
  - vm_compute. reflexivity.
  - intros x H. discriminate.
  - intros s H. discriminate.
  - reflexivity.
Defined.

Lemma payload_without_keys_witness :
  @T2RunPossis.process example_environment example_unit tt
    ([example_view_redshift] ++ example_view_empty :: [])
  = (inl T2RunPossis.IndexError,
     @T2RunPossis.log_append example_environment
       (T2RunPossis.mkLog DEBUG "Parsing t2 results from T2PropagateStockInfo"
          T2RunPossis.NoExtra)
       example_unit)
  /\ @T2RunPossis.process example_environment example_unit tt
       ([example_view_redshift] ++ example_view_none :: [])
     = (inl T2RunPossis.AttributeError,
        @T2RunPossis.log_append example_environment
          (T2RunPossis.mkLog DEBUG "Parsing t2 results from T2PropagateStockInfo"
             T2RunPossis.NoExtra)
          example_unit).
Proof.
  split.
  - refine (proj1 (@payload_without_keys example_environment example_unit tt
                     [example_view_redshift] [] example_view_empty _ _ _) _).
    + reflexivity.
    + constructor; [|constructor]. intros H. vm_compute in H. discriminate.
    + reflexivity.
    + reflexivity.
  - refine (proj2 (@payload_without_keys example_environment example_unit tt
                     [example_view_redshift] [] example_view_none _ _ _)
              T2RunPossis.BNone _ _ _).
    + reflexivity.
    + constructor; [|constructor]. intros H. vm_compute in H. discriminate.
    + reflexivity.
    + left. reflexivity.
    + intros l H. discriminate.
    + intros d H. discriminate.
Defined.
